(** * redsea: RDS block synchronisation, burst-error correction and group
      assembly.

    A shallow embedding of [src/block_sync.cc], [src/block_sync.h],
    [src/util.h] (RunningSum, getBits) and the Group / Station parts of
    [src/groups.cc], followed by the properties of the decoder core.

    Conventions.  C++ unsigned integers are modelled as [Z] with the
    wrap-around written where the source can overflow; signed [int]
    quantities ([bitcount_], the countdown) are [Z], and C++'s truncating
    [/] and [%] are [Z.quot] and [Z.rem].  [std::array] is a [list] read
    with stdpp's lookup and written with stdpp's insert; [std::map] is a
    [gmap]. *)

From Stdlib Require Import ZArith Lia String Ascii.
From stdpp Require Import base numbers list gmap countable.

Local Open Scope Z_scope.

(* ===================================================================== *)
(** * Offsets and block numbers *)
(* ===================================================================== *)

(** Modelled from the spec: [src/groups.h] is not among the sources.  It
    declares the enumerations used below; the constructors are the ones
    named in [block_sync.cc]. *)
Inductive Offset : Set := A | B | C | Cprime | D | invalid.

(** Modelled from the spec: [eBlockNumber] is declared in [src/groups.h].
    The constants index [blocks_] ([getBlock1] reads [blocks_[0]], and so
    on), hence BLOCK1 = 0 ... BLOCK4 = 3. *)
Inductive eBlockNumber : Set := BLOCK1 | BLOCK2 | BLOCK3 | BLOCK4.

Definition block_index (n : eBlockNumber) : nat :=
  match n with BLOCK1 => 0 | BLOCK2 => 1 | BLOCK3 => 2 | BLOCK4 => 3 end%nat.

Definition block_int (n : eBlockNumber) : Z := Z.of_nat (block_index n).

#[global] Instance Offset_eq_dec : EqDecision Offset.
Proof. solve_decision. Defined.

#[global] Instance eBlockNumber_eq_dec : EqDecision eBlockNumber.
Proof. solve_decision. Defined.

Definition Offset_to_nat (o : Offset) : nat :=
  match o with
  | A => 0 | B => 1 | C => 2 | Cprime => 3 | D => 4 | invalid => 5
  end%nat.

Definition Offset_of_nat (n : nat) : option Offset :=
  match n with
  | 0 => Some A | 1 => Some B | 2 => Some C | 3 => Some Cprime
  | 4 => Some D | 5 => Some invalid | _ => None
  end%nat.

#[global] Instance Offset_countable : Countable Offset.
Proof.
  refine (inj_countable Offset_to_nat Offset_of_nat _).
  intros []; reflexivity.
Defined.

Definition kBlockLength : Z := 26.
Definition kBlockBitmask : Z := Z.shiftl 1 kBlockLength - 1.
Definition kCheckwordLength : Z := 10.

(** Narrowing conversions of the source. *)
Definition uint16_t (x : Z) : Z := x mod 2 ^ 16.
Definition uint32_t (x : Z) : Z := x mod 2 ^ 32.

Definition getBlockNumberForOffset (offset : Offset) : eBlockNumber :=
  match offset with
  | A => BLOCK1
  | B => BLOCK2
  | C => BLOCK3
  | Cprime => BLOCK3
  | D => BLOCK4
  | invalid => BLOCK1
  end.

Definition getNextOffsetFor (this_offset : Offset) : Offset :=
  match this_offset with
  | A => B
  | B => C
  | C => D
  | Cprime => D
  | D => A
  | invalid => A
  end.

(** IEC 62106:2015 section B.3.1 Table B.1: the [switch] of the source. *)
Definition getOffsetForSyndrome (syndrome : Z) : Offset :=
  if syndrome =? 0x3D8 (* 0b1111011000 *) then A
  else if syndrome =? 0x3D4 (* 0b1111010100 *) then B
  else if syndrome =? 0x25C (* 0b1001011100 *) then C
  else if syndrome =? 0x3CC (* 0b1111001100 *) then Cprime
  else if syndrome =? 0x258 (* 0b1001011000 *) then D
  else invalid.

(* ===================================================================== *)
(** * Syndrome calculation *)
(* ===================================================================== *)

Definition parity_check_matrix : list Z :=
  [ 0x200 (* 0b1000000000 *);
    0x100 (* 0b0100000000 *);
    0x080 (* 0b0010000000 *);
    0x040 (* 0b0001000000 *);
    0x020 (* 0b0000100000 *);
    0x010 (* 0b0000010000 *);
    0x008 (* 0b0000001000 *);
    0x004 (* 0b0000000100 *);
    0x002 (* 0b0000000010 *);
    0x001 (* 0b0000000001 *);
    0x2DC (* 0b1011011100 *);
    0x16E (* 0b0101101110 *);
    0x0B7 (* 0b0010110111 *);
    0x287 (* 0b1010000111 *);
    0x39F (* 0b1110011111 *);
    0x313 (* 0b1100010011 *);
    0x355 (* 0b1101010101 *);
    0x376 (* 0b1101110110 *);
    0x1BB (* 0b0110111011 *);
    0x201 (* 0b1000000001 *);
    0x3DC (* 0b1111011100 *);
    0x1EE (* 0b0111101110 *);
    0x0F7 (* 0b0011110111 *);
    0x2A7 (* 0b1010100111 *);
    0x38F (* 0b1110001111 *);
    0x31B (* 0b1100011011 *) ].

(** One iteration of the loop body:
    [result ^= matrix[size - 1 - k] * ((vec >> k) & 1)]. *)
Definition syndrome_step (vec : Z) (result : Z) (k : nat) : Z :=
  Z.lxor result
    (nth (length parity_check_matrix - 1 - k) parity_check_matrix 0
     * Z.land (Z.shiftr vec (Z.of_nat k)) 1).

Definition calculateSyndrome (vec : Z) : Z :=
  fold_left (syndrome_step vec) (seq 0 (length parity_check_matrix)) 0.

(* ===================================================================== *)
(** * Burst-error correction *)
(* ===================================================================== *)

(** Table B.1: the offset words, in the iteration order of the
    [std::map<Offset, uint16_t>]. *)
Definition offset_words : list (Offset * Z) :=
  [ (A,      0x0FC (* 0b0011111100 *));
    (B,      0x198 (* 0b0110011000 *));
    (C,      0x168 (* 0b0101101000 *));
    (Cprime, 0x350 (* 0b1101010000 *));
    (D,      0x1B4 (* 0b0110110100 *)) ].

(** [std::map::insert]: an existing key keeps its value. *)
Definition map_insert_new {K V} `{Countable K}
    (k : K) (v : V) (m : gmap K V) : gmap K V :=
  match m !! k with
  | Some _ => m
  | None => <[k := v]> m
  end.

Definition makeErrorLookupTable : gmap (Z * Offset) Z :=
  fold_left (fun table (offset : Offset * Z) =>
    fold_left (fun table error_bits =>
      fold_left (fun table (shift : nat) =>
        let error_vector :=
          Z.land (uint32_t (Z.shiftl error_bits (Z.of_nat shift)))
                 kBlockBitmask in
        let syndrome := calculateSyndrome (Z.lxor error_vector (snd offset)) in
        map_insert_new (uint16_t syndrome, fst offset) error_vector table)
        (seq 0 (Z.to_nat kBlockLength)) table)
      [0x1; 0x3] table)
    offset_words ∅.

Record ErrorCorrectionResult : Set := mkErrorCorrectionResult {
  succeeded : bool;
  corrected_bits : Z
}.

(** Modelled from the spec: [struct Block] is declared in [src/groups.h],
    which is not among the sources; the fields are the ones the sources
    read and write, and a default-constructed block is unreceived with an
    invalid offset. *)
Record Block : Set := mkBlock {
  raw : Z;
  data : Z;
  is_received : bool;
  had_errors : bool;
  offset : Offset
}.

Definition Block_default : Block :=
  {| raw := 0; data := 0; is_received := false; had_errors := false;
     offset := invalid |}.

Definition error_lookup_table : gmap (Z * Offset) Z := makeErrorLookupTable.

Definition correctBurstErrors (block : Block) (expected_offset : Offset)
    : ErrorCorrectionResult :=
  let syndrome := uint16_t (calculateSyndrome (raw block)) in
  match error_lookup_table !! (syndrome, expected_offset) with
  | Some err =>
      {| succeeded := true; corrected_bits := Z.lxor (raw block) err |}
  | None =>
      {| succeeded := false; corrected_bits := raw block |}
  end.

(* ===================================================================== *)
(** * Sync pulses *)
(* ===================================================================== *)

Record SyncPulse : Set := mkSyncPulse {
  pulse_offset : Offset;
  pulse_bitcount : Z
}.

(** The member initialisers of [struct SyncPulse]. *)
Definition SyncPulse_default : SyncPulse :=
  {| pulse_offset := invalid; pulse_bitcount := -1 |}.

#[global] Instance SyncPulse_inhabited : Inhabited SyncPulse :=
  populate SyncPulse_default.

(** [std::array<SyncPulse, 4> pulses_]. *)
Definition SyncPulseBuffer : Set := list SyncPulse.

Definition SyncPulseBuffer_new : SyncPulseBuffer :=
  replicate 4 SyncPulse_default.

Definition back (pulses : SyncPulseBuffer) : SyncPulse :=
  pulses !!! (length pulses - 1)%nat.

Definition SyncPulseBuffer_push (pulses : SyncPulseBuffer)
    (offset : Offset) (bitcount : Z) : SyncPulseBuffer :=
  let shifted :=
    fold_left (fun (ps : SyncPulseBuffer) (i : nat) =>
                 <[i := ps !!! (i + 1)%nat]> ps)
              (seq 0 (length pulses - 1)) pulses in
  let new_pulse := {| pulse_offset := offset; pulse_bitcount := bitcount |} in
  <[(length shifted - 1)%nat := new_pulse]> shifted.

(** The loop body of [isSequenceFound] for one [prev_i].  The source
    computes [sync_distance] as an [int]; the difference is taken in
    [Z], which is that [int] whenever it fits one.  The theorems about
    the sequence test bound the bit counts of the buffer accordingly
    ([pulses_fit]). *)
Definition sequence_found_at (pulses : SyncPulseBuffer) (prev_i : nat) : bool :=
  let prev := pulses !!! prev_i in
  let sync_distance := pulse_bitcount (back pulses) - pulse_bitcount prev in
  (Z.rem sync_distance kBlockLength =? 0)
  && (Z.quot sync_distance kBlockLength <=? 6)
  && negb (bool_decide (pulse_offset prev = invalid))
  && (Z.rem (block_int (getBlockNumberForOffset (pulse_offset prev))
             + Z.quot sync_distance kBlockLength) 4
      =? block_int (getBlockNumberForOffset (pulse_offset (back pulses)))).

Fixpoint isSequenceFound_loop (pulses : SyncPulseBuffer) (indices : list nat)
    : bool :=
  match indices with
  | [] => false
  | prev_i :: rest =>
      if sequence_found_at pulses prev_i then true
      else isSequenceFound_loop pulses rest
  end.

Definition isSequenceFound (pulses : SyncPulseBuffer) : bool :=
  isSequenceFound_loop pulses (seq 0 (length pulses - 1)).

(* ===================================================================== *)
(** * util.h: getBits and RunningSum *)
(* ===================================================================== *)

(** [getBits<N>(word, starting_at)], result narrowed to [uint16_t].  The
    source shifts a [uint16_t] promoted to a 32-bit [int]: the model is
    that shift for a 16-bit [word] and a start bit below 32, the range
    in which the source is defined. *)
Definition getBits (N : Z) (word : Z) (starting_at : Z) : Z :=
  uint16_t (Z.land (Z.shiftr word starting_at) (Z.shiftl 1 N - 1)).

Record RunningSum : Set := mkRunningSum {
  history_ : list Z;
  pointer_ : nat
}.

Definition RunningSum_new (N : nat) : RunningSum :=
  {| history_ := replicate N 0; pointer_ := 0 |}.

(** [std::accumulate] adds up in [int]; the sum is taken in [Z], which
    is that [int] as long as every partial sum fits one, as it does for
    the error flags 0 and 1 that [BlockStream] pushes. *)
Definition getSum (s : RunningSum) : Z :=
  fold_left Z.add (history_ s) 0.

Definition RunningSum_push (s : RunningSum) (number : Z) : RunningSum :=
  {| history_ := <[pointer_ s := number]> (history_ s);
     pointer_ := (pointer_ s + 1) mod length (history_ s) |}.

Definition RunningSum_clear (s : RunningSum) : RunningSum :=
  {| history_ := replicate (length (history_ s)) 0;
     pointer_ := pointer_ s |}.

(* ===================================================================== *)
(** * Groups *)
(* ===================================================================== *)

Inductive Version : Set := VersionA | VersionB.

#[global] Instance Version_eq_dec : EqDecision Version.
Proof. solve_decision. Defined.

Record GroupType : Set := mkGroupType {
  number : Z;
  version : Version
}.

(** [GroupType::GroupType(uint16_t type_code)]. *)
Definition GroupType_of_code (type_code : Z) : GroupType :=
  {| number := Z.land (Z.shiftr type_code 1) 0xF;
     version := if Z.land type_code 0x1 =? 0 then VersionA else VersionB |}.

(** Modelled from the spec: the default [GroupType] comes from
    [src/groups.h]; number 0, version A. *)
Definition GroupType_default : GroupType :=
  {| number := 0; version := VersionA |}.

(** Modelled from the spec: [class Group] is declared in [src/groups.h].
    The fields are those [groups.cc] uses; the reception time and the
    block error rate (a time point and a float) are not read by any
    operation below and are left out. *)
Record Group : Set := mkGroup {
  type_ : GroupType;
  blocks_ : list Block;
  has_type_ : bool;
  has_c_prime_ : bool;
  no_offsets_ : bool
}.

#[global] Instance Block_inhabited : Inhabited Block := populate Block_default.

(** [Group::Group()]: four default blocks, every flag false. *)
Definition Group_new : Group :=
  {| type_ := GroupType_default;
     blocks_ := replicate 4 Block_default;
     has_type_ := false;
     has_c_prime_ := false;
     no_offsets_ := false |}.

Definition block_at (g : Group) (block_num : eBlockNumber) : Block :=
  blocks_ g !!! block_index block_num.

Definition getBlock (g : Group) (block_num : eBlockNumber) : Z :=
  data (block_at g block_num).

Definition has (g : Group) (block_num : eBlockNumber) : bool :=
  is_received (block_at g block_num).

Definition isEmpty (g : Group) : bool :=
  negb (has g BLOCK1 || has g BLOCK2 || has g BLOCK3 || has g BLOCK4).

Definition getPI (g : Group) : Z :=
  if is_received (block_at g BLOCK1) then data (block_at g BLOCK1)
  else if is_received (block_at g BLOCK3)
          && bool_decide (offset (block_at g BLOCK3) = Cprime)
       then data (block_at g BLOCK3)
  else 0x0000.

Definition hasPI (g : Group) : bool :=
  is_received (block_at g BLOCK1)
  || (is_received (block_at g BLOCK3)
      && bool_decide (offset (block_at g BLOCK3) = Cprime)).

Definition getType (g : Group) : GroupType := type_ g.
Definition hasType (g : Group) : bool := has_type_ g.

Definition disableOffsets (g : Group) : Group :=
  {| type_ := type_ g; blocks_ := blocks_ g; has_type_ := has_type_ g;
     has_c_prime_ := has_c_prime_ g; no_offsets_ := true |}.

Definition set_type (g : Group) (t : GroupType) (ht : bool) : Group :=
  {| type_ := t; blocks_ := blocks_ g; has_type_ := ht;
     has_c_prime_ := has_c_prime_ g; no_offsets_ := no_offsets_ g |}.

Definition set_blocks (g : Group) (bs : list Block) : Group :=
  {| type_ := type_ g; blocks_ := bs; has_type_ := has_type_ g;
     has_c_prime_ := has_c_prime_ g; no_offsets_ := no_offsets_ g |}.

Definition setBlock (block_num : eBlockNumber) (block : Block) (g : Group)
    : Group :=
  let g1 := set_blocks g (<[block_index block_num := block]> (blocks_ g)) in
  let g2 :=
    match block_num with
    | BLOCK2 =>
        let t := GroupType_of_code (getBits 5 (data block) 11) in
        if bool_decide (version t = VersionA) then set_type g1 t true
        else set_type g1 t (has_c_prime_ g1 || no_offsets_ g1)
    | BLOCK4 =>
        if has_c_prime_ g1 && negb (has_type_ g1) then
          let potential_type := GroupType_of_code (getBits 5 (data block) 11) in
          if (number potential_type =? 15)
             && bool_decide (version potential_type = VersionB)
          then set_type g1 potential_type true
          else g1
        else g1
    | _ => g1
    end in
  if bool_decide (offset block = Cprime) && has g2 BLOCK2
  then set_type g2 (type_ g2) (bool_decide (version (type_ g2) = VersionB))
  else g2.

(* ===================================================================== *)
(** * The block stream *)
(* ===================================================================== *)

(** The data members of [class BlockStream].  [options_] and
    [bler_average_] are never read in [block_sync.cc] and are left out. *)
Record BlockStream : Set := mkBlockStream {
  bitcount_ : Z;
  num_bits_until_next_block_ : Z;
  input_register_ : Z;
  expected_offset_ : Offset;
  is_in_sync_ : bool;
  block_error_sum50_ : RunningSum;
  current_group_ : Group;
  ready_group_ : Group;
  has_group_ready_ : bool;
  num_bits_since_sync_lost_ : Z
}.

(** [BlockStream::BlockStream]: the member initialisers of the header. *)
Definition BlockStream_new : BlockStream :=
  {| bitcount_ := 0;
     num_bits_until_next_block_ := 1;
     input_register_ := 0;
     expected_offset_ := A;
     is_in_sync_ := false;
     block_error_sum50_ := RunningSum_new 50;
     current_group_ := Group_new;
     ready_group_ := Group_new;
     has_group_ready_ := false;
     num_bits_since_sync_lost_ := 0 |}.

(** The state of a process: the function-local
    [static SyncPulseBuffer sync_buffer] of [acquireSync] exists once and
    is used by every [BlockStream] of the program, so it is kept apart
    from the per-object state. *)
Record Process : Set := mkProcess {
  sync_buffer : SyncPulseBuffer
}.

Definition Process_start : Process :=
  {| sync_buffer := SyncPulseBuffer_new |}.

Definition size_t (x : Z) : Z := x mod 2 ^ 64.

Definition handleUncorrectableError (bs : BlockStream) : BlockStream :=
  if is_in_sync_ bs && (45 <? getSum (block_error_sum50_ bs)) then
    {| bitcount_ := bitcount_ bs;
       num_bits_until_next_block_ := num_bits_until_next_block_ bs;
       input_register_ := input_register_ bs;
       expected_offset_ := expected_offset_ bs;
       is_in_sync_ := false;
       block_error_sum50_ := RunningSum_clear (block_error_sum50_ bs);
       current_group_ := current_group_ bs;
       ready_group_ := ready_group_ bs;
       has_group_ready_ := has_group_ready_ bs;
       num_bits_since_sync_lost_ := num_bits_since_sync_lost_ bs |}
  else bs.

Definition acquireSync (block : Block) (st : Process * BlockStream)
    : Process * BlockStream :=
  let '(p, bs) := st in
  if is_in_sync_ bs then (p, bs)
  else
    let lost := size_t (num_bits_since_sync_lost_ bs + 1) in
    let searching :=
      {| bitcount_ := bitcount_ bs;
         num_bits_until_next_block_ := num_bits_until_next_block_ bs;
         input_register_ := input_register_ bs;
         expected_offset_ := expected_offset_ bs;
         is_in_sync_ := false;
         block_error_sum50_ := block_error_sum50_ bs;
         current_group_ := current_group_ bs;
         ready_group_ := ready_group_ bs;
         has_group_ready_ := has_group_ready_ bs;
         num_bits_since_sync_lost_ := lost |} in
    if bool_decide (offset block = invalid) then (p, searching)
    else
      let p' :=
        {| sync_buffer :=
             SyncPulseBuffer_push (sync_buffer p) (offset block) (bitcount_ bs) |} in
      if isSequenceFound (sync_buffer p') then
        (p',
         {| bitcount_ := bitcount_ bs;
            num_bits_until_next_block_ := num_bits_until_next_block_ bs;
            input_register_ := input_register_ bs;
            expected_offset_ := offset block;
            is_in_sync_ := true;
            block_error_sum50_ := block_error_sum50_ bs;
            current_group_ := Group_new;
            ready_group_ := ready_group_ bs;
            has_group_ready_ := has_group_ready_ bs;
            num_bits_since_sync_lost_ := 0 |})
      else (p', searching).

Definition handleNewlyReceivedGroup (bs : BlockStream) : BlockStream :=
  {| bitcount_ := bitcount_ bs;
     num_bits_until_next_block_ := num_bits_until_next_block_ bs;
     input_register_ := input_register_ bs;
     expected_offset_ := expected_offset_ bs;
     is_in_sync_ := is_in_sync_ bs;
     block_error_sum50_ := block_error_sum50_ bs;
     current_group_ := Group_new;
     ready_group_ := current_group_ bs;
     has_group_ready_ := true;
     num_bits_since_sync_lost_ := num_bits_since_sync_lost_ bs |}.

Definition set_expected_offset (bs : BlockStream) (o : Offset) : BlockStream :=
  {| bitcount_ := bitcount_ bs;
     num_bits_until_next_block_ := num_bits_until_next_block_ bs;
     input_register_ := input_register_ bs;
     expected_offset_ := o;
     is_in_sync_ := is_in_sync_ bs;
     block_error_sum50_ := block_error_sum50_ bs;
     current_group_ := current_group_ bs;
     ready_group_ := ready_group_ bs;
     has_group_ready_ := has_group_ready_ bs;
     num_bits_since_sync_lost_ := num_bits_since_sync_lost_ bs |}.

Definition set_block_error_sum50 (bs : BlockStream) (s : RunningSum)
    : BlockStream :=
  {| bitcount_ := bitcount_ bs;
     num_bits_until_next_block_ := num_bits_until_next_block_ bs;
     input_register_ := input_register_ bs;
     expected_offset_ := expected_offset_ bs;
     is_in_sync_ := is_in_sync_ bs;
     block_error_sum50_ := s;
     current_group_ := current_group_ bs;
     ready_group_ := ready_group_ bs;
     has_group_ready_ := has_group_ready_ bs;
     num_bits_since_sync_lost_ := num_bits_since_sync_lost_ bs |}.

Definition set_current_group (bs : BlockStream) (g : Group) : BlockStream :=
  {| bitcount_ := bitcount_ bs;
     num_bits_until_next_block_ := num_bits_until_next_block_ bs;
     input_register_ := input_register_ bs;
     expected_offset_ := expected_offset_ bs;
     is_in_sync_ := is_in_sync_ bs;
     block_error_sum50_ := block_error_sum50_ bs;
     current_group_ := g;
     ready_group_ := ready_group_ bs;
     has_group_ready_ := has_group_ready_ bs;
     num_bits_since_sync_lost_ := num_bits_since_sync_lost_ bs |}.

Definition bool_to_Z (b : bool) : Z := if b then 1 else 0.

(** The body of [if (is_in_sync_) { ... }] in [findBlockInInputRegister],
    statement by statement.

    [if (expected_offset_ == Offset::C && block.offset == Offset::Cprime)
       expected_offset_ = Offset::Cprime;] *)
Definition switchToCprime (block_offset : Offset) (bs : BlockStream)
    : BlockStream :=
  if bool_decide (expected_offset_ bs = C)
     && bool_decide (block_offset = Cprime)
  then set_expected_offset bs Cprime else bs.

(** [if (block.had_errors) { auto correction = correctBurstErrors(...);
       if (correction.succeeded) { block.data = ...; block.offset = ...; }
       else { handleUncorrectableError(); } }] *)
Definition correctBlock (block : Block) (bs : BlockStream)
    : Block * BlockStream :=
  if had_errors block then
    let correction := correctBurstErrors block (expected_offset_ bs) in
    if succeeded correction then
      ({| raw := raw block;
          data := uint16_t (Z.shiftr (corrected_bits correction)
                                     kCheckwordLength);
          is_received := is_received block;
          had_errors := had_errors block;
          offset := expected_offset_ bs |}, bs)
    else (block, handleUncorrectableError bs)
  else (block, bs).

(** [if (block.offset == expected_offset_) { block.is_received = true;
       current_group_.setBlock(getBlockNumberForOffset(expected_offset_),
                               block); }] *)
Definition storeBlock (block : Block) (bs : BlockStream) : BlockStream :=
  if bool_decide (offset block = expected_offset_ bs) then
    let received :=
      {| raw := raw block; data := data block; is_received := true;
         had_errors := had_errors block; offset := offset block |} in
    set_current_group bs
      (setBlock (getBlockNumberForOffset (expected_offset_ bs)) received
                (current_group_ bs))
  else bs.

(** [expected_offset_ = getNextOffsetFor(expected_offset_);
     if (expected_offset_ == Offset::A) handleNewlyReceivedGroup();] *)
Definition advanceOffset (bs : BlockStream) : BlockStream :=
  let bs' := set_expected_offset bs (getNextOffsetFor (expected_offset_ bs)) in
  if bool_decide (expected_offset_ bs' = A)
  then handleNewlyReceivedGroup bs' else bs'.

Definition processBlockInSync (block_raw : Z) (block_offset : Offset)
    (bs : BlockStream) : BlockStream :=
  let bs1 := switchToCprime block_offset bs in
  let block_had_errors :=
    negb (bool_decide (block_offset = expected_offset_ bs1)) in
  let bs2 :=
    set_block_error_sum50 bs1
      (RunningSum_push (block_error_sum50_ bs1) (bool_to_Z block_had_errors)) in
  let block :=
    {| raw := block_raw;
       data := uint16_t (Z.shiftr block_raw kCheckwordLength);
       is_received := false;
       had_errors := block_had_errors;
       offset := block_offset |} in
  let '(block, bs3) := correctBlock block bs2 in
  advanceOffset (storeBlock block bs3).

Definition findBlockInInputRegister (st : Process * BlockStream)
    : Process * BlockStream :=
  let block_raw := Z.land (input_register_ (snd st)) kBlockBitmask in
  let block_offset :=
    getOffsetForSyndrome (uint16_t (calculateSyndrome block_raw)) in
  let block :=
    {| raw := block_raw; data := 0; is_received := false;
       had_errors := false; offset := block_offset |} in
  let '(p, bs) := acquireSync block st in
  if is_in_sync_ bs then (p, processBlockInSync block_raw block_offset bs)
  else (p, bs).

(** The first three statements of [pushBit]: shift the bit in, count.
    [bitcount_] is an [int]; the count is kept in [Z], which is that
    [int] as long as it stays below [2^31].  The theorems that state the
    bit count or the pulses pushed with it carry that bound. *)
Definition shift_in (bit : bool) (bs : BlockStream) : BlockStream :=
  {| bitcount_ := bitcount_ bs + 1;
     num_bits_until_next_block_ := num_bits_until_next_block_ bs - 1;
     input_register_ :=
       uint32_t (Z.shiftl (input_register_ bs) 1 + bool_to_Z bit);
     expected_offset_ := expected_offset_ bs;
     is_in_sync_ := is_in_sync_ bs;
     block_error_sum50_ := block_error_sum50_ bs;
     current_group_ := current_group_ bs;
     ready_group_ := ready_group_ bs;
     has_group_ready_ := has_group_ready_ bs;
     num_bits_since_sync_lost_ := num_bits_since_sync_lost_ bs |}.

(** [num_bits_until_next_block_ = is_in_sync_ ? kBlockLength : 1]. *)
Definition restart_countdown (bs : BlockStream) : BlockStream :=
  {| bitcount_ := bitcount_ bs;
     num_bits_until_next_block_ := if is_in_sync_ bs then kBlockLength else 1;
     input_register_ := input_register_ bs;
     expected_offset_ := expected_offset_ bs;
     is_in_sync_ := is_in_sync_ bs;
     block_error_sum50_ := block_error_sum50_ bs;
     current_group_ := current_group_ bs;
     ready_group_ := ready_group_ bs;
     has_group_ready_ := has_group_ready_ bs;
     num_bits_since_sync_lost_ := num_bits_since_sync_lost_ bs |}.

Definition pushBit (bit : bool) (st : Process * BlockStream)
    : Process * BlockStream :=
  let '(p, bs) := st in
  let shifted := shift_in bit bs in
  if num_bits_until_next_block_ shifted =? 0 then
    let '(p', bs') := findBlockInInputRegister (p, shifted) in
    (p', restart_countdown bs')
  else (p, shifted).

Definition hasGroupReady (bs : BlockStream) : bool := has_group_ready_ bs.

Definition popGroup (bs : BlockStream) : Group * BlockStream :=
  (ready_group_ bs,
   {| bitcount_ := bitcount_ bs;
      num_bits_until_next_block_ := num_bits_until_next_block_ bs;
      input_register_ := input_register_ bs;
      expected_offset_ := expected_offset_ bs;
      is_in_sync_ := is_in_sync_ bs;
      block_error_sum50_ := block_error_sum50_ bs;
      current_group_ := current_group_ bs;
      ready_group_ := ready_group_ bs;
      has_group_ready_ := false;
      num_bits_since_sync_lost_ := num_bits_since_sync_lost_ bs |}).

Definition flushCurrentGroup (bs : BlockStream) : Group := current_group_ bs.

Definition getNumBitsSinceSyncLost (bs : BlockStream) : Z :=
  num_bits_since_sync_lost_ bs.

(** Modelled from the spec: the loop that drives a stream (the caller of
    [pushBit], [hasGroupReady] and [popGroup]) is not among the sources.
    Every bit of the input is pushed, and a ready group is popped as soon
    as [hasGroupReady] reports it; the groups come out in stream order. *)
Fixpoint feed (bits : list bool) (st : Process * BlockStream)
    : list Group * (Process * BlockStream) :=
  match bits with
  | [] => ([], st)
  | bit :: rest =>
      let '(p, bs) := pushBit bit st in
      if hasGroupReady bs then
        let '(g, bs') := popGroup bs in
        let '(gs, st') := feed rest (p, bs') in
        (g :: gs, st')
      else feed rest (p, bs)
  end.

(** The 26 bits of a block word, in transmission order (bit 25 first). *)
Definition bits_of_block (w : Z) : list bool :=
  map (fun k => Z.testbit w (Z.of_nat k)) (rev (seq 0 (Z.to_nat kBlockLength))).

Definition pushBits (bits : list bool) (st : Process * BlockStream)
    : Process * BlockStream :=
  fold_left (fun st bit => pushBit bit st) bits st.

Definition pushBlock (w : Z) (st : Process * BlockStream)
    : Process * BlockStream :=
  pushBits (bits_of_block w) st.

Definition pushBlocks (ws : list Z) (st : Process * BlockStream)
    : Process * BlockStream :=
  fold_left (fun st w => pushBlock w st) ws st.

(* ===================================================================== *)
(** * Vocabulary of the properties *)
(* ===================================================================== *)

(** A 26-bit codeword of the (26,16) code: its syndrome is zero. *)
Definition is_codeword (c : Z) : Prop :=
  0 <= c < 2 ^ 26 /\ calculateSyndrome c = 0.

(** An error burst inside the 26 bit positions: a single 1-bit, or two
    adjacent 1-bits. *)
Definition is_burst_error (E : Z) : Prop :=
  exists shift : nat,
    (shift < 26 /\ E = Z.shiftl 1 (Z.of_nat shift))%nat
    \/ (shift < 25 /\ E = Z.shiftl 3 (Z.of_nat shift))%nat.

Definition burst_errors : list Z :=
  map (fun shift => Z.shiftl 1 (Z.of_nat shift)) (seq 0 26)
  ++ map (fun shift => Z.shiftl 3 (Z.of_nat shift)) (seq 0 25).

(** The syndromes the specification lists for the offset words. *)
Definition listed_syndromes : list (Offset * Z) :=
  [ (A,      0x3D8 (* 1111011000 *));
    (B,      0x3D4 (* 1111010100 *));
    (C,      0x25C (* 1001011100 *));
    (Cprime, 0x3CC (* 1111001100 *));
    (D,      0x258 (* 1001011000 *)) ].

(** Block slots.  A block word [w] that arrives while [expected] is
    awaited is labelled by its syndrome; a C' block arriving in place of
    C switches the expectation. *)
Definition observed_offset (w : Z) : Offset :=
  getOffsetForSyndrome (uint16_t (calculateSyndrome (Z.land w kBlockBitmask))).

Definition slot_offset (expected : Offset) (w : Z) : Offset :=
  if bool_decide (expected = C) && bool_decide (observed_offset w = Cprime)
  then Cprime else expected.

(** The block is errored: its syndrome does not match the expected offset. *)
Definition errored (expected : Offset) (w : Z) : bool :=
  negb (bool_decide (observed_offset w = slot_offset expected w)).

(** The block is errored and burst correction cannot repair it. *)
Definition uncorrectable (expected : Offset) (w : Z) : bool :=
  errored expected w
  && negb (succeeded
             (correctBurstErrors
                {| raw := Z.land w kBlockBitmask;
                   data := uint16_t (Z.shiftr (Z.land w kBlockBitmask)
                                              kCheckwordLength);
                   is_received := false; had_errors := true;
                   offset := observed_offset w |}
                (slot_offset expected w))).

(** Number of errored blocks in consecutive block slots, the first of
    which awaits [expected]. *)
Fixpoint error_count (expected : Offset) (ws : list Z) : Z :=
  match ws with
  | [] => 0
  | w :: rest =>
      bool_to_Z (errored expected w)
      + error_count (getNextOffsetFor (slot_offset expected w)) rest
  end.

Fixpoint expected_after (expected : Offset) (ws : list Z) : Offset :=
  match ws with
  | [] => expected
  | w :: rest => expected_after (getNextOffsetFor (slot_offset expected w)) rest
  end.

(** The stream after the bits have been shifted in, before any block is
    looked for; and the number the bits spell. *)
Definition shift_in_bits (bits : list bool) (bs : BlockStream) : BlockStream :=
  fold_left (fun bs bit => shift_in bit bs) bits bs.

Definition bits_value (bits : list bool) (acc : Z) : Z :=
  fold_left (fun a bit => 2 * a + bool_to_Z bit) bits acc.

(** An in-sync stream standing at a block boundary. *)
Definition at_block_boundary (bs : BlockStream) : Prop :=
  is_in_sync_ bs = true /\ num_bits_until_next_block_ bs = kBlockLength.

(** The 50-block window holds no error flag, as it does when sync has
    just been acquired. *)
Definition window_clear (bs : BlockStream) : Prop :=
  history_ (block_error_sum50_ bs) = replicate 50 0
  /\ (pointer_ (block_error_sum50_ bs) < 50)%nat.

(** An older sync pulse [p] anchors the newest one: the bit distance is
    [26 * q], at most six blocks, [p] carries a real offset, and the
    block numbers are [q] slots apart modulo 4 (the remainder of C++). *)
Definition anchors (p latest : SyncPulse) : Prop :=
  exists q : Z,
    pulse_bitcount latest - pulse_bitcount p = kBlockLength * q
    /\ q <= 6
    /\ pulse_offset p <> invalid
    /\ Z.rem (block_int (getBlockNumberForOffset (pulse_offset p)) + q) 4
       = block_int (getBlockNumberForOffset (pulse_offset latest)).

(** The same condition as the specification words it, with the
    mathematical modulo. *)
Definition anchors_as_specified (p latest : SyncPulse) : Prop :=
  exists q : Z,
    pulse_bitcount latest - pulse_bitcount p = kBlockLength * q
    /\ q <= 6
    /\ pulse_offset p <> invalid
    /\ (block_int (getBlockNumberForOffset (pulse_offset p)) + q) mod 4
       = block_int (getBlockNumberForOffset (pulse_offset latest)).


(** The bit counts of the pulses lie in [[-2^30, 2^30)]: the difference
    of any two of them fits the [int] in which [isSequenceFound]
    computes [sync_distance]. *)
Definition pulses_fit (pulses : SyncPulseBuffer) : Prop :=
  Forall (fun q : SyncPulse => - 2 ^ 30 <= pulse_bitcount q < 2 ^ 30) pulses.

(** A process and a stream that can take [n] more bits inside the range
    of [int]: the sync-pulse buffer has its four entries, their bit
    counts fit, and so does the bit count of the stream up to [n] bits
    from now. *)
Definition counts_fit (st : Process * BlockStream) (n : Z) : Prop :=
  length (sync_buffer (fst st)) = 4%nat
  /\ pulses_fit (sync_buffer (fst st))
  /\ - 2 ^ 30 <= bitcount_ (snd st)
  /\ bitcount_ (snd st) + n < 2 ^ 30.

(** Two streams constructed one after the other in one program and fed
    the same bits: the groups each of them delivers. *)
Definition feed_two_streams (bits : list bool) : list Group * list Group :=
  let '(groups1, (p1, _)) := feed bits (Process_start, BlockStream_new) in
  let '(groups2, _) := feed bits (p1, BlockStream_new) in
  (groups1, groups2).

(** Error-free blocks A, B, C, D with an all-zero information field: the
    block words are the offset words themselves. *)
Definition blocks_ABCD : list Z := [0x0FC; 0x198; 0x168; 0x1B4].

Definition bits_ABCD : list bool := flat_map bits_of_block blocks_ABCD.

(* ===================================================================== *)
(** * Hex serialisation *)
(* ===================================================================== *)

Inductive basefield : Set := dec | oct | hex.

(** The part of a [std::ostream] that [printHex] touches: fill character,
    the [uppercase] flag, the base, the field width of the next output
    and the characters written so far.  Adjustment is to the right, the
    default of a stream. *)
Record ostream : Set := mkOstream {
  fill_char : ascii;
  uppercase : bool;
  base : basefield;
  width : nat;
  written : string
}.

(** A freshly constructed [std::stringstream]. *)
Definition stringstream_new : ostream :=
  {| fill_char := " "%char; uppercase := false; base := dec; width := 0;
     written := EmptyString |}.

Definition ostream_fill (c : ascii) (s : ostream) : ostream :=
  {| fill_char := c; uppercase := uppercase s; base := base s;
     width := width s; written := written s |}.

Definition ostream_setf_uppercase (s : ostream) : ostream :=
  {| fill_char := fill_char s; uppercase := true; base := base s;
     width := width s; written := written s |}.

Definition ostream_hex (s : ostream) : ostream :=
  {| fill_char := fill_char s; uppercase := uppercase s; base := hex;
     width := width s; written := written s |}.

Definition ostream_setw (n : nat) (s : ostream) : ostream :=
  {| fill_char := fill_char s; uppercase := uppercase s; base := base s;
     width := n; written := written s |}.

Fixpoint string_repeat (c : ascii) (n : nat) : string :=
  match n with
  | O => EmptyString
  | S n' => String c (string_repeat c n')
  end.

(** Formatted output of a character sequence: padded on the left up to
    the field width, which is then reset. *)
Definition ostream_put (text : string) (s : ostream) : ostream :=
  {| fill_char := fill_char s; uppercase := uppercase s; base := base s;
     width := 0;
     written :=
       String.append (written s)
         (String.append
            (string_repeat (fill_char s) (width s - String.length text))
            text) |}.

Definition digit_char (upper : bool) (d : Z) : ascii :=
  if d <? 10 then ascii_of_nat (48 + Z.to_nat d)
  else ascii_of_nat ((if upper then 65 else 97) + Z.to_nat (d - 10)).

(** The digits of an unsigned number, most significant first, without
    leading zeros. *)
Fixpoint digits_loop (fuel : nat) (radix : Z) (upper : bool) (n : Z)
    (acc : string) : string :=
  match fuel with
  | O => acc
  | S fuel' =>
      let acc' := String (digit_char upper (n mod radix)) acc in
      if n / radix =? 0 then acc'
      else digits_loop fuel' radix upper (n / radix) acc'
  end.

Definition radix_of (b : basefield) : Z :=
  match b with dec => 10 | oct => 8 | hex => 16 end.

(** [operator<<] for an unsigned integer (at most 64 bits). *)
Definition ostream_put_unsigned (n : Z) (s : ostream) : ostream :=
  ostream_put (digits_loop 64 (radix_of (base s)) (uppercase s) n EmptyString) s.

Definition printHex_block (g : Group) (s : ostream) (block_num : eBlockNumber)
    : ostream :=
  let block := block_at g block_num in
  let s1 :=
    if is_received block
    then ostream_put_unsigned (data block) (ostream_setw 4 (ostream_hex s))
    else ostream_put "----" s in
  if bool_decide (block_num <> BLOCK4) then ostream_put " " s1 else s1.

Definition printHex (g : Group) (stream : ostream) : ostream :=
  let s := ostream_setf_uppercase (ostream_fill "0"%char stream) in
  fold_left (printHex_block g) [BLOCK1; BLOCK2; BLOCK3; BLOCK4] s.

(** The serialisation as the interface describes it: a received block is
    its four nybbles, most significant first, in upper-case hex. *)
Definition nybble_char (d : Z) : ascii :=
  nth (Z.to_nat d)
      ["0"; "1"; "2"; "3"; "4"; "5"; "6"; "7";
       "8"; "9"; "A"; "B"; "C"; "D"; "E"; "F"]%char "?"%char.

Definition hex_word (block : Block) : string :=
  if is_received block then
    String (nybble_char (Z.land (Z.shiftr (data block) 12) 0xF))
   (String (nybble_char (Z.land (Z.shiftr (data block) 8) 0xF))
   (String (nybble_char (Z.land (Z.shiftr (data block) 4) 0xF))
   (String (nybble_char (Z.land (data block) 0xF)) EmptyString)))
  else "----"%string.

(** A received block with the given information word. *)
Definition received_block (d : Z) (o : Offset) : Block :=
  {| raw := 0; data := d; is_received := true; had_errors := false;
     offset := o |}.

(* ===================================================================== *)
(** * Stations *)
(* ===================================================================== *)

Section Station.

(** [class Station] is declared in [src/groups.h]; the fields are those
    [Station::updateAndPrint] reads and writes.  What the function does
    with a group it accepts (from [json_.clear()] to the write on the
    stream) lives in the per-type decoders; it is taken as a function
    from the group and the decoder state (PS, RadioText, AF lists, ODA
    registrations, ...) to the new state and the line written. *)
Variable DecoderState : Type.
Variable decode : Group -> DecoderState -> DecoderState * string.

Record Station : Type := mkStation {
  pi_ : Z;
  has_pi_ : bool;
  last_group_had_pi_ : bool;
  decoder_ : DecoderState
}.

Definition set_last_group_had_pi (st : Station) (b : bool) : Station :=
  {| pi_ := pi_ st; has_pi_ := has_pi_ st; last_group_had_pi_ := b;
     decoder_ := decoder_ st |}.

(** The accepted path: decode and write one line. *)
Definition decodeAndPrint (group : Group) (st : Station) (out : list string)
    : Station * list string :=
  let '(d, line) := decode group (decoder_ st) in
  ({| pi_ := pi_ st; has_pi_ := has_pi_ st;
      last_group_had_pi_ := last_group_had_pi_ st; decoder_ := d |},
   out ++ [line]).

Definition updateAndPrint (group : Group) (s : Station * list string)
    : Station * list string :=
  let '(st, out) := s in
  if negb (has_pi_ st) then (st, out)
  else
    let gate :=
      if hasPI group then Some (set_last_group_had_pi st true)
      else if last_group_had_pi_ st
           then Some (set_last_group_had_pi st false)
      else None in
    match gate with
    | None => (st, out)
    | Some st1 =>
        if isEmpty group then (st1, out)
        else decodeAndPrint group st1 out
    end.

Definition updateAndPrint_all (groups : list Group) (s : Station * list string)
    : Station * list string :=
  fold_left (fun s g => updateAndPrint g s) groups s.

End Station.

Arguments pi_ {DecoderState} _.
Arguments has_pi_ {DecoderState} _.
Arguments last_group_had_pi_ {DecoderState} _.
Arguments decoder_ {DecoderState} _.
Arguments set_last_group_had_pi {DecoderState} _ _.
Arguments decodeAndPrint {DecoderState} _ _ _ _.
Arguments updateAndPrint {DecoderState} _ _ _.
Arguments updateAndPrint_all {DecoderState} _ _ _.

(* ===================================================================== *)
(** * Invariants used in the proofs *)
(* ===================================================================== *)

(** A stream that [printHex] has prepared and that has no pending field
    width. *)
Definition hex_ready (s : ostream) : Prop :=
  fill_char s = "0"%char /\ uppercase s = true /\ width s = 0%nat.

(** The bookkeeping of the 50-block window: the array has its 50 cells,
    the write position is inside it and no cell is negative. *)
Definition window_ok (s : RunningSum) : Prop :=
  length (history_ s) = 50%nat
  /\ (pointer_ s < 50)%nat
  /\ Forall (fun x => 0 <= x) (history_ s).

(** After [n] pushes into a clear window the cells that come next, up to
    the one written first, are still zero. *)
Definition window_fresh (s : RunningSum) (n : nat) : Prop :=
  length (history_ s) = 50%nat
  /\ (pointer_ s < 50)%nat
  /\ forall j : nat, (j < 50 - n)%nat ->
       history_ s !! ((pointer_ s + j) mod 50)%nat = Some 0.

(* ===================================================================== *)
(** * Sample data *)
(* ===================================================================== *)

(** Blocks 1, 2 and 4 received with 0xE242, 0x0000, 0x2020; block 3
    missing. *)
Definition group_E242 : Group :=
  setBlock BLOCK4 (received_block 0x2020 D)
    (setBlock BLOCK2 (received_block 0x0000 B)
       (setBlock BLOCK1 (received_block 0xE242 A) Group_new)).

(** A decoder that counts the groups it is given. *)
Definition counting_decoder (g : Group) (n : nat) : nat * string :=
  (S n, "group"%string).

Definition station_E242 : Station nat :=
  {| pi_ := 0xE242; has_pi_ := true; last_group_had_pi_ := false;
     decoder_ := 0%nat |}.

(** A stream that has just acquired sync: blocks A and B of an error-free
    group were fed to a new stream of a new process.  Sync is found at
    block B, block C is awaited and the window is clear. *)
Definition synced : Process * BlockStream :=
  pushBlocks [0x0FC; 0x198] (Process_start, BlockStream_new).

(** 46 blocks with one flipped bit each (bit 10, the lowest data bit) in
    the slots C, D, A, B, ..., followed by four error-free blocks
    A, B, C, D. *)
Definition blocks_46_corrected : list Z :=
  concat (replicate 11 [0x568; 0x5B4; 0x4FC; 0x598]) ++ [0x568; 0x5B4]
  ++ [0x0FC; 0x198; 0x168; 0x1B4].

(** 50 block slots starting at slot A: all-zero words, which no burst
    correction repairs, except for an error-free block A in the slots 8,
    16, 24, 32 and 40. *)
Definition blocks_45_garbled : list Z :=
  replicate 8 0
  ++ concat (replicate 4 (0x0FC :: replicate 7 0))
  ++ 0x0FC :: replicate 9 0.

(** 45 all-zero words and five error-free blocks D, A, B, C, D. *)
Definition blocks_45_then_clean : list Z :=
  replicate 45 0 ++ [0x1B4; 0x0FC; 0x198; 0x168; 0x1B4].

(* ===================================================================== *)
(** * util.h: the window of a running sum and two-word bit fields *)
(* ===================================================================== *)

(** The values a [RunningSum] holds, oldest first: the cell under the
    pointer is the next one to be overwritten. *)
Definition RunningSum_window (s : RunningSum) : list Z :=
  drop (pointer_ s) (history_ s) ++ take (pointer_ s) (history_ s).

Definition RunningSum_push_all (vs : list Z) (s : RunningSum) : RunningSum :=
  fold_left RunningSum_push vs s.

(** The two-word overload [getBits<N>(word1, word2, starting_at)] of
    [util.h].  Both words are promoted to [int]: the left shift, the sum
    and the mask are 32-bit two's-complement values (a shift into the
    sign bit wraps, as C++20 defines it), the right shift keeps the
    sign, and the result is converted to [uint32_t]. *)
Definition int32_t (x : Z) : Z := (x + 2 ^ 31) mod 2 ^ 32 - 2 ^ 31.

Definition getBits2 (N : Z) (word1 word2 : Z) (starting_at : Z) : Z :=
  uint32_t
    (Z.land
       (Z.shiftr (int32_t (int32_t (Z.shiftl word1 16) + word2)) starting_at)
       (int32_t (int32_t (Z.shiftl 1 N) - 1))).

(* ===================================================================== *)
(** * groups.cc: programme item numbers, type order and error count *)
(* ===================================================================== *)

(** [decodePIN]: the three entries written into the JSON object when the
    function returns true ([prog_item_number], [prog_item_started.day]
    and the hour and minute handed to [getHoursMinutesString]); [None]
    when it returns false and leaves the object alone. *)
Record ProgItem : Set := mkProgItem {
  prog_item_number : Z;
  prog_item_day : Z;
  prog_item_hour : Z;
  prog_item_minute : Z
}.

Definition decodePIN (pin : Z) : option ProgItem :=
  let day := getBits 5 pin 11 in
  let hour := getBits 5 pin 6 in
  let minute := getBits 6 pin 0 in
  if (1 <=? day) && (hour <=? 24) && (minute <=? 59) then
    Some {| prog_item_number := pin; prog_item_day := day;
            prog_item_hour := hour; prog_item_minute := minute |}
  else None.

(** Modelled from the spec: [GroupType::Version] is declared in
    [src/groups.h]; its enumerators are taken in the order A, B, the
    order of the version bit (0 = A, 1 = B). *)
Definition Version_int (v : Version) : Z :=
  match v with VersionA => 0 | VersionB => 1 end.

(** [operator==] and [operator<] on [GroupType]. *)
Definition GroupType_eq (type1 type2 : GroupType) : bool :=
  (number type1 =? number type2)
  && (Version_int (version type1) =? Version_int (version type2)).

Definition GroupType_lt (type1 type2 : GroupType) : bool :=
  (number type1 <? number type2)
  || ((number type1 =? number type2)
      && (Version_int (version type1) <? Version_int (version type2))).

(** [Group::getNumErrors]. *)
Definition getNumErrors (g : Group) : Z :=
  fold_left
    (fun (a : Z) (b : Block) =>
       a + (if had_errors b || negb (is_received b) then 1 else 0))
    (blocks_ g) 0.

(** The calls of [groups.cc] that change the blocks, the type or the
    flags of a [Group], and a group put together by a sequence of
    them. *)
Inductive GroupOp : Set :=
  | OpSetBlock (block_num : eBlockNumber) (block : Block)
  | OpDisableOffsets.

Definition applyOp (g : Group) (op : GroupOp) : Group :=
  match op with
  | OpSetBlock block_num block => setBlock block_num block g
  | OpDisableOffsets => disableOffsets g
  end.

Definition assemble (ops : list GroupOp) (g : Group) : Group :=
  fold_left applyOp ops g.

Definition sets_block2 (op : GroupOp) : bool :=
  match op with
  | OpSetBlock BLOCK2 _ => true
  | _ => false
  end.

(* ===================================================================== *)
(** * groups.cc: the decoder a typed group is handed to *)
(* ===================================================================== *)

(** The chain of tests on [type.number] and [type.version] in
    [Station::updateAndPrint], in the order of the source.
    [oda_registered] is [oda_app_for_group_.count(type) > 0]; the branch
    of type 8A is the call of [tmc_.receiveUserGroup], which is compiled
    in with [ENABLE_TMC]. *)
Inductive Decoder : Set :=
  | decodeType0 | decodeType1 | decodeType2 | decodeType3A | decodeType4A
  | decodeType10A | decodeType14 | decodeType15B | decodeODAGroup
  | decodeType5 | decodeType6 | decodeType7A | receiveUserGroup
  | decodeType9A.

Definition is_type (type : GroupType) (n : Z) (v : Version) : bool :=
  (number type =? n) && bool_decide (version type = v).

Definition dispatch (type : GroupType) (oda_registered : bool) : Decoder :=
  if number type =? 0 then decodeType0
  else if number type =? 1 then decodeType1
  else if number type =? 2 then decodeType2
  else if is_type type 3 VersionA then decodeType3A
  else if is_type type 4 VersionA then decodeType4A
  else if is_type type 10 VersionA then decodeType10A
  else if number type =? 14 then decodeType14
  else if is_type type 15 VersionB then decodeType15B
  else if oda_registered then decodeODAGroup
  else if number type =? 5 then decodeType5
  else if number type =? 6 then decodeType6
  else if is_type type 7 VersionA then decodeType7A
  else if is_type type 8 VersionA then receiveUserGroup
  else if is_type type 9 VersionA then decodeType9A
  else decodeODAGroup.

(** The table in the comment above the chain: per version, one mark for
    each type number 0..15.  [-] cannot be used for ODA, [o] can be used
    for ODA, [O] is ODA only. *)
Definition oda_table (v : Version) : string :=
  match v with
  | VersionA => "-----ooooo-OOo--"
  | VersionB => "---OOooOOOOOOO--"
  end.

Definition oda_mark (type : GroupType) : option ascii :=
  String.get (Z.to_nat (number type)) (oda_table (version type)).

(* ===================================================================== *)
(** * tmc.cc: bit fields of a TMC message *)
(* ===================================================================== *)

(** [popBits].  The [std::deque<int>] is a list, front first.
    [bit_deque.at(0)] throws on an empty deque: [None]. *)
Fixpoint popBits_loop (n : nat) (result : Z) (bit_deque : list Z)
    : option (Z * list Z) :=
  match n with
  | O => Some (result, bit_deque)
  | S n' =>
      match bit_deque with
      | [] => None
      | bit :: rest =>
          popBits_loop n' (uint16_t (Z.lor (Z.shiftl result 1) bit)) rest
      end
  end.

Definition popBits (bit_deque : list Z) (len : Z) : option (Z * list Z) :=
  if len <=? Z.of_nat (length bit_deque)
  then popBits_loop (Z.to_nat len) 0 bit_deque
  else Some (0, bit_deque).

(** The bits of a field as [getFreeformFields] appends them to the
    deque: [(data >> (len - 1 - b)) & 0x1] for [b = 0 .. len - 1]. *)
Definition field_bits (len : nat) (data : Z) : list Z :=
  map (fun b : nat => Z.land (Z.shiftr data (Z.of_nat (len - 1 - b))) 0x1)
      (seq 0 len).

(** The loop [while (freeform_data_bits.size() > 4)] of
    [getFreeformFields], on the deque the first half of the function has
    filled.  [field_size.at(label)] throws for a label outside the
    vector. *)
Definition field_size : list Z :=
  [3; 3; 5; 5; 5; 8; 8; 8; 8; 11; 16; 16; 16; 16; 0; 0].

Inductive Outcome (T : Type) : Type :=
  | Returned (value : T)
  | Thrown
  | OutOfFuel.

Arguments Returned {T} _.
Arguments Thrown {T}.
Arguments OutOfFuel {T}.

Fixpoint decodeFreeform (fuel : nat) (freeform_data_bits : list Z)
    (result : list (Z * Z)) : Outcome (list (Z * Z)) :=
  match fuel with
  | O => OutOfFuel
  | S fuel' =>
      if 4 <? Z.of_nat (length freeform_data_bits) then
        match popBits freeform_data_bits 4 with
        | None => Thrown
        | Some (label, bits1) =>
            match field_size !! Z.to_nat label with
            | None => Thrown
            | Some size =>
                if Z.of_nat (length bits1) <? size then Returned result
                else
                  match popBits bits1 size with
                  | None => Thrown
                  | Some (field_data, bits2) =>
                      decodeFreeform fuel' bits2
                        (result ++ [(label, field_data)])
                  end
            end
        end
      else Returned result
  end.

(** A sequence of fields written out as bits: four label bits and the
    data bits of each field. *)
Definition field_size_of (label : Z) : Z :=
  field_size !!! Z.to_nat label.

Fixpoint freeform_bits (fields : list (Z * Z)) : list Z :=
  match fields with
  | [] => []
  | (label, field_data) :: rest =>
      field_bits 4 label
      ++ field_bits (Z.to_nat (field_size_of label)) field_data
      ++ freeform_bits rest
  end.

Definition is_field (f : Z * Z) : Prop :=
  0 <= fst f < 16 /\ 0 <= snd f < 2 ^ field_size_of (fst f).

(** A deque of bits. *)
Definition is_bit (b : Z) : Prop := 0 <= b <= 1.

(* ===================================================================== *)
(** * tmc.cc: times of day *)
(* ===================================================================== *)

(** [std::snprintf(t, n, ...)] followed by [time_string = t]: at most
    [n - 1] characters of the formatted text are kept. *)
Definition snprintf (n : nat) (text : string) : string :=
  String.substring 0 (n - 1) text.

(** [%d] and [%02d] for a number that is not negative. *)
Definition format_d (n : Z) : string :=
  digits_loop 64 10 false n EmptyString.

Definition format_02d (n : Z) : string :=
  String.append
    (string_repeat "0"%char (2 - String.length (format_d n)))
    (format_d n).

Definition month_names : list string :=
  ["Jan"; "Feb"; "Mar"; "Apr"; "May"; "Jun";
   "Jul"; "Aug"; "Sep"; "Oct"; "Nov"; "Dec"]%string.

(** [timeString], with the way a formatted text is stored in its buffer
    as a parameter. *)
Definition timeString_with (store : nat -> string -> string) (field_data : Z)
    : string :=
  if field_data <=? 95 then
    store 6%nat
      (String.append (format_02d (Z.quot field_data 4))
         (String.append ":" (format_02d (15 * Z.rem field_data 4))))
  else if field_data <=? 200 then
    let days := Z.quot (field_data - 96) 24 in
    let hour := Z.rem (field_data - 96) 24 in
    if days =? 0 then
      store 25%nat
        (String.append "at " (String.append (format_02d hour) ":00"))
    else if days =? 1 then
      store 25%nat
        (String.append "after 1 day at "
           (String.append (format_02d hour) ":00"))
    else
      store 25%nat
        (String.append "after "
           (String.append (format_d days)
              (String.append " days at "
                 (String.append (format_02d hour) ":00"))))
  else if field_data <=? 231 then
    store 20%nat
      (String.append "day "
         (String.append (format_d (field_data - 200)) " of the month"))
  else
    let mo := Z.quot (field_data - 232) 2 in
    let end_mid := negb (Z.rem (field_data - 232) 2 =? 0) in
    if mo <? 12 then
      String.append (if end_mid then "end of " else "mid-")
        (nth (Z.to_nat mo) month_names EmptyString)
    else EmptyString.

Definition timeString (field_data : Z) : string :=
  timeString_with snprintf field_data.

(** The text the format strings spell, whatever the buffers hold. *)
Definition timeString_text (field_data : Z) : string :=
  timeString_with (fun _ text => text) field_data.

(* ===================================================================== *)
(** * More vocabulary for the block stream *)
(* ===================================================================== *)

(** The pairs (offset of an error-free block, expected offset) for which
    the syndromes of the two offset words differ by the syndrome of a
    burst pattern. *)
Definition relabelled_pairs : list (Offset * Offset) :=
  [ (A, B); (A, D); (B, A); (B, Cprime);
    (C, D); (Cprime, B); (D, A); (D, C) ].

(** The block that an in-sync stream awaiting [expected] files for the
    block word [w]: an error-free block as it is, an errored block with
    the information word of the corrected bits, and nothing when the
    correction fails. *)
Definition filed_block (expected : Offset) (w : Z) : option Block :=
  let block_raw := Z.land w kBlockBitmask in
  if errored expected w then
    let correction :=
      correctBurstErrors
        {| raw := block_raw;
           data := uint16_t (Z.shiftr block_raw kCheckwordLength);
           is_received := false; had_errors := true;
           offset := observed_offset w |}
        (slot_offset expected w) in
    if succeeded correction then
      Some {| raw := block_raw;
              data := uint16_t (Z.shiftr (corrected_bits correction)
                                         kCheckwordLength);
              is_received := true; had_errors := true;
              offset := slot_offset expected w |}
    else None
  else
    Some {| raw := block_raw;
            data := uint16_t (Z.shiftr block_raw kCheckwordLength);
            is_received := true; had_errors := false;
            offset := observed_offset w |}.

(** The group under assembly after the block slot. *)
Definition group_after_slot (expected : Offset) (w : Z) (g : Group) : Group :=
  match filed_block expected w with
  | Some blk =>
      setBlock (getBlockNumberForOffset (slot_offset expected w)) blk g
  | None => g
  end.

(** The countdown to the next block search: between 1 and 26, and 1
    whenever the stream is out of sync. *)
Definition countdown_ok (bs : BlockStream) : Prop :=
  1 <= num_bits_until_next_block_ bs <= kBlockLength
  /\ (is_in_sync_ bs = false -> num_bits_until_next_block_ bs = 1).

(** A run of pulses pushed into a sync-pulse buffer. *)
Definition SyncPulseBuffer_push_all (ps : list SyncPulse)
    (pulses : SyncPulseBuffer) : SyncPulseBuffer :=
  fold_left (fun buf p =>
               SyncPulseBuffer_push buf (pulse_offset p) (pulse_bitcount p))
            ps pulses.

(** The search for sync at one bit position of an out-of-sync stream:
    the process after the label [block_offset] of the register has been
    looked at, and whether the sync pulses now form a sequence. *)
Definition pulse_taken (p : Process) (block_offset : Offset) (bitcount : Z)
    : Process :=
  if bool_decide (block_offset = invalid) then p
  else {| sync_buffer :=
            SyncPulseBuffer_push (sync_buffer p) block_offset bitcount |}.

Definition sync_found (p : Process) (block_offset : Offset) (bitcount : Z)
    : bool :=
  negb (bool_decide (block_offset = invalid))
  && isSequenceFound (sync_buffer (pulse_taken p block_offset bitcount)).

(** An in-sync stream at a block boundary that awaits [expected] and has
    no block of the group yet. *)
Definition stream_awaiting (expected : Offset) : BlockStream :=
  {| bitcount_ := 0;
     num_bits_until_next_block_ := kBlockLength;
     input_register_ := 0;
     expected_offset_ := expected;
     is_in_sync_ := true;
     block_error_sum50_ := RunningSum_new 50;
     current_group_ := Group_new;
     ready_group_ := Group_new;
     has_group_ready_ := false;
     num_bits_since_sync_lost_ := 0 |}.


(** The process and the stream one bit before sync: block A and the
    first 25 bits of block B, both with an all-zero information word,
    have been pushed into a new stream of a new program. *)
Definition process_after_block_A : Process :=
  {| sync_buffer := [SyncPulse_default; SyncPulse_default;
                     SyncPulse_default; mkSyncPulse A 26] |}.

Definition stream_before_sync : BlockStream :=
  {| bitcount_ := 51;
     num_bits_until_next_block_ := 1;
     input_register_ := 0xF80000CC;
     expected_offset_ := A;
     is_in_sync_ := false;
     block_error_sum50_ := RunningSum_new 50;
     current_group_ := Group_new;
     ready_group_ := Group_new;
     has_group_ready_ := false;
     num_bits_since_sync_lost_ := 51 |}.

(** Membership in a list that is written out. *)
Ltac solve_elem_of :=
  repeat first [apply list_elem_of_here | apply list_elem_of_further].

(* ===================================================================== *)
(** * Syndromes of the offset words *)
(* ===================================================================== *)

(** C2.  The syndrome of each of the five offset words of the source is
    the value the specification lists for that offset;
    [getOffsetForSyndrome] maps each listed syndrome back to its offset,
    and maps every other value to [invalid]. *)
Theorem offset_word_syndromes :
  map (fun ow => (fst ow, calculateSyndrome (snd ow))) offset_words
    = listed_syndromes
  /\ map (fun os => getOffsetForSyndrome (snd os)) listed_syndromes
    = map fst listed_syndromes
  /\ forall syndrome : Z,
       syndrome ∉ map snd listed_syndromes ->
       getOffsetForSyndrome syndrome = invalid.
Proof.
  split; [reflexivity | split; [reflexivity |]].
  intros s Hs. unfold getOffsetForSyndrome.
  repeat match goal with
  | |- context [?a =? ?b] =>
      destruct (Z.eqb_spec a b) as [-> | _];
        [exfalso; apply Hs; cbn; solve_elem_of |]
  end.
  reflexivity.
Qed.

Lemma offset_word_syndromes_witness : getOffsetForSyndrome 0 = invalid.
Proof.
  apply (proj2 (proj2 offset_word_syndromes)).
  cbn. intros Hin. apply list_elem_of_In in Hin. cbn in Hin. lia.
Defined.

(* ===================================================================== *)
(** * Linearity of the syndrome *)
(* ===================================================================== *)

Lemma land_1_bit (x : Z) : Z.land x 1 = 0 \/ Z.land x 1 = 1.
Proof.
  change 1 with (Z.ones 1) at 1 2. rewrite Z.land_ones by lia.
  pose proof (Z.mod_pos_bound x (2 ^ 1) ltac:(lia)). lia.
Qed.

Lemma bit_lxor (a b k : Z) :
  Z.land (Z.shiftr (Z.lxor a b) k) 1
  = Z.lxor (Z.land (Z.shiftr a k) 1) (Z.land (Z.shiftr b k) 1).
Proof.
  rewrite Z.shiftr_lxor. apply Z.bits_inj'. intros n Hn.
  rewrite !Z.lxor_spec, !Z.land_spec, !Z.lxor_spec.
  destruct (Z.testbit 1 n); rewrite ?andb_true_r, ?andb_false_r; reflexivity.
Qed.

Lemma syndrome_step_lxor a b r1 r2 k :
  syndrome_step (Z.lxor a b) (Z.lxor r1 r2) k
  = Z.lxor (syndrome_step a r1 k) (syndrome_step b r2 k).
Proof.
  unfold syndrome_step. rewrite bit_lxor.
  set (h := nth _ _ _).
  destruct (land_1_bit (Z.shiftr a (Z.of_nat k))) as [-> | ->],
           (land_1_bit (Z.shiftr b (Z.of_nat k))) as [-> | ->];
    cbn [Z.lxor]; rewrite ?Z.mul_0_r, ?Z.mul_1_r, ?Z.lxor_0_r.
  - reflexivity.
  - rewrite Z.lxor_assoc. reflexivity.
  - rewrite !Z.lxor_assoc. f_equal. apply Z.lxor_comm.
  - rewrite Z.lxor_assoc, (Z.lxor_comm r2 h), <- (Z.lxor_assoc h h r2).
    rewrite Z.lxor_nilpotent, Z.lxor_0_l. reflexivity.
Qed.

Lemma syndrome_fold_lxor a b ks : forall r1 r2,
  fold_left (syndrome_step (Z.lxor a b)) ks (Z.lxor r1 r2)
  = Z.lxor (fold_left (syndrome_step a) ks r1)
           (fold_left (syndrome_step b) ks r2).
Proof.
  induction ks as [| k ks IH]; intros r1 r2; cbn [fold_left].
  - reflexivity.
  - rewrite syndrome_step_lxor. apply IH.
Qed.

Lemma calculateSyndrome_lxor a b :
  calculateSyndrome (Z.lxor a b)
  = Z.lxor (calculateSyndrome a) (calculateSyndrome b).
Proof.
  unfold calculateSyndrome.
  rewrite <- syndrome_fold_lxor. reflexivity.
Qed.

(* ===================================================================== *)
(** * Burst-error correction *)
(* ===================================================================== *)

Lemma is_burst_error_listed E : is_burst_error E -> E ∈ burst_errors.
Proof.
  intros [shift [[Hlt ->] | [Hlt ->]]]; unfold burst_errors;
    apply list_elem_of_In, in_or_app; [left | right];
    apply in_map_iff; exists shift; (split; [reflexivity | apply in_seq; lia]).
Qed.

(** Every burst pattern is found again under the key its syndrome and
    offset form: no two patterns of one offset share a syndrome. *)
Lemma error_lookup_table_complete :
  Forall (fun E =>
    Forall (fun ow : Offset * Z =>
      error_lookup_table
        !! (uint16_t (calculateSyndrome (Z.lxor E (snd ow))), fst ow)
      = Some E) offset_words) burst_errors.
Proof. apply (bool_decide_unpack _). vm_compute. exact I. Qed.

(** The offset words occupy the ten checkword bits only. *)
Lemma offset_word_below_data (O : Offset) (w : Z) :
  (O, w) ∈ offset_words -> Z.shiftr w kCheckwordLength = 0.
Proof.
  intros HO. apply list_elem_of_In in HO. cbn in HO.
  repeat (destruct HO as [HO | HO]; [injection HO as _ <-; reflexivity |]).
  destruct HO.
Qed.

(** C1.  A valid block word (codeword xor offset word of [O]) hit by a
    single-bit or two-adjacent-bit error is repaired by
    [correctBurstErrors] when the expected offset is [O]: the call
    succeeds, the corrected bits are the valid word, and shifted right by
    the checkword length they are the original 16-bit information field,
    that of the valid word and of the codeword alike. *)
Theorem correctBurstErrors_recovers
    (c E w : Z) (O : Offset) (block : Block) :
  is_codeword c ->
  (O, w) ∈ offset_words ->
  is_burst_error E ->
  raw block = Z.lxor (Z.lxor c w) E ->
  let result := correctBurstErrors block O in
  succeeded result = true
  /\ corrected_bits result = Z.lxor c w
  /\ Z.shiftr (corrected_bits result) kCheckwordLength
     = Z.shiftr (Z.lxor c w) kCheckwordLength
  /\ Z.shiftr (corrected_bits result) kCheckwordLength
     = Z.shiftr c kCheckwordLength.
Proof.
  intros [_ Hc] HO HE Hraw.
  assert (Hkey : error_lookup_table
                   !! (uint16_t (calculateSyndrome (raw block)), O) = Some E).
  { pose proof error_lookup_table_complete as Hall.
    rewrite Forall_forall in Hall.
    apply list_elem_of_In in HO.
    pose proof (proj1 (list_elem_of_In _ _) (is_burst_error_listed E HE)) as HEin.
    specialize (Hall E HEin).
    rewrite Forall_forall in Hall. specialize (Hall (O, w) HO). cbn [fst snd] in Hall.
    assert (Hsyn : calculateSyndrome (raw block)
                   = calculateSyndrome (Z.lxor E w)).
    { rewrite Hraw, !calculateSyndrome_lxor, Hc, Z.lxor_0_l.
      apply Z.lxor_comm. }
    rewrite Hsyn. exact Hall. }
  cbv zeta. unfold correctBurstErrors. rewrite Hkey.
  cbn [succeeded corrected_bits].
  assert (Hfix : Z.lxor (raw block) E = Z.lxor c w).
  { rewrite Hraw, Z.lxor_assoc, Z.lxor_nilpotent, Z.lxor_0_r. reflexivity. }
  rewrite Hfix. repeat split.
  rewrite Z.shiftr_lxor, (offset_word_below_data O w HO). apply Z.lxor_0_r.
Qed.

Lemma correctBurstErrors_recovers_witness :
  let block := {| raw := Z.lxor (Z.lxor 0x3890BC2 0x198) 0x6000; data := 0;
                  is_received := false; had_errors := true;
                  offset := invalid |} in
  succeeded (correctBurstErrors block B) = true
  /\ corrected_bits (correctBurstErrors block B) = Z.lxor 0x3890BC2 0x198
  /\ Z.shiftr (corrected_bits (correctBurstErrors block B)) kCheckwordLength
     = Z.shiftr (Z.lxor 0x3890BC2 0x198) kCheckwordLength
  /\ Z.shiftr (corrected_bits (correctBurstErrors block B)) kCheckwordLength
     = Z.shiftr 0x3890BC2 kCheckwordLength.
Proof.
  intros block.
  apply (correctBurstErrors_recovers 0x3890BC2 0x6000 0x198 B block).
  - split; [lia | reflexivity].
  - unfold offset_words. solve_elem_of.
  - exists 13%nat. right. split; [lia | reflexivity].
  - reflexivity.
Defined.

(* ===================================================================== *)
(** * The sequence test of the sync-pulse buffer *)
(* ===================================================================== *)

Lemma sequence_found_at_anchors (pulses : SyncPulseBuffer) (i : nat) :
  sequence_found_at pulses i = true <-> anchors (pulses !!! i) (back pulses).
Proof.
  unfold sequence_found_at, anchors, kBlockLength.
  set (d := pulse_bitcount (back pulses) - pulse_bitcount (pulses !!! i)).
  rewrite !andb_true_iff, negb_true_iff, bool_decide_eq_false,
    !Z.eqb_eq, Z.leb_le.
  split.
  - intros [[[Hrem Hq] Hoff] Hbn].
    exists (Z.quot d 26). repeat split; try assumption.
    pose proof (Z.quot_rem' d 26). lia.
  - intros (q & Hd & Hq & Hoff & Hbn).
    assert (Hquot : Z.quot d 26 = q).
    { rewrite Hd, Z.mul_comm. apply Z.quot_mul. lia. }
    assert (Hrem : Z.rem d 26 = 0).
    { rewrite Hd, Z.mul_comm. apply Z.rem_mul. lia. }
    rewrite Hquot. auto.
Qed.

Lemma isSequenceFound_loop_exists (pulses : SyncPulseBuffer) (indices : list nat) :
  isSequenceFound_loop pulses indices = true
  <-> exists i, In i indices /\ sequence_found_at pulses i = true.
Proof.
  induction indices as [| k rest IH]; cbn [isSequenceFound_loop].
  - split; [discriminate | intros (i & [] & _)].
  - destruct (sequence_found_at pulses k) eqn:Hk.
    + split; [intros _; exists k; split; [left; reflexivity | exact Hk] | auto].
    + rewrite IH. split.
      * intros (i & Hi & Hf). exists i. split; [right; exact Hi | exact Hf].
      * intros (i & [-> | Hi] & Hf); [congruence | exists i; auto].
Qed.

(** With distances that are not negative, as in a buffer filled in push
    order by one stream, the quotient and remainder of C++ are the
    mathematical ones. *)
Lemma anchors_push_order (p latest : SyncPulse) :
  pulse_bitcount p <= pulse_bitcount latest ->
  anchors p latest <->
  let d := pulse_bitcount latest - pulse_bitcount p in
  d mod 26 = 0 /\ d / 26 <= 6 /\ pulse_offset p <> invalid
  /\ (block_int (getBlockNumberForOffset (pulse_offset p)) + d / 26) mod 4
     = block_int (getBlockNumberForOffset (pulse_offset latest)).
Proof.
  intros Hle. unfold anchors, kBlockLength. cbv zeta.
  set (d := pulse_bitcount latest - pulse_bitcount p).
  assert (Hd : 0 <= d) by (unfold d; lia).
  assert (Hbn : 0 <= block_int (getBlockNumberForOffset (pulse_offset p)))
    by (unfold block_int; lia).
  split.
  - intros (q & Hq & Hle6 & Hoff & Hrem).
    assert (Hdiv : d / 26 = q) by (rewrite Hq, Z.mul_comm; apply Z.div_mul; lia).
    rewrite Hdiv. repeat split; try assumption.
    + rewrite Hq, Z.mul_comm. apply Z.mod_mul. lia.
    + rewrite <- Hrem. symmetry. apply Z.rem_mod_nonneg; lia.
  - intros (Hmod & Hle6 & Hoff & Hrem).
    exists (d / 26). repeat split; try assumption.
    + pose proof (Z.div_mod d 26 ltac:(lia)). lia.
    + rewrite <- Hrem. apply Z.rem_mod_nonneg; [| lia].
      pose proof (Z.div_pos d 26 Hd ltac:(lia)). lia.
Qed.

Lemma anchors_in_push_order (p latest : SyncPulse) :
  pulse_bitcount p <= pulse_bitcount latest ->
  anchors p latest <-> anchors_as_specified p latest.
Proof.
  intros Hle. unfold anchors, anchors_as_specified, kBlockLength.
  assert (Hbn : 0 <= block_int (getBlockNumberForOffset (pulse_offset p)))
    by (unfold block_int; lia).
  split; intros (q & Hd & Hq & Hoff & Hrem); exists q;
    (repeat split; [exact Hd | exact Hq | exact Hoff |]).
  - rewrite <- Hrem. symmetry. apply Z.rem_mod_nonneg; lia.
  - rewrite <- Hrem. apply Z.rem_mod_nonneg; lia.
Qed.




(* ===================================================================== *)
(** * Groups: PI and type detection *)
(* ===================================================================== *)

(** C7.  [hasPI] holds exactly when the slot-1 block is received, or the
    slot-3 block is received and its offset is C'. *)
Theorem hasPI_iff (g : Group) :
  hasPI g = true
  <-> is_received (block_at g BLOCK1) = true
      \/ (is_received (block_at g BLOCK3) = true
          /\ offset (block_at g BLOCK3) = Cprime).
Proof.
  unfold hasPI.
  rewrite orb_true_iff, andb_true_iff, bool_decide_eq_true. reflexivity.
Qed.

(** C9.  When [hasPI] is false [getPI] returns 0x0000; otherwise it
    returns the data of block 1 if block 1 is received, and the data of
    block 3 if not. *)
Theorem getPI_cases (g : Group) :
  (hasPI g = false -> getPI g = 0x0000)
  /\ (hasPI g = true ->
      getPI g = if is_received (block_at g BLOCK1)
                then data (block_at g BLOCK1)
                else data (block_at g BLOCK3)).
Proof.
  unfold hasPI, getPI.
  destruct (is_received (block_at g BLOCK1)); cbn [orb];
    destruct (is_received (block_at g BLOCK3)
              && bool_decide (offset (block_at g BLOCK3) = Cprime));
    split; intros H; try reflexivity; discriminate H.
Qed.

Lemma getPI_cases_witness :
  getPI Group_new = 0x0000
  /\ getPI (setBlock BLOCK3 (received_block 0xE242 Cprime) Group_new) = 0xE242.
Proof.
  split.
  - apply (proj1 (getPI_cases Group_new)). reflexivity.
  - rewrite (proj2 (getPI_cases
               (setBlock BLOCK3 (received_block 0xE242 Cprime) Group_new)));
      reflexivity.
Defined.

Lemma has_setBlock_other (g : Group) (n m : eBlockNumber) (b : Block) :
  n <> m -> has (setBlock n b g) m = has g m.
Proof.
  intros Hne. unfold has, block_at.
  assert (Hidx : block_index n <> block_index m)
    by (destruct n, m; cbn; congruence).
  assert (Hblocks : blocks_ (setBlock n b g) = <[block_index n := b]> (blocks_ g)).
  { unfold setBlock. repeat case_match; reflexivity. }
  rewrite Hblocks, list_lookup_total_insert_ne by exact Hidx. reflexivity.
Qed.

(** C6, as the code has it.  In a group whose block 2 is received,
    installing a C' block in another slot sets [has_type] to "the type is
    of version B": true for a version-B group, false for a version-A
    group.  In slots 1 and 3 the type itself is left as it was. *)
Theorem setBlock_Cprime_after_block2
    (g : Group) (block_num : eBlockNumber) (block : Block) :
  has g BLOCK2 = true ->
  offset block = Cprime ->
  block_num <> BLOCK2 ->
  let g' := setBlock block_num block g in
  hasType g' = bool_decide (version (getType g') = VersionB)
  /\ (block_num <> BLOCK4 -> getType g' = getType g).
Proof.
  intros Hhas Hoff Hne g'. unfold g', setBlock, hasType, getType.
  set (g1 := set_blocks g (<[block_index block_num := block]> (blocks_ g))).
  set (g2 := match block_num with BLOCK2 => _ | BLOCK4 => _ | _ => g1 end).
  assert (Hblocks : blocks_ g2 = blocks_ g1)
    by (unfold g2; destruct block_num; repeat case_match; reflexivity).
  assert (Hhas2 : has g2 BLOCK2 = true).
  { unfold has, block_at. rewrite Hblocks. unfold g1. cbn [set_blocks blocks_].
    rewrite list_lookup_total_insert_ne; [exact Hhas |].
    destruct block_num; cbn; congruence. }
  rewrite Hoff, bool_decide_true, Hhas2 by reflexivity.
  cbn [andb set_type type_ has_type_].
  split; [reflexivity |].
  intros Hne4. unfold g2. destruct block_num; try congruence; reflexivity.
Qed.

Lemma setBlock_Cprime_after_block2_witness :
  let g := setBlock BLOCK2 (received_block 0x0800 B) Group_new in
  let g' := setBlock BLOCK3 (received_block 0xE242 Cprime) g in
  hasType g' = bool_decide (version (getType g') = VersionB)
  /\ (BLOCK3 <> BLOCK4 -> getType g' = getType g).
Proof.
  intros g.
  apply (setBlock_Cprime_after_block2 g BLOCK3 (received_block 0xE242 Cprime)).
  - reflexivity.
  - reflexivity.
  - discriminate.
Defined.

(** C6, as stated, fails: a version-A group with block 2 installed has
    [has_type] set; installing a C' block in slot 3 clears it. *)
Lemma setBlock_Cprime_versionA_changes_has_type :
  let g := setBlock BLOCK2 (received_block 0x0000 B) Group_new in
  let g' := setBlock BLOCK3 (received_block 0xE242 Cprime) g in
  has g BLOCK2 = true
  /\ version (getType g) = VersionA
  /\ hasType g = true
  /\ hasType g' = false.
Proof. repeat split. Qed.

(* ===================================================================== *)
(** * Hex serialisation of a group *)
(* ===================================================================== *)

Lemma string_append_assoc (a b c : string) :
  String.append (String.append a b) c = String.append a (String.append b c).
Proof.
  induction a as [| x a IH]; [reflexivity |].
  change (String x (String.append (String.append a b) c)
          = String x (String.append a (String.append b c))).
  now rewrite IH.
Qed.

Lemma string_append_empty_r (a : string) : String.append a EmptyString = a.
Proof.
  induction a as [| x a IH]; [reflexivity |].
  change (String x (String.append a EmptyString) = String x a).
  now rewrite IH.
Qed.

Lemma digit_char_nybble (n : Z) :
  0 <= n < 16 -> digit_char true n = nybble_char n.
Proof.
  intros [H0 H1]. rewrite <- (Z2Nat.id n H0).
  assert (Hk : (Z.to_nat n < 16)%nat) by lia.
  revert Hk. generalize (Z.to_nat n). intros k Hk.
  do 16 (destruct k as [| k]; [reflexivity |]). lia.
Qed.

Lemma digits_loop_step (fuel : nat) (radix : Z) (upper : bool) (n : Z)
    (acc : string) :
  digits_loop (S fuel) radix upper n acc
  = if n / radix =? 0 then String (digit_char upper (n mod radix)) acc
    else digits_loop fuel radix upper (n / radix)
           (String (digit_char upper (n mod radix)) acc).
Proof. reflexivity. Qed.

Lemma nybble_shift (d k : Z) :
  0 <= k -> Z.land (Z.shiftr d k) 0xF = (d / 2 ^ k) mod 16.
Proof.
  intros Hk. rewrite Z.shiftr_div_pow2 by exact Hk.
  change 0xF with (Z.ones 4). rewrite Z.land_ones by lia. reflexivity.
Qed.

(** The digits of a 16-bit number in upper-case hex, right-adjusted in a
    field of four with fill character 0, are its four nybbles. *)
Lemma hex_field_of_uint16 (d : Z) :
  0 <= d < 2 ^ 16 ->
  let digits := digits_loop 64 16 true d EmptyString in
  String.append (string_repeat "0"%char (4 - String.length digits)) digits
  = hex_word (received_block d invalid).
Proof.
  intros Hd. cbv zeta. unfold hex_word, received_block. cbn [is_received data].
  rewrite !nybble_shift by lia.
  replace (Z.land d 0xF) with (d mod 16)
    by (change 0xF with (Z.ones 4); rewrite Z.land_ones by lia; reflexivity).
  change (2 ^ 12) with (16 * 16 * 16). change (2 ^ 8) with (16 * 16).
  change (2 ^ 4) with 16.
  rewrite <- !Z.div_div by lia.
  set (q1 := d / 16). set (q2 := q1 / 16). set (q3 := q2 / 16).
  assert (Hq1 : 0 <= q1 < 4096) by (unfold q1; split;
    [apply Z.div_pos | apply Z.div_lt_upper_bound]; lia).
  assert (Hq2 : 0 <= q2 < 256) by (unfold q2; split;
    [apply Z.div_pos | apply Z.div_lt_upper_bound]; lia).
  assert (Hq3 : 0 <= q3 < 16) by (unfold q3; split;
    [apply Z.div_pos | apply Z.div_lt_upper_bound]; lia).
  assert (Hq4 : q3 / 16 = 0) by (apply Z.div_small; lia).
  rewrite <- !digit_char_nybble by (apply Z.mod_pos_bound; lia).
  rewrite digits_loop_step. fold q1.
  destruct (Z.eqb_spec q1 0) as [E1 | N1].
  { assert (E2 : q2 = 0) by (unfold q2; rewrite E1; reflexivity).
    assert (E3 : q3 = 0) by (unfold q3; rewrite E2; reflexivity).
    rewrite E1, E2, E3. reflexivity. }
  rewrite digits_loop_step. fold q2.
  destruct (Z.eqb_spec q2 0) as [E2 | N2].
  { assert (E3 : q3 = 0) by (unfold q3; rewrite E2; reflexivity).
    rewrite E2, E3. reflexivity. }
  rewrite digits_loop_step. fold q3.
  destruct (Z.eqb_spec q3 0) as [E3 | N3].
  { rewrite E3. reflexivity. }
  rewrite digits_loop_step, Hq4. reflexivity.
Qed.

Lemma printHex_block_written (g : Group) (s : ostream) (n : eBlockNumber) :
  hex_ready s ->
  (is_received (block_at g n) = true -> 0 <= data (block_at g n) < 2 ^ 16) ->
  hex_ready (printHex_block g s n)
  /\ written (printHex_block g s n)
     = String.append (written s)
         (String.append (hex_word (block_at g n))
            (if bool_decide (n <> BLOCK4) then " "%string else EmptyString)).
Proof.
  intros (Hfill & Hup & Hw) Hdata. unfold printHex_block, hex_word.
  destruct (is_received (block_at g n)) eqn:Hrec.
  - specialize (Hdata eq_refl).
    pose proof (hex_field_of_uint16 _ Hdata) as Hhex. cbv zeta in Hhex.
    unfold hex_word, received_block in Hhex. cbn [is_received data] in Hhex.
    unfold ostream_put_unsigned, ostream_put, ostream_setw, ostream_hex.
    cbn [fill_char uppercase base width written radix_of].
    rewrite Hfill, Hup, Hhex.
    destruct (bool_decide (n <> BLOCK4));
      cbn [fill_char uppercase base width written];
      (split; [repeat split; assumption |]).
    + cbn [String.length Nat.sub string_repeat].
      rewrite string_append_assoc. reflexivity.
    + rewrite string_append_empty_r. reflexivity.
  - unfold ostream_put. cbn [fill_char uppercase base width written].
    rewrite Hw.
    destruct (bool_decide (n <> BLOCK4));
      cbn [fill_char uppercase base width written];
      (split; [repeat split; assumption |]).
    + cbn [String.length Nat.sub string_repeat].
      rewrite string_append_assoc. reflexivity.
    + reflexivity.
Qed.

(** C8.  On a stream with no pending field width, [printHex] appends
    exactly four words separated by single spaces; the word of a received
    block is its 16-bit data as four upper-case hex nybbles (zero-padded),
    the word of a block that is not received is "----", and every word
    has four characters.  The group with blocks 1, 2 and 4 received
    (0xE242, 0x0000, 0x2020) and block 3 missing is written as
    "E242 0000 ---- 2020". *)
Theorem printHex_four_words :
  (forall (g : Group) (stream : ostream),
     width stream = 0%nat ->
     (forall n, is_received (block_at g n) = true ->
                0 <= data (block_at g n) < 2 ^ 16) ->
     written (printHex g stream)
     = String.append (written stream)
         (String.append (hex_word (block_at g BLOCK1))
         (String.append " "
         (String.append (hex_word (block_at g BLOCK2))
         (String.append " "
         (String.append (hex_word (block_at g BLOCK3))
         (String.append " "
                        (hex_word (block_at g BLOCK4))))))))
     /\ forall n, String.length (hex_word (block_at g n)) = 4%nat)
  /\ written (printHex group_E242 stringstream_new)
     = "E242 0000 ---- 2020"%string.
Proof.
  split; [| reflexivity].
  intros g stream Hw Hdata. split.
  - unfold printHex. cbn [fold_left].
    set (s0 := ostream_setf_uppercase (ostream_fill "0"%char stream)).
    assert (H0 : hex_ready s0) by (repeat split; exact Hw).
    destruct (printHex_block_written g s0 BLOCK1 H0 (Hdata _)) as [H1 E1].
    destruct (printHex_block_written g _ BLOCK2 H1 (Hdata _)) as [H2 E2].
    destruct (printHex_block_written g _ BLOCK3 H2 (Hdata _)) as [H3 E3].
    destruct (printHex_block_written g _ BLOCK4 H3 (Hdata _)) as [_ E4].
    rewrite E4, E3, E2, E1.
    change (bool_decide (BLOCK1 <> BLOCK4)) with true.
    change (bool_decide (BLOCK2 <> BLOCK4)) with true.
    change (bool_decide (BLOCK3 <> BLOCK4)) with true.
    change (bool_decide (BLOCK4 <> BLOCK4)) with false.
    change (written s0) with (written stream).
    rewrite string_append_empty_r, !string_append_assoc. reflexivity.
  - intros n. unfold hex_word. destruct (is_received (block_at g n)); reflexivity.
Qed.

Lemma printHex_four_words_witness :
  written (printHex group_E242 stringstream_new)
  = String.append (written stringstream_new)
      (String.append (hex_word (block_at group_E242 BLOCK1))
      (String.append " "
      (String.append (hex_word (block_at group_E242 BLOCK2))
      (String.append " "
      (String.append (hex_word (block_at group_E242 BLOCK3))
      (String.append " "
                     (hex_word (block_at group_E242 BLOCK4)))))))).
Proof.
  apply (proj1 printHex_four_words group_E242 stringstream_new).
  - reflexivity.
  - intros n Hn.
    destruct n; try (vm_compute in Hn; discriminate Hn);
      vm_compute; (split; [intros H; discriminate H | reflexivity]).
Defined.

(* ===================================================================== *)
(** * The PI gate of a station *)
(* ===================================================================== *)

Lemma hasPI_not_empty (g : Group) : hasPI g = true -> isEmpty g = false.
Proof.
  unfold hasPI, isEmpty, has. intros H.
  destruct (is_received (block_at g BLOCK1)); [reflexivity |].
  destruct (is_received (block_at g BLOCK3)); [| discriminate H].
  cbn. rewrite orb_true_r. reflexivity.
Qed.

Section StationGate.

Variable DecoderState : Type.
Variable decode : Group -> DecoderState -> DecoderState * string.

Lemma decodeAndPrint_flags (g : Group) (st : Station DecoderState) out :
  has_pi_ (fst (decodeAndPrint decode g st out)) = has_pi_ st
  /\ last_group_had_pi_ (fst (decodeAndPrint decode g st out))
     = last_group_had_pi_ st.
Proof. unfold decodeAndPrint. destruct (decode g (decoder_ st)). auto. Qed.

(** After any call on a station with a PI, the flag records whether the
    group of that call had a PI. *)
Lemma updateAndPrint_flags (g : Group) (s : Station DecoderState * list string) :
  has_pi_ (fst s) = true ->
  has_pi_ (fst (updateAndPrint decode g s)) = true
  /\ last_group_had_pi_ (fst (updateAndPrint decode g s)) = hasPI g.
Proof.
  destruct s as [st out]. cbn [fst]. intros Hpi.
  unfold updateAndPrint. rewrite Hpi. cbn [negb].
  destruct (hasPI g) eqn:HPI.
  - rewrite (hasPI_not_empty g HPI).
    destruct (decodeAndPrint_flags g (set_last_group_had_pi st true) out)
      as [-> ->]. auto.
  - destruct (last_group_had_pi_ st) eqn:Hlast.
    + destruct (isEmpty g).
      * auto.
      * destruct (decodeAndPrint_flags g (set_last_group_had_pi st false) out)
          as [-> ->]. auto.
    + auto.
Qed.

Lemma updateAndPrint_all_has_pi (groups : list Group) :
  forall s : Station DecoderState * list string,
    has_pi_ (fst s) = true ->
    has_pi_ (fst (updateAndPrint_all decode groups s)) = true.
Proof.
  induction groups as [| g groups IH]; intros s Hpi; [exact Hpi |].
  apply IH, updateAndPrint_flags, Hpi.
Qed.

(** C10, as the code has it.  On a station constructed with a PI, after
    any sequence of calls: a group without PI that follows a group with
    PI is still decoded when it is not empty (an empty one only clears
    the flag and writes nothing); when two consecutive groups lack PI
    the second one writes nothing and changes no state; and a group
    that has PI is decoded whatever came before. *)
Theorem updateAndPrint_pi_gate
    (st : Station DecoderState) (out : list string)
    (history : list Group) (g_prev g : Group) :
  has_pi_ st = true ->
  let s1 := updateAndPrint decode g_prev
              (updateAndPrint_all decode history (st, out)) in
  (hasPI g_prev = true -> hasPI g = false -> isEmpty g = false ->
     updateAndPrint decode g s1
     = decodeAndPrint decode g (set_last_group_had_pi (fst s1) false) (snd s1))
  /\ (hasPI g_prev = true -> hasPI g = false -> isEmpty g = true ->
     updateAndPrint decode g s1
     = (set_last_group_had_pi (fst s1) false, snd s1))
  /\ (hasPI g_prev = false -> hasPI g = false ->
     updateAndPrint decode g s1 = s1)
  /\ (hasPI g = true ->
     updateAndPrint decode g s1
     = decodeAndPrint decode g (set_last_group_had_pi (fst s1) true) (snd s1)).
Proof.
  intros Hpi s1.
  destruct (updateAndPrint_flags g_prev
              (updateAndPrint_all decode history (st, out))
              (updateAndPrint_all_has_pi history (st, out) Hpi))
    as [Hpi1 Hlast1].
  fold s1 in Hpi1, Hlast1. destruct s1 as [st1 out1]. cbn [fst snd] in *.
  unfold updateAndPrint. rewrite Hpi1, Hlast1. cbn [negb].
  repeat split.
  - intros -> -> ->. reflexivity.
  - intros -> -> ->. reflexivity.
  - intros -> ->. reflexivity.
  - intros HPI. rewrite HPI, (hasPI_not_empty g HPI). reflexivity.
Qed.

End StationGate.

Lemma updateAndPrint_pi_gate_witness :
  let s1 := updateAndPrint counting_decoder group_E242 (station_E242, []) in
  updateAndPrint counting_decoder group_E242 s1
  = decodeAndPrint counting_decoder group_E242
      (set_last_group_had_pi (fst s1) true) (snd s1).
Proof.
  intros s1.
  apply (updateAndPrint_pi_gate nat counting_decoder station_E242 []
           [] group_E242 group_E242).
  - reflexivity.
  - reflexivity.
Defined.

(** C10, as stated, fails: the empty group has no PI and follows a group
    with PI, yet it is not decoded; the decoder state and the output stay
    as they were. *)
Lemma updateAndPrint_empty_group_not_decoded :
  let s1 := updateAndPrint counting_decoder group_E242 (station_E242, []) in
  let s2 := updateAndPrint counting_decoder Group_new s1 in
  hasPI group_E242 = true
  /\ hasPI Group_new = false
  /\ last_group_had_pi_ (fst s1) = true
  /\ decoder_ (fst s2) = decoder_ (fst s1)
  /\ snd s2 = snd s1
  /\ s2 <> decodeAndPrint counting_decoder Group_new
             (set_last_group_had_pi (fst s1) false) (snd s1).
Proof. repeat split. discriminate. Qed.

(* ===================================================================== *)
(** * Two streams in one program *)
(* ===================================================================== *)

(** C5 (two independently constructed streams fed the same bits deliver
    the same groups) does not hold of the code.  [acquireSync] keeps its
    sync pulses in a function-local static buffer, which every stream of
    the program uses.  Fed the error-free blocks A, B, C, D, the first stream
    acquires sync at block B and delivers a group without block 1; the
    second stream finds the pulses the first one left, acquires sync at
    block A and delivers the group with all four blocks. *)
Theorem feed_two_streams_differ :
  let '(groups1, groups2) := feed_two_streams bits_ABCD in
  map (fun g => map is_received (blocks_ g)) groups1
    = [[false; true; true; true]]
  /\ map (fun g => map is_received (blocks_ g)) groups2
    = [[true; true; true; true]]
  /\ groups1 <> groups2.
Proof. vm_compute. repeat split. discriminate. Qed.

(* ===================================================================== *)
(** * Loss of synchronisation *)
(* ===================================================================== *)

(** ** The running sum *)

Lemma fold_add_acc (l : list Z) : forall a,
  fold_left Z.add l a = a + fold_left Z.add l 0.
Proof.
  induction l as [| x l IH]; intros a; cbn [fold_left]; [lia |].
  rewrite (IH (a + x)), (IH (0 + x)). lia.
Qed.

Lemma sum_insert (l : list Z) : forall (i : nat) (v : Z),
  (i < length l)%nat ->
  fold_left Z.add (<[i := v]> l) 0 = fold_left Z.add l 0 - l !!! i + v.
Proof.
  induction l as [| x l IH]; intros i v Hi; cbn [length] in Hi; [lia |].
  destruct i as [| i].
  - change (<[0%nat := v]> (x :: l)) with (v :: l).
    change ((x :: l) !!! 0%nat) with x. cbn [fold_left].
    rewrite (fold_add_acc l (0 + v)), (fold_add_acc l (0 + x)). lia.
  - change (<[S i := v]> (x :: l)) with (x :: <[i := v]> l).
    change ((x :: l) !!! S i) with (l !!! i).
    cbn [fold_left]. rewrite (fold_add_acc _ (0 + x)), (fold_add_acc l (0 + x)).
    rewrite IH by lia. lia.
Qed.

Lemma sum_replicate_0 (n : nat) : fold_left Z.add (replicate n 0) 0 = 0.
Proof. induction n as [| n IH]; [reflexivity | exact IH]. Qed.

Lemma getSum_clear (s : RunningSum) : getSum (RunningSum_clear s) = 0.
Proof. apply sum_replicate_0. Qed.

Lemma getSum_push (s : RunningSum) (v : Z) :
  (pointer_ s < length (history_ s))%nat ->
  getSum (RunningSum_push s v) = getSum s - history_ s !!! pointer_ s + v.
Proof. intros Hp. apply sum_insert, Hp. Qed.

(** ** Shifting a block into the register *)

Lemma bits_value_acc (bits : list bool) : forall acc,
  bits_value bits acc = acc * 2 ^ Z.of_nat (length bits) + bits_value bits 0.
Proof.
  unfold bits_value.
  induction bits as [| b bits IH]; intros acc; cbn [fold_left length].
  - cbn. lia.
  - rewrite (IH (2 * acc + bool_to_Z b)), (IH (2 * 0 + bool_to_Z b)).
    rewrite Nat2Z.inj_succ, Z.pow_succ_r by lia. lia.
Qed.

Lemma bits_value_of_block (w : Z) (n : nat) :
  bits_value (map (fun k => Z.testbit w (Z.of_nat k)) (rev (seq 0 n))) 0
  = w mod 2 ^ Z.of_nat n.
Proof.
  induction n as [| n IH].
  - cbn. rewrite Z.mod_1_r. reflexivity.
  - rewrite seq_S, rev_app_distr. cbn [rev app map Nat.add].
    unfold bits_value in *. cbn [fold_left].
    fold (bits_value (map (fun k => Z.testbit w (Z.of_nat k)) (rev (seq 0 n)))
            (2 * 0 + bool_to_Z (Z.testbit w (Z.of_nat n)))).
    rewrite bits_value_acc. unfold bits_value. rewrite IH.
    rewrite length_map, length_rev, length_seq.
    rewrite Nat2Z.inj_succ, Z.pow_succ_r by lia.
    rewrite (Z.mul_comm 2 (2 ^ Z.of_nat n)), Z.rem_mul_r by lia.
    assert (Hbit : bool_to_Z (Z.testbit w (Z.of_nat n))
                   = (w / 2 ^ Z.of_nat n) mod 2).
    { rewrite <- Z.testbit_spec' by lia.
      destruct (Z.testbit w (Z.of_nat n)); reflexivity. }
    rewrite Hbit. lia.
Qed.

Lemma shift_in_bits_fields (bits : list bool) : forall bs,
  let bs' := shift_in_bits bits bs in
  is_in_sync_ bs' = is_in_sync_ bs
  /\ expected_offset_ bs' = expected_offset_ bs
  /\ block_error_sum50_ bs' = block_error_sum50_ bs
  /\ input_register_ bs' mod 2 ^ 26
     = bits_value bits (input_register_ bs) mod 2 ^ 26.
Proof.
  unfold shift_in_bits.
  induction bits as [| b bits IH]; intros bs; cbn [fold_left].
  - auto.
  - destruct (IH (shift_in b bs)) as (H1 & H2 & H3 & H4).
    cbv zeta. rewrite H1, H2, H3, H4. cbn [shift_in is_in_sync_
      expected_offset_ block_error_sum50_ input_register_].
    repeat split.
    unfold bits_value. cbn [fold_left].
    fold (bits_value bits (uint32_t (Z.shiftl (input_register_ bs) 1
                                     + bool_to_Z b))).
    fold (bits_value bits (2 * input_register_ bs + bool_to_Z b)).
    rewrite (bits_value_acc bits (uint32_t _)), (bits_value_acc bits (2 * _ + _)).
    rewrite Z.shiftl_mul_pow2 by lia. unfold uint32_t.
    set (x := input_register_ bs * 2 ^ 1 + bool_to_Z b).
    replace (2 * input_register_ bs + bool_to_Z b) with x by (unfold x; lia).
    set (m := 2 ^ Z.of_nat (length bits)).
    set (v := bits_value bits 0).
    rewrite <- (Z.add_mod_idemp_l (x mod 2 ^ 32 * m)) by lia.
    rewrite <- (Z.mul_mod_idemp_l (x mod 2 ^ 32)) by lia.
    change (2 ^ 32) with (2 ^ 26 * 2 ^ 6).
    rewrite Z.rem_mul_r by lia.
    rewrite (Z.mul_comm (2 ^ 26)), Z.mod_add by lia.
    rewrite Z.mod_mod by lia.
    rewrite Z.mul_mod_idemp_l, Z.add_mod_idemp_l by lia. reflexivity.
Qed.

Lemma pushBits_countdown (p : Process) (bits : list bool) : forall bs,
  bits <> [] ->
  num_bits_until_next_block_ bs = Z.of_nat (length bits) ->
  pushBits bits (p, bs)
  = let '(p', bs') := findBlockInInputRegister (p, shift_in_bits bits bs) in
    (p', restart_countdown bs').
Proof.
  unfold pushBits, shift_in_bits.
  induction bits as [| b bits IH]; intros bs Hne Hn; [congruence |].
  cbn [fold_left length] in *.
  destruct bits as [| b' bits'].
  - cbn [fold_left]. unfold pushBit.
    cbn [shift_in num_bits_until_next_block_]. rewrite Hn. reflexivity.
  - rewrite <- IH; [| discriminate |].
    + f_equal. unfold pushBit.
      cbn [shift_in num_bits_until_next_block_]. rewrite Hn.
      destruct (Z.eqb_spec (Z.of_nat (S (length (b' :: bits'))) - 1) 0) as [E | _];
        [cbn [length] in E; lia | reflexivity].
    + cbn [shift_in num_bits_until_next_block_]. rewrite Hn. lia.
Qed.

(** ** One block while in sync *)

Lemma switchToCprime_fields (block_offset : Offset) (bs : BlockStream) :
  let bs' := switchToCprime block_offset bs in
  is_in_sync_ bs' = is_in_sync_ bs
  /\ block_error_sum50_ bs' = block_error_sum50_ bs
  /\ expected_offset_ bs'
     = (if bool_decide (expected_offset_ bs = C)
           && bool_decide (block_offset = Cprime)
        then Cprime else expected_offset_ bs)
  /\ num_bits_until_next_block_ bs' = num_bits_until_next_block_ bs.
Proof.
  unfold switchToCprime.
  destruct (bool_decide (expected_offset_ bs = C)
            && bool_decide (block_offset = Cprime)); repeat split.
Qed.

Lemma handleUncorrectableError_fields (bs : BlockStream) :
  let lost := is_in_sync_ bs && (45 <? getSum (block_error_sum50_ bs)) in
  let bs' := handleUncorrectableError bs in
  is_in_sync_ bs' = is_in_sync_ bs && negb lost
  /\ block_error_sum50_ bs'
     = (if lost then RunningSum_clear (block_error_sum50_ bs)
        else block_error_sum50_ bs)
  /\ expected_offset_ bs' = expected_offset_ bs
  /\ num_bits_until_next_block_ bs' = num_bits_until_next_block_ bs.
Proof.
  unfold handleUncorrectableError.
  destruct (is_in_sync_ bs) eqn:Hsync;
    destruct (45 <? getSum (block_error_sum50_ bs));
    cbn [andb negb is_in_sync_ block_error_sum50_ expected_offset_
         num_bits_until_next_block_]; auto.
Qed.

Lemma correctBlock_fields (block : Block) (bs : BlockStream) :
  is_in_sync_ bs = true ->
  let lost :=
    had_errors block
    && negb (succeeded (correctBurstErrors block (expected_offset_ bs)))
    && (45 <? getSum (block_error_sum50_ bs)) in
  let bs' := snd (correctBlock block bs) in
  is_in_sync_ bs' = negb lost
  /\ block_error_sum50_ bs'
     = (if lost then RunningSum_clear (block_error_sum50_ bs)
        else block_error_sum50_ bs)
  /\ expected_offset_ bs' = expected_offset_ bs
  /\ num_bits_until_next_block_ bs' = num_bits_until_next_block_ bs.
Proof.
  intros Hsync. unfold correctBlock. cbv zeta.
  destruct (had_errors block); cbn [andb snd]; [| auto].
  destruct (succeeded (correctBurstErrors block (expected_offset_ bs)));
    cbn [andb negb snd]; [auto |].
  destruct (handleUncorrectableError_fields bs) as (-> & -> & -> & ->).
  rewrite Hsync. cbn [andb]. auto.
Qed.

Lemma storeBlock_fields (block : Block) (bs : BlockStream) :
  let bs' := storeBlock block bs in
  is_in_sync_ bs' = is_in_sync_ bs
  /\ block_error_sum50_ bs' = block_error_sum50_ bs
  /\ expected_offset_ bs' = expected_offset_ bs
  /\ num_bits_until_next_block_ bs' = num_bits_until_next_block_ bs.
Proof.
  unfold storeBlock.
  destruct (bool_decide (offset block = expected_offset_ bs)); repeat split.
Qed.

Lemma advanceOffset_fields (bs : BlockStream) :
  let bs' := advanceOffset bs in
  is_in_sync_ bs' = is_in_sync_ bs
  /\ block_error_sum50_ bs' = block_error_sum50_ bs
  /\ expected_offset_ bs' = getNextOffsetFor (expected_offset_ bs)
  /\ num_bits_until_next_block_ bs' = num_bits_until_next_block_ bs.
Proof.
  unfold advanceOffset. cbv zeta. cbn [set_expected_offset expected_offset_].
  destruct (bool_decide (getNextOffsetFor (expected_offset_ bs) = A));
    repeat split.
Qed.

Lemma processBlockInSync_fields (block_raw : Z) (block_offset : Offset)
    (bs : BlockStream) :
  is_in_sync_ bs = true ->
  let e := if bool_decide (expected_offset_ bs = C)
              && bool_decide (block_offset = Cprime)
           then Cprime else expected_offset_ bs in
  let flag := negb (bool_decide (block_offset = e)) in
  let s' := RunningSum_push (block_error_sum50_ bs) (bool_to_Z flag) in
  let lost :=
    flag
    && negb (succeeded
               (correctBurstErrors
                  {| raw := block_raw;
                     data := uint16_t (Z.shiftr block_raw kCheckwordLength);
                     is_received := false; had_errors := true;
                     offset := block_offset |} e))
    && (45 <? getSum s') in
  let bs' := processBlockInSync block_raw block_offset bs in
  is_in_sync_ bs' = negb lost
  /\ block_error_sum50_ bs' = (if lost then RunningSum_clear s' else s')
  /\ expected_offset_ bs' = getNextOffsetFor e
  /\ num_bits_until_next_block_ bs' = num_bits_until_next_block_ bs.
Proof.
  intros Hsync. cbv zeta. unfold processBlockInSync. cbv zeta.
  destruct (switchToCprime_fields block_offset bs) as (Hy1 & Hs1 & He1 & Hn1).
  cbv zeta in Hy1, Hs1, He1, Hn1.
  set (bs1 := switchToCprime block_offset bs) in *.
  rewrite Hs1, He1.
  set (e := if bool_decide (expected_offset_ bs = C)
               && bool_decide (block_offset = Cprime)
            then Cprime else expected_offset_ bs) in *.
  set (flag := negb (bool_decide (block_offset = e))).
  set (s' := RunningSum_push (block_error_sum50_ bs) (bool_to_Z flag)).
  set (bs2 := set_block_error_sum50 bs1 s').
  assert (Hy2 : is_in_sync_ bs2 = true) by (rewrite <- Hsync, <- Hy1; reflexivity).
  assert (Hs2 : block_error_sum50_ bs2 = s') by reflexivity.
  assert (He2 : expected_offset_ bs2 = e) by exact He1.
  assert (Hn2 : num_bits_until_next_block_ bs2 = num_bits_until_next_block_ bs)
    by exact Hn1.
  clearbody bs2. clear Hy1 Hs1 He1 Hn1. clearbody bs1.
  set (blk := {| raw := block_raw;
                   data := uint16_t (Z.shiftr block_raw kCheckwordLength);
                   is_received := false; had_errors := flag;
                   offset := block_offset |}).
  destruct (correctBlock_fields blk bs2 Hy2) as (Hy3 & Hs3 & He3 & Hn3).
  cbv zeta in Hy3, Hs3, He3, Hn3.
  rewrite Hs2, He2 in Hy3, Hs3. rewrite He2 in He3.
  destruct (correctBlock blk bs2) as [blk' bs3]. cbn [snd] in *.
  destruct (advanceOffset_fields (storeBlock blk' bs3)) as (-> & -> & -> & ->).
  destruct (storeBlock_fields blk' bs3) as (-> & -> & -> & ->).
  rewrite Hy3, Hs3, He3, Hn3, Hn2.
  assert (Hlost : forall f : bool,
    f && negb (succeeded
                 (correctBurstErrors
                    {| raw := block_raw;
                       data := uint16_t (Z.shiftr block_raw kCheckwordLength);
                       is_received := false; had_errors := f;
                       offset := block_offset |} e))
    = f && negb (succeeded
                   (correctBurstErrors
                      {| raw := block_raw;
                         data := uint16_t (Z.shiftr block_raw kCheckwordLength);
                         is_received := false; had_errors := true;
                         offset := block_offset |} e)))
    by (intros []; cbn [andb]; reflexivity).
  subst blk. cbn [had_errors] in *.
  rewrite Hlost. clear. repeat split.
Qed.

Lemma bits_of_block_length (w : Z) : length (bits_of_block w) = 26%nat.
Proof. reflexivity. Qed.

Lemma land_block_mask (x : Z) : Z.land x kBlockBitmask = x mod 2 ^ 26.
Proof.
  change kBlockBitmask with (Z.ones 26). apply Z.land_ones. lia.
Qed.

Lemma register_after_block (w : Z) (bs : BlockStream) :
  Z.land (input_register_ (shift_in_bits (bits_of_block w) bs)) kBlockBitmask
  = Z.land w kBlockBitmask.
Proof.
  rewrite !land_block_mask.
  destruct (shift_in_bits_fields (bits_of_block w) bs) as (_ & _ & _ & ->).
  rewrite bits_value_acc, bits_of_block_length.
  unfold bits_of_block. change (Z.to_nat kBlockLength) with 26%nat.
  rewrite bits_value_of_block.
  change (Z.of_nat 26) with 26.
  rewrite Z.add_comm, Z.mod_add by lia. apply Z.mod_mod. lia.
Qed.

Lemma findBlockInInputRegister_in_sync (p : Process) (bs : BlockStream) :
  is_in_sync_ bs = true ->
  findBlockInInputRegister (p, bs)
  = (p, processBlockInSync
          (Z.land (input_register_ bs) kBlockBitmask)
          (getOffsetForSyndrome
             (uint16_t (calculateSyndrome
                          (Z.land (input_register_ bs) kBlockBitmask))))
          bs).
Proof.
  intros Hsync. unfold findBlockInInputRegister, acquireSync.
  cbn [snd]. rewrite Hsync. cbv beta iota. rewrite Hsync. reflexivity.
Qed.

Lemma restart_countdown_fields (bs : BlockStream) :
  is_in_sync_ (restart_countdown bs) = is_in_sync_ bs
  /\ block_error_sum50_ (restart_countdown bs) = block_error_sum50_ bs
  /\ expected_offset_ (restart_countdown bs) = expected_offset_ bs
  /\ num_bits_until_next_block_ (restart_countdown bs)
     = if is_in_sync_ bs then kBlockLength else 1.
Proof. repeat split. Qed.

(** What one block slot does to an in-sync stream; the sync-pulse buffer
    of the process is not touched. *)
Lemma pushBlock_in_sync (p : Process) (bs : BlockStream) (w : Z) :
  at_block_boundary bs ->
  let s' := RunningSum_push (block_error_sum50_ bs)
              (bool_to_Z (errored (expected_offset_ bs) w)) in
  let lost := uncorrectable (expected_offset_ bs) w && (45 <? getSum s') in
  let r := pushBlock w (p, bs) in
  fst r = p
  /\ is_in_sync_ (snd r) = negb lost
  /\ block_error_sum50_ (snd r) = (if lost then RunningSum_clear s' else s')
  /\ expected_offset_ (snd r)
     = getNextOffsetFor (slot_offset (expected_offset_ bs) w)
  /\ num_bits_until_next_block_ (snd r) = (if lost then 1 else kBlockLength).
Proof.
  intros [Hsync Hcount].
  unfold uncorrectable, errored, slot_offset, observed_offset. cbv zeta.
  destruct (shift_in_bits_fields (bits_of_block w) bs) as (Hy & He & Hs & _).
  rewrite Hsync in Hy.
  assert (Hpush :
    pushBlock w (p, bs)
    = (p, restart_countdown
            (processBlockInSync (Z.land w kBlockBitmask)
               (getOffsetForSyndrome
                  (uint16_t (calculateSyndrome (Z.land w kBlockBitmask))))
               (shift_in_bits (bits_of_block w) bs)))).
  { unfold pushBlock.
    rewrite pushBits_countdown; [| discriminate | rewrite Hcount; reflexivity].
    rewrite (findBlockInInputRegister_in_sync _ _ Hy).
    rewrite register_after_block. reflexivity. }
  pose proof (processBlockInSync_fields (Z.land w kBlockBitmask)
                (getOffsetForSyndrome
                   (uint16_t (calculateSyndrome (Z.land w kBlockBitmask))))
                (shift_in_bits (bits_of_block w) bs) Hy) as Hp.
  cbv zeta in Hp. rewrite He, Hs in Hp.
  destruct Hp as (H1 & H2 & H3 & H4).
  rewrite Hpush.
  change (fst (p, ?x)) with p. 
  match goal with
  | |- context [snd (p, ?x)] => change (snd (p, x)) with x
  end.
  match goal with
  | |- context [restart_countdown ?x] =>
      destruct (restart_countdown_fields x) as (-> & -> & -> & ->)
  end.
  rewrite H1, H2, H3. repeat split.
  match goal with
  | |- (if negb ?c then _ else _) = _ => destruct c; reflexivity
  end.
Qed.

(** ** The window over a run of blocks *)

Lemma bool_to_Z_range (b : bool) : 0 <= bool_to_Z b <= 1.
Proof. destruct b; cbn; lia. Qed.

Lemma error_count_cons (e : Offset) (w : Z) (ws : list Z) :
  error_count e (w :: ws)
  = bool_to_Z (errored e w)
    + error_count (getNextOffsetFor (slot_offset e w)) ws.
Proof. reflexivity. Qed.

Lemma expected_after_cons (e : Offset) (w : Z) (ws : list Z) :
  expected_after e (w :: ws)
  = expected_after (getNextOffsetFor (slot_offset e w)) ws.
Proof. reflexivity. Qed.

Lemma pushBlocks_cons (w : Z) (ws : list Z) (st : Process * BlockStream) :
  pushBlocks (w :: ws) st = pushBlocks ws (pushBlock w st).
Proof. reflexivity. Qed.

Lemma error_count_nonneg (ws : list Z) : forall e, 0 <= error_count e ws.
Proof.
  induction ws as [| w ws IH]; intros e; [cbn [error_count]; lia |].
  rewrite error_count_cons.
  specialize (IH (getNextOffsetFor (slot_offset e w))).
  pose proof (bool_to_Z_range (errored e w)). lia.
Qed.

Lemma window_ok_push (s : RunningSum) (v : Z) :
  window_ok s -> 0 <= v ->
  window_ok (RunningSum_push s v)
  /\ getSum (RunningSum_push s v) <= getSum s + v.
Proof.
  intros (Hlen & Hp & Hall) Hv. split.
  - unfold window_ok, RunningSum_push. cbn [history_ pointer_].
    rewrite length_insert, Hlen. repeat split.
    + apply Nat.mod_upper_bound. lia.
    + apply Forall_insert; assumption.
  - rewrite getSum_push by lia.
    assert (0 <= history_ s !!! pointer_ s); [| lia].
    apply (Forall_lookup_total_1 (fun x => 0 <= x)); [exact Hall | lia].
Qed.

Lemma window_clear_ok (bs : BlockStream) :
  window_clear bs ->
  window_ok (block_error_sum50_ bs)
  /\ window_fresh (block_error_sum50_ bs) 0
  /\ getSum (block_error_sum50_ bs) = 0.
Proof.
  intros [Hh Hp]. unfold window_ok, window_fresh, getSum. rewrite Hh.
  split; [| split].
  - split; [reflexivity | split; [exact Hp |]].
    apply Forall_replicate. lia.
  - split; [reflexivity | split; [exact Hp |]].
    intros j _. apply lookup_replicate_2, Nat.mod_upper_bound. lia.
  - apply sum_replicate_0.
Qed.

Lemma window_fresh_push (s : RunningSum) (n : nat) (v : Z) :
  window_fresh s n -> (n < 50)%nat ->
  window_fresh (RunningSum_push s v) (S n)
  /\ getSum (RunningSum_push s v) = getSum s + v.
Proof.
  intros (Hlen & Hp & Hzero) Hn. split.
  - unfold window_fresh, RunningSum_push. cbn [history_ pointer_].
    rewrite length_insert, Hlen. repeat split.
    + apply Nat.mod_upper_bound. lia.
    + intros j Hj.
      rewrite Nat.Div0.add_mod_idemp_l.
      replace (pointer_ s + 1 + j)%nat with (pointer_ s + S j)%nat by lia.
      rewrite list_lookup_insert_ne; [apply Hzero; lia |].
      pose proof (Nat.div_mod_eq (pointer_ s + S j) 50).
      pose proof (Nat.mod_upper_bound (pointer_ s + S j) 50 ltac:(lia)).
      lia.
  - rewrite getSum_push by lia.
    assert (Hcell : history_ s !!! pointer_ s = 0); [| lia].
    apply list_lookup_total_correct.
    specialize (Hzero 0%nat ltac:(lia)).
    rewrite Nat.add_0_r, Nat.mod_small in Hzero by lia. exact Hzero.
Qed.

(** While the flags pushed so far stay at or below 45, every block keeps
    the stream in sync at a block boundary. *)
Lemma pushBlocks_stays_in_sync (p : Process) (ws : list Z) :
  forall bs : BlockStream,
    at_block_boundary bs ->
    window_ok (block_error_sum50_ bs) ->
    getSum (block_error_sum50_ bs) + error_count (expected_offset_ bs) ws <= 45 ->
    let r := pushBlocks ws (p, bs) in
    fst r = p
    /\ at_block_boundary (snd r)
    /\ window_ok (block_error_sum50_ (snd r))
    /\ expected_offset_ (snd r) = expected_after (expected_offset_ bs) ws.
Proof.
  induction ws as [| w ws IH]; intros bs Hb Hok Hsum.
  - repeat split; try apply Hb; apply Hok.
  - rewrite error_count_cons in Hsum.
    rewrite pushBlocks_cons, expected_after_cons.
    destruct (pushBlock_in_sync p bs w Hb) as (Hp1 & Hy1 & Hs1 & He1 & Hn1).
    cbv zeta in Hy1, Hs1, He1, Hn1.
    destruct (window_ok_push (block_error_sum50_ bs)
                (bool_to_Z (errored (expected_offset_ bs) w)) Hok
                (proj1 (bool_to_Z_range _))) as [Hok' Hle].
    pose proof (error_count_nonneg ws
                  (getNextOffsetFor (slot_offset (expected_offset_ bs) w))).
    assert (Hnot : (45 <? getSum (RunningSum_push (block_error_sum50_ bs)
                       (bool_to_Z (errored (expected_offset_ bs) w)))) = false)
      by (apply Z.ltb_ge; lia).
    rewrite Hnot, andb_false_r in Hy1, Hs1, Hn1.
    destruct (pushBlock w (p, bs)) as [p1 bs1].
    change (fst (p1, bs1)) with p1 in Hp1.
    change (snd (p1, bs1)) with bs1 in Hy1, Hs1, He1, Hn1.
    subst p1. rewrite <- He1. apply IH.
    + split; assumption.
    + rewrite Hs1. exact Hok'.
    + rewrite Hs1, He1. lia.
Qed.

(** In the first 50 blocks after a clear window the sum of the window is
    the number of errored blocks. *)
Lemma pushBlocks_counts_errors (p : Process) (ws : list Z) :
  forall (bs : BlockStream) (n : nat),
    at_block_boundary bs ->
    window_ok (block_error_sum50_ bs) ->
    window_fresh (block_error_sum50_ bs) n ->
    (n + length ws <= 50)%nat ->
    getSum (block_error_sum50_ bs) + error_count (expected_offset_ bs) ws <= 45 ->
    let r := pushBlocks ws (p, bs) in
    window_fresh (block_error_sum50_ (snd r)) (n + length ws)
    /\ getSum (block_error_sum50_ (snd r))
       = getSum (block_error_sum50_ bs) + error_count (expected_offset_ bs) ws.
Proof.
  induction ws as [| w ws IH]; intros bs n Hb Hok Hfresh Hlen Hsum.
  - cbn [length]. rewrite Nat.add_0_r.
    split; [exact Hfresh | cbn [error_count]; cbv zeta; cbn [pushBlocks fold_left snd]; lia].
  - rewrite error_count_cons in Hsum.
    rewrite pushBlocks_cons, error_count_cons.
    cbn [length] in Hlen |- *.
    destruct (pushBlock_in_sync p bs w Hb) as (Hp1 & Hy1 & Hs1 & He1 & Hn1).
    cbv zeta in Hy1, Hs1, He1, Hn1.
    destruct (window_ok_push (block_error_sum50_ bs)
                (bool_to_Z (errored (expected_offset_ bs) w)) Hok
                (proj1 (bool_to_Z_range _))) as [Hok' Hle].
    destruct (window_fresh_push (block_error_sum50_ bs) n
                (bool_to_Z (errored (expected_offset_ bs) w)) Hfresh
                ltac:(lia)) as [Hfresh' Heq].
    pose proof (error_count_nonneg ws
                  (getNextOffsetFor (slot_offset (expected_offset_ bs) w))).
    assert (Hnot : (45 <? getSum (RunningSum_push (block_error_sum50_ bs)
                       (bool_to_Z (errored (expected_offset_ bs) w)))) = false)
      by (apply Z.ltb_ge; lia).
    rewrite Hnot, andb_false_r in Hy1, Hs1, Hn1.
    destruct (pushBlock w (p, bs)) as [p1 bs1].
    change (fst (p1, bs1)) with p1 in Hp1.
    change (snd (p1, bs1)) with bs1 in Hy1, Hs1, He1, Hn1.
    subst p1.
    replace (n + S (length ws))%nat with (S n + length ws)%nat by lia.
    destruct (IH bs1 (S n)) as [IH1 IH2].
    + split; assumption.
    + rewrite Hs1. exact Hok'.
    + rewrite Hs1. exact Hfresh'.
    + lia.
    + rewrite Hs1, He1. lia.
    + split; [exact IH1 |]. rewrite IH2, Hs1, He1, Heq. lia.
Qed.

Lemma uncorrectable_errored (e : Offset) (w : Z) :
  uncorrectable e w = true -> errored e w = true.
Proof.
  unfold uncorrectable. intros H. apply andb_true_iff in H. exact (proj1 H).
Qed.

Lemma pushBlocks_app (ws1 ws2 : list Z) (st : Process * BlockStream) :
  pushBlocks (ws1 ++ ws2) st = pushBlocks ws2 (pushBlocks ws1 st).
Proof. unfold pushBlocks. apply fold_left_app. Qed.

(** C3, as the code has it.  Take an in-sync stream at a block boundary
    whose 50-block window is clear.  (a) Whatever blocks follow, as long
    as at most 45 of them are errored (50 blocks with exactly 45 errored
    ones, for instance) the stream is still in sync.  (b) When 45 errored
    blocks have come within fewer than 50 blocks and the next block is
    errored and beyond burst correction, the 46th flag makes the stream
    go out of sync, and [block_error_sum50_] is cleared to zero. *)
Theorem sync_lost_above_45_uncorrectable (p : Process) (bs : BlockStream) :
  at_block_boundary bs ->
  window_clear bs ->
  (forall ws : list Z,
     error_count (expected_offset_ bs) ws <= 45 ->
     is_in_sync_ (snd (pushBlocks ws (p, bs))) = true)
  /\ (forall (pre : list Z) (w : Z),
        (length pre < 50)%nat ->
        error_count (expected_offset_ bs) pre = 45 ->
        uncorrectable (expected_after (expected_offset_ bs) pre) w = true ->
        let r := pushBlocks (pre ++ [w]) (p, bs) in
        is_in_sync_ (snd r) = false
        /\ history_ (block_error_sum50_ (snd r)) = replicate 50 0
        /\ getSum (block_error_sum50_ (snd r)) = 0).
Proof.
  intros Hb Hclear.
  destruct (window_clear_ok bs Hclear) as (Hok & Hfresh & Hzero).
  split.
  - intros ws Hcount.
    destruct (pushBlocks_stays_in_sync p ws bs Hb Hok ltac:(lia))
      as (_ & [Hsync _] & _).
    exact Hsync.
  - intros pre w Hlen Hcount Hunc. cbv zeta. rewrite pushBlocks_app.
    destruct (pushBlocks_stays_in_sync p pre bs Hb Hok ltac:(lia))
      as (Hp1 & Hb1 & Hok1 & He1).
    destruct (pushBlocks_counts_errors p pre bs 0 Hb Hok Hfresh
                ltac:(lia) ltac:(lia)) as [Hfresh1 Hsum1].
    cbv zeta in Hp1, Hb1, Hok1, He1, Hfresh1, Hsum1.
    destruct (pushBlocks pre (p, bs)) as [p1 bs1].
    change (fst (p1, bs1)) with p1 in Hp1.
    change (snd (p1, bs1)) with bs1 in Hb1, Hok1, He1, Hfresh1, Hsum1.
    subst p1. rewrite <- He1 in Hunc.
    rewrite pushBlocks_cons.
    change (pushBlocks [] (pushBlock w (p, bs1))) with (pushBlock w (p, bs1)).
    destruct (pushBlock_in_sync p bs1 w Hb1) as (_ & Hy & Hs & _).
    cbv zeta in Hy, Hs.
    pose proof (uncorrectable_errored _ _ Hunc) as Herr.
    destruct (window_fresh_push (block_error_sum50_ bs1) (0 + length pre)
                (bool_to_Z (errored (expected_offset_ bs1) w)) Hfresh1
                ltac:(lia)) as [_ Hsum].
    rewrite Herr in Hsum, Hy, Hs.
    change (bool_to_Z true) with 1 in Hsum, Hy, Hs.
    assert (Hover : (45 <? getSum (RunningSum_push (block_error_sum50_ bs1) 1))
                    = true) by (apply Z.ltb_lt; lia).
    rewrite Hunc, Hover in Hy, Hs.
    change (negb (true && true)) with false in Hy.
    change (true && true) with true in Hs.
    rewrite Hy, Hs. split; [reflexivity |]. split.
    + unfold RunningSum_clear, RunningSum_push. cbn [history_].
      rewrite length_insert. destruct Hok1 as (-> & _). reflexivity.
    + apply getSum_clear.
Qed.

Lemma sync_lost_above_45_uncorrectable_witness :
  is_in_sync_ (snd (pushBlocks blocks_45_then_clean (fst synced, snd synced)))
  = true
  /\ (let r := pushBlocks (replicate 45 0 ++ [0]) (fst synced, snd synced) in
      is_in_sync_ (snd r) = false
      /\ history_ (block_error_sum50_ (snd r)) = replicate 50 0
      /\ getSum (block_error_sum50_ (snd r)) = 0).
Proof.
  assert (Hb : at_block_boundary (snd synced)) by (split; reflexivity).
  assert (Hc : window_clear (snd synced))
    by (split; [reflexivity | vm_compute; lia]).
  destruct (sync_lost_above_45_uncorrectable (fst synced) (snd synced) Hb Hc)
    as [Ha Hl].
  split.
  - apply Ha. vm_compute. discriminate.
  - apply Hl.
    + vm_compute. lia.
    + reflexivity.
    + reflexivity.
Defined.

(** C3, as stated, fails on both counts.  From a stream that has just
    acquired sync, 50 blocks of which 46 are errored leave the stream in
    sync when burst correction repairs them; and from the state reached
    then, whose window still holds those 46 flags, 50 blocks of which
    exactly 45 are errored end out of sync. *)
Lemma sync_kept_at_46_and_lost_at_45 :
  let st := pushBlocks blocks_46_corrected synced in
  is_in_sync_ (snd synced) = true
  /\ length blocks_46_corrected = 50%nat
  /\ error_count (expected_offset_ (snd synced)) blocks_46_corrected = 46
  /\ is_in_sync_ (snd st) = true
  /\ getSum (block_error_sum50_ (snd st)) = 46
  /\ length blocks_45_garbled = 50%nat
  /\ error_count (expected_offset_ (snd st)) blocks_45_garbled = 45
  /\ is_in_sync_ (snd (pushBlocks blocks_45_garbled st)) = false.
Proof. vm_compute. repeat split. Qed.

(* ===================================================================== *)
(** * More on syndromes and burst correction *)
(* ===================================================================== *)

Lemma land_ones_lxor (a b n : Z) :
  0 <= n ->
  Z.lxor a b mod 2 ^ n = Z.lxor (a mod 2 ^ n) (b mod 2 ^ n).
Proof.
  intros Hn. rewrite <- !Z.land_ones by exact Hn.
  apply Z.bits_inj'. intros k Hk.
  rewrite !Z.land_spec, !Z.lxor_spec, !Z.land_spec.
  destruct (Z.testbit (Z.ones n) k);
    rewrite ?andb_true_r, ?andb_false_r; reflexivity.
Qed.

Lemma lxor_range (a b n : Z) :
  0 <= n -> 0 <= a < 2 ^ n -> 0 <= b < 2 ^ n -> 0 <= Z.lxor a b < 2 ^ n.
Proof.
  intros Hn Ha Hb.
  rewrite <- (Z.mod_small a (2 ^ n)), <- (Z.mod_small b (2 ^ n)) by assumption.
  rewrite <- land_ones_lxor by exact Hn.
  apply Z.mod_pos_bound. lia.
Qed.

Lemma parity_row_range (k : nat) :
  0 <= nth k parity_check_matrix 0 < 2 ^ 10.
Proof.
  do 26 (destruct k as [| k]; [cbn; lia |]).
  destruct k; cbn; lia.
Qed.

Lemma syndrome_step_range (vec r : Z) (k : nat) :
  0 <= r < 2 ^ 10 -> 0 <= syndrome_step vec r k < 2 ^ 10.
Proof.
  intros Hr. unfold syndrome_step. apply lxor_range; [lia | exact Hr |].
  pose proof (parity_row_range (length parity_check_matrix - 1 - k)) as Hrow.
  destruct (land_1_bit (Z.shiftr vec (Z.of_nat k))) as [-> | ->]; lia.
Qed.

Lemma calculateSyndrome_bounds (vec : Z) :
  0 <= calculateSyndrome vec < 2 ^ 10
  /\ uint16_t (calculateSyndrome vec) = calculateSyndrome vec.
Proof.
  assert (H : 0 <= calculateSyndrome vec < 2 ^ 10).
  { unfold calculateSyndrome.
    assert (Hfold : forall ks r, 0 <= r < 2 ^ 10 ->
              0 <= fold_left (syndrome_step vec) ks r < 2 ^ 10).
    { induction ks as [| k ks IH]; intros r Hr; cbn [fold_left];
        [exact Hr | apply IH, syndrome_step_range, Hr]. }
    apply Hfold. lia. }
  split; [exact H |]. unfold uint16_t. apply Z.mod_small. lia.
Qed.

Lemma syndrome_step_low_bits (vec r : Z) (k : nat) :
  (k < 26)%nat ->
  syndrome_step (vec mod 2 ^ 26) r k = syndrome_step vec r k.
Proof.
  intros Hk. unfold syndrome_step. do 2 f_equal.
  change 1 with (Z.ones 1). rewrite !Z.land_ones by lia.
  rewrite !Z.shiftr_div_pow2 by lia. change (2 ^ 1) with 2.
  rewrite <- !Z.testbit_spec' by lia.
  rewrite Z.mod_pow2_bits_low by lia. reflexivity.
Qed.

(** X1.  The syndrome of every word is a 10-bit number, so narrowing it
    to [uint16_t] loses nothing; and it depends on the low 26 bits of
    the word only, so whatever else the 32-bit input register holds has
    no influence on it. *)
Theorem calculateSyndrome_range (vec : Z) :
  0 <= calculateSyndrome vec < 2 ^ 10
  /\ uint16_t (calculateSyndrome vec) = calculateSyndrome vec
  /\ calculateSyndrome (Z.land vec kBlockBitmask) = calculateSyndrome vec.
Proof.
  destruct (calculateSyndrome_bounds vec) as [H1 H2].
  split; [exact H1 |]. split; [exact H2 |].
  rewrite land_block_mask. unfold calculateSyndrome.
  change (length parity_check_matrix) with 26%nat.
  assert (Hfold : forall ks r,
            Forall (fun k => (k < 26)%nat) ks ->
            fold_left (syndrome_step (vec mod 2 ^ 26)) ks r
            = fold_left (syndrome_step vec) ks r).
  { induction ks as [| k ks IH]; intros r Hks; cbn [fold_left];
      [reflexivity |].
    apply Forall_cons_1 in Hks as [Hk Hks].
    rewrite (syndrome_step_low_bits vec r k Hk). apply IH, Hks. }
  apply Hfold. apply Forall_forall. intros k Hk.
  apply in_seq in Hk. lia.
Qed.

Lemma offset_words_recognised :
  Forall (fun ow : Offset * Z =>
            getOffsetForSyndrome (uint16_t (calculateSyndrome (snd ow))) = fst ow
            /\ 0 <= snd ow < 2 ^ 10)
         offset_words.
Proof. apply (bool_decide_unpack _). vm_compute. exact I. Qed.

Lemma syndrome_of_valid_block (c w : Z) :
  is_codeword c ->
  calculateSyndrome (Z.lxor c w) = calculateSyndrome w.
Proof.
  intros [_ Hc]. rewrite calculateSyndrome_lxor, Hc. apply Z.lxor_0_l.
Qed.

(** X2.  An error-free block is recognised: for every codeword and every
    offset word of the table, the block (codeword xor offset word) is
    labelled with that offset, by [getOffsetForSyndrome] and by the
    stream's reading of the low 26 register bits alike. *)
Theorem valid_block_recognised (c w : Z) (O : Offset) :
  is_codeword c ->
  (O, w) ∈ offset_words ->
  getOffsetForSyndrome (uint16_t (calculateSyndrome (Z.lxor c w))) = O
  /\ observed_offset (Z.lxor c w) = O.
Proof.
  intros Hc HO.
  pose proof offset_words_recognised as Hall.
  rewrite Forall_forall in Hall.
  destruct (Hall (O, w) (proj1 (list_elem_of_In _ _) HO)) as [Hrec Hw].
  cbn [fst snd] in Hrec, Hw.
  assert (H1 : getOffsetForSyndrome
                 (uint16_t (calculateSyndrome (Z.lxor c w))) = O)
    by (rewrite (syndrome_of_valid_block c w Hc); exact Hrec).
  split; [exact H1 |].
  unfold observed_offset.
  assert (Hr : 0 <= Z.lxor c w < 2 ^ 26)
    by (apply lxor_range; [lia | apply Hc | lia]).
  rewrite land_block_mask, Z.mod_small by exact Hr. exact H1.
Qed.

Lemma valid_block_recognised_witness :
  getOffsetForSyndrome
    (uint16_t (calculateSyndrome (Z.lxor 0x3890BC2 0x198))) = B
  /\ observed_offset (Z.lxor 0x3890BC2 0x198) = B.
Proof.
  apply (valid_block_recognised 0x3890BC2 0x198 B).
  - split; [lia | reflexivity].
  - unfold offset_words. solve_elem_of.
Defined.

(** Every entry of the lookup table is keyed by the syndrome its error
    vector produces on the offset word, and holds a burst pattern. *)
Lemma error_lookup_table_sound :
  map_Forall (fun (key : Z * Offset) (E : Z) =>
    Exists (fun ow : Offset * Z =>
              fst ow = snd key
              /\ fst key = uint16_t (calculateSyndrome (Z.lxor E (snd ow))))
           offset_words
    /\ E ∈ burst_errors) error_lookup_table.
Proof. apply (bool_decide_unpack _). vm_compute. exact I. Qed.

Lemma error_lookup_table_entry (s : Z) (O : Offset) (E : Z) :
  error_lookup_table !! (s, O) = Some E ->
  exists w : Z,
    In (O, w) offset_words
    /\ s = uint16_t (calculateSyndrome (Z.lxor E w))
    /\ E ∈ burst_errors.
Proof.
  intros Hlook.
  destruct (map_Forall_lookup_1 _ _ _ _ error_lookup_table_sound Hlook)
    as [Hex HE].
  apply Exists_exists in Hex. destruct Hex as ([O' w] & Hin & HO & Hkey).
  cbn [fst snd] in HO, Hkey. subst O'. exists w. auto.
Qed.

(** X3.  Whatever the received word, when [correctBurstErrors] succeeds
    the bits it returns form a block that is recognised as the expected
    offset, and they differ from the received bits by a single bit or by
    two adjacent bits. *)
Theorem correctBurstErrors_success_sound (block : Block) (expected : Offset) :
  succeeded (correctBurstErrors block expected) = true ->
  getOffsetForSyndrome
    (uint16_t (calculateSyndrome
                 (corrected_bits (correctBurstErrors block expected))))
  = expected
  /\ is_burst_error
       (Z.lxor (corrected_bits (correctBurstErrors block expected)) (raw block)).
Proof.
  unfold correctBurstErrors.
  destruct (error_lookup_table
              !! (uint16_t (calculateSyndrome (raw block)), expected))
    as [E |] eqn:Hlook; cbn [succeeded corrected_bits]; [intros _ | discriminate].
  destruct (error_lookup_table_entry _ _ _ Hlook) as (w & Hin & Hkey & HE).
  rewrite !(proj2 (calculateSyndrome_bounds _)) in Hkey.
  split.
  - pose proof offset_words_recognised as Hall.
    rewrite Forall_forall in Hall. destruct (Hall _ Hin) as [Hrec _].
    cbn [fst snd] in Hrec. rewrite <- Hrec. do 2 f_equal.
    rewrite calculateSyndrome_lxor, Hkey, calculateSyndrome_lxor.
    rewrite (Z.lxor_comm (calculateSyndrome E)), Z.lxor_assoc,
      Z.lxor_nilpotent. apply Z.lxor_0_r.
  - rewrite (Z.lxor_comm (raw block)), Z.lxor_assoc, Z.lxor_nilpotent,
      Z.lxor_0_r.
    apply list_elem_of_In, in_app_or in HE.
    destruct HE as [HE | HE]; apply in_map_iff in HE;
      destruct HE as (shift & <- & Hs); apply in_seq in Hs;
      exists shift; [left | right]; (split; [lia | reflexivity]).
Qed.

Lemma correctBurstErrors_success_sound_witness :
  let block := {| raw := Z.lxor (Z.lxor 0x3890BC2 0x198) 0x6000; data := 0;
                  is_received := false; had_errors := true;
                  offset := invalid |} in
  getOffsetForSyndrome
    (uint16_t (calculateSyndrome (corrected_bits (correctBurstErrors block B))))
  = B
  /\ is_burst_error
       (Z.lxor (corrected_bits (correctBurstErrors block B)) (raw block)).
Proof.
  intros block. apply (correctBurstErrors_success_sound block B). reflexivity.
Defined.

Lemma valid_block_entries :
  Forall (fun ow : Offset * Z =>
    Forall (fun expected : Offset =>
              is_Some (error_lookup_table
                         !! (uint16_t (calculateSyndrome (snd ow)), expected))
              <-> (fst ow, expected) ∈ relabelled_pairs)
           [A; B; C; Cprime; D; invalid]) offset_words.
Proof. apply (bool_decide_unpack _). vm_compute. exact I. Qed.

Lemma valid_block_entries_data :
  Forall (fun ow : Offset * Z =>
    Forall (fun expected : Offset =>
              forall E : Z,
                error_lookup_table
                  !! (uint16_t (calculateSyndrome (snd ow)), expected) = Some E ->
                Z.shiftr E kCheckwordLength <> 0)
           [A; B; C; Cprime; D; invalid]) offset_words.
Proof.
  assert (Hb : forallb (fun ow : Offset * Z =>
            forallb (fun expected : Offset =>
              match error_lookup_table
                      !! (uint16_t (calculateSyndrome (snd ow)), expected) with
              | Some E => negb (Z.shiftr E kCheckwordLength =? 0)
              | None => true
              end) [A; B; C; Cprime; D; invalid]) offset_words = true)
    by (vm_compute; reflexivity).
  rewrite forallb_forall in Hb.
  rewrite Forall_forall. intros ow How. specialize (Hb ow How).
  rewrite forallb_forall in Hb.
  rewrite Forall_forall. intros expected Hexp E HE.
  specialize (Hb expected Hexp). rewrite HE in Hb.
  apply negb_true_iff, Z.eqb_neq in Hb. exact Hb.
Qed.

(** X4.  What [correctBurstErrors] does to an error-free block.  With the
    block's own offset expected it reports failure and returns the bits
    as received.  With another offset expected it fails as well, except
    for eight pairs of offsets (A/B, A/D, B/C' and C/D, either way
    round): the syndromes of their offset words differ by the syndrome
    of a burst, so the call succeeds, and the bits it returns differ
    from the good block in the information word. *)
Theorem correctBurstErrors_on_valid_block
    (c w : Z) (O expected : Offset) (block : Block) :
  is_codeword c ->
  (O, w) ∈ offset_words ->
  raw block = Z.lxor c w ->
  (succeeded (correctBurstErrors block expected) = true
   <-> (O, expected) ∈ relabelled_pairs)
  /\ (expected = O ->
      succeeded (correctBurstErrors block expected) = false
      /\ corrected_bits (correctBurstErrors block expected) = raw block)
  /\ (succeeded (correctBurstErrors block expected) = true ->
      Z.shiftr (corrected_bits (correctBurstErrors block expected))
               kCheckwordLength
      <> Z.shiftr (raw block) kCheckwordLength).
Proof.
  intros Hc HO Hraw.
  pose proof valid_block_entries as Hall.
  pose proof valid_block_entries_data as Hdata.
  rewrite Forall_forall in Hall, Hdata.
  specialize (Hall (O, w) (proj1 (list_elem_of_In _ _) HO)).
  specialize (Hdata (O, w) (proj1 (list_elem_of_In _ _) HO)).
  rewrite Forall_forall in Hall, Hdata.
  assert (Hin : In expected [A; B; C; Cprime; D; invalid])
    by (destruct expected; cbn; tauto).
  specialize (Hall expected Hin). specialize (Hdata expected Hin).
  cbn [fst snd] in Hall, Hdata.
  unfold correctBurstErrors.
  rewrite Hraw, (syndrome_of_valid_block c w Hc).
  destruct (error_lookup_table !! (uint16_t (calculateSyndrome w), expected))
    as [E |]; cbn [succeeded corrected_bits].
  - assert (Hpair : (O, expected) ∈ relabelled_pairs)
      by (apply Hall; eexists; reflexivity).
    split; [tauto |]. split.
    + intros ->. exfalso.
      apply list_elem_of_In in Hpair. cbn in Hpair.
      destruct O; intuition congruence.
    + intros _ Heq. apply (Hdata E eq_refl).
      rewrite Z.shiftr_lxor in Heq.
      set (x := Z.shiftr (Z.lxor c w) kCheckwordLength) in *.
      set (e := Z.shiftr E kCheckwordLength) in *.
      assert (H0 : Z.lxor x (Z.lxor x e) = Z.lxor x x)
        by (rewrite Heq; reflexivity).
      rewrite <- Z.lxor_assoc, Z.lxor_nilpotent, Z.lxor_0_l in H0. exact H0.
  - split; [| split; [auto | discriminate]]. split; [discriminate |].
    intros Hpair. apply Hall in Hpair. destruct Hpair as [? Hsome].
    discriminate Hsome.
Qed.

Lemma correctBurstErrors_on_valid_block_witness :
  let block := {| raw := Z.lxor 0x3890BC2 0x0FC; data := 0;
                  is_received := false; had_errors := true;
                  offset := A |} in
  (succeeded (correctBurstErrors block B) = true
   <-> (A, B) ∈ relabelled_pairs)
  /\ (B = A ->
      succeeded (correctBurstErrors block B) = false
      /\ corrected_bits (correctBurstErrors block B) = raw block)
  /\ (succeeded (correctBurstErrors block B) = true ->
      Z.shiftr (corrected_bits (correctBurstErrors block B)) kCheckwordLength
      <> Z.shiftr (raw block) kCheckwordLength).
Proof.
  intros block.
  apply (correctBurstErrors_on_valid_block 0x3890BC2 0x0FC A B block).
  - split; [lia | reflexivity].
  - unfold offset_words. solve_elem_of.
  - reflexivity.
Defined.

(* ===================================================================== *)
(** * The running sum as a sliding window *)
(* ===================================================================== *)

Lemma RunningSum_push_shape (s : RunningSum) (v : Z) :
  (pointer_ s < length (history_ s))%nat ->
  length (history_ (RunningSum_push s v)) = length (history_ s)
  /\ (pointer_ (RunningSum_push s v) < length (history_ s))%nat.
Proof.
  intros Hp. unfold RunningSum_push. cbn [history_ pointer_].
  rewrite length_insert. split; [reflexivity |].
  apply Nat.mod_upper_bound. lia.
Qed.

Lemma RunningSum_window_push (s : RunningSum) (v : Z) :
  (pointer_ s < length (history_ s))%nat ->
  RunningSum_window (RunningSum_push s v)
  = drop 1 (RunningSum_window s) ++ [v].
Proof.
  intros Hp. unfold RunningSum_window, RunningSum_push.
  cbn [history_ pointer_].
  set (h := history_ s) in *. set (p := pointer_ s) in *.
  destruct (lookup_lt_is_Some_2 h p Hp) as [x Hx].
  assert (Hdrop : drop p h = x :: drop (S p) h)
    by (apply drop_S, Hx).
  rewrite Hdrop. cbn [app drop].
  destruct (decide (p + 1 < length h)%nat) as [Hlt | Hge].
  - rewrite Nat.mod_small by exact Hlt.
    replace (p + 1)%nat with (S p) by lia.
    rewrite drop_insert_lt by lia.
    rewrite (take_S_r _ _ v) by (apply list_lookup_insert_eq, Hp).
    rewrite take_insert_ge by lia.
    rewrite app_assoc. reflexivity.
  - assert (Hlen : (p + 1 = length h)%nat) by lia.
    rewrite Hlen, Nat.Div0.mod_same.
    rewrite drop_0, take_0, app_nil_r.
    rewrite (drop_ge h (S p)) by lia. cbn [app].
    rewrite insert_take_drop by exact Hp.
    rewrite (drop_ge h (S p)) by lia. reflexivity.
Qed.

Lemma RunningSum_window_length (s : RunningSum) :
  length (RunningSum_window s) = length (history_ s).
Proof.
  unfold RunningSum_window.
  rewrite length_app, length_drop, length_take. lia.
Qed.

Lemma getSum_window (s : RunningSum) :
  getSum s = fold_left Z.add (RunningSum_window s) 0.
Proof.
  unfold getSum, RunningSum_window.
  rewrite <- (take_drop (pointer_ s) (history_ s)) at 1.
  rewrite !fold_left_app.
  rewrite (fold_add_acc (drop _ _) (fold_left Z.add (take _ _) 0)).
  rewrite (fold_add_acc (take _ _) (fold_left Z.add (drop _ _) 0)).
  lia.
Qed.

Lemma RunningSum_push_all_window (vs : list Z) : forall s : RunningSum,
  (pointer_ s < length (history_ s))%nat ->
  length (history_ (RunningSum_push_all vs s)) = length (history_ s)
  /\ RunningSum_window (RunningSum_push_all vs s)
     = drop (length vs) (RunningSum_window s ++ vs).
Proof.
  unfold RunningSum_push_all.
  induction vs as [| v vs IH]; intros s Hp; cbn [fold_left length].
  - rewrite drop_0, app_nil_r. split; reflexivity.
  - destruct (RunningSum_push_shape s v Hp) as [Hlen Hp'].
    destruct (IH (RunningSum_push s v)) as [IHlen IHwin];
      [rewrite Hlen; exact Hp' |].
    rewrite IHlen, IHwin, Hlen. split; [reflexivity |].
    rewrite (RunningSum_window_push s v Hp).
    pose proof (RunningSum_window_length s) as Hw.
    destruct (RunningSum_window s) as [| x t]; [cbn [length] in Hw; lia |].
    cbn [drop app]. rewrite <- app_assoc. reflexivity.
Qed.

Lemma sum_within (M : Z) (l : list Z) :
  0 <= M ->
  Forall (fun v : Z => - M <= v <= M) l ->
  - (Z.of_nat (length l) * M) <= fold_left Z.add l 0
  <= Z.of_nat (length l) * M.
Proof.
  intros HM Hl. induction Hl as [| x l Hx _ IH]; [cbn; lia |].
  cbn [fold_left length]. rewrite (fold_add_acc l (0 + x)). nia.
Qed.

Lemma RunningSum_window_Forall (P : Z -> Prop) (s : RunningSum) :
  Forall P (RunningSum_window s) -> Forall P (history_ s).
Proof.
  unfold RunningSum_window. intros H.
  apply Forall_app in H as [Hd Ht].
  rewrite <- (take_drop (pointer_ s) (history_ s)).
  apply Forall_app. split; assumption.
Qed.

(** X5.  [RunningSum] is a sliding window: once at least as many values
    have been pushed as the history has cells, [getSum] is the sum of
    the last [N] values pushed, whatever the window held before and
    wherever its pointer stood.  The values pushed are bounded by [M]
    with [N * M] below [2^31], so that every partial sum that
    [std::accumulate] forms over the history fits the [int] in which the
    source adds. *)
Theorem RunningSum_sliding_window (s : RunningSum) (vs : list Z) (M : Z) :
  (pointer_ s < length (history_ s))%nat ->
  (length (history_ s) <= length vs)%nat ->
  Forall (fun v : Z => - M <= v <= M) vs ->
  Z.of_nat (length (history_ s)) * M < 2 ^ 31 ->
  getSum (RunningSum_push_all vs s)
  = fold_left Z.add (drop (length vs - length (history_ s)) vs) 0
  /\ forall k : nat,
       - 2 ^ 31
       <= fold_left Z.add (take k (history_ (RunningSum_push_all vs s))) 0
       < 2 ^ 31.
Proof.
  intros Hp Hlen Hvs HM.
  destruct (RunningSum_push_all_window vs s Hp) as [Hhist Hwin].
  assert (Hdrop : RunningSum_window (RunningSum_push_all vs s)
                  = drop (length vs - length (history_ s)) vs).
  { rewrite Hwin, drop_app, RunningSum_window_length.
    rewrite (drop_ge (RunningSum_window s))
      by (rewrite RunningSum_window_length; exact Hlen).
    reflexivity. }
  split.
  - rewrite getSum_window, Hdrop. reflexivity.
  - intros k.
    assert (HM0 : 0 <= M).
    { destruct Hvs as [| v vs' Hv _]; [cbn [length] in Hlen; lia | lia]. }
    assert (Hall : Forall (fun v : Z => - M <= v <= M)
                     (history_ (RunningSum_push_all vs s))).
    { apply RunningSum_window_Forall. rewrite Hdrop.
      apply Forall_drop, Hvs. }
    pose proof (sum_within M (take k (history_ (RunningSum_push_all vs s)))
                  HM0 (Forall_take _ _ _ Hall)) as Hsum.
    rewrite length_take, Hhist in Hsum.
    assert (Z.of_nat (k `min` length (history_ s)) * M
            <= Z.of_nat (length (history_ s)) * M) by nia.
    lia.
Qed.

Lemma RunningSum_sliding_window_witness :
  getSum (RunningSum_push_all [1; 1; 0; 1; 0] (RunningSum_new 3))
  = fold_left Z.add (drop (5 - 3) [1; 1; 0; 1; 0]) 0
  /\ forall k : nat,
       - 2 ^ 31
       <= fold_left Z.add
            (take k (history_ (RunningSum_push_all [1; 1; 0; 1; 0]
                                 (RunningSum_new 3)))) 0
       < 2 ^ 31.
Proof.
  apply (RunningSum_sliding_window (RunningSum_new 3) [1; 1; 0; 1; 0] 1).
  - cbn. lia.
  - cbn. lia.
  - repeat constructor; lia.
  - cbn. lia.
Defined.

(* ===================================================================== *)
(** * Bit fields *)
(* ===================================================================== *)

Lemma mask_ones (N : Z) : 0 <= N -> Z.shiftl 1 N - 1 = Z.ones N.
Proof.
  intros HN. rewrite Z.shiftl_1_l, Z.ones_equiv. lia.
Qed.

Lemma getBits_value (N word starting_at : Z) :
  0 <= N <= 16 -> 0 <= starting_at ->
  getBits N word starting_at = (word / 2 ^ starting_at) mod 2 ^ N.
Proof.
  intros HN Hs. unfold getBits, uint16_t.
  rewrite mask_ones by lia.
  rewrite Z.land_ones by lia.
  rewrite Z.shiftr_div_pow2 by lia.
  apply Z.mod_small.
  assert (0 < 2 ^ N) by (apply Z.pow_pos_nonneg; lia).
  assert (2 ^ N <= 2 ^ 16) by (apply Z.pow_le_mono_r; lia).
  pose proof (Z.mod_pos_bound (word / 2 ^ starting_at) (2 ^ N)). lia.
Qed.

(** X6.  For a 16-bit [word] and start bits below 32, the range in
    which the shift of the promoted [int] is defined,
    [getBits<N>(word, starting_at)] is the number made of the [N] bits
    of [word] from bit [starting_at] upwards; the narrowing to
    [uint16_t] never cuts it, and adjacent fields tile the word: a field
    of [a + b] bits is its low [a] bits plus [2^a] times the [b] bits
    above them. *)
Theorem getBits_fields (a b word starting_at : Z) :
  0 <= a -> 0 <= b -> a + b <= 16 ->
  0 <= word < 2 ^ 16 ->
  0 <= starting_at -> starting_at + a < 32 ->
  getBits (a + b) word starting_at
  = (word / 2 ^ starting_at) mod 2 ^ (a + b)
  /\ 0 <= getBits (a + b) word starting_at < 2 ^ (a + b)
  /\ getBits (a + b) word starting_at
     = getBits a word starting_at
       + 2 ^ a * getBits b word (starting_at + a).
Proof.
  intros Ha Hb Hab _ Hs _.
  rewrite !getBits_value by lia.
  assert (Hpa : 0 < 2 ^ a) by (apply Z.pow_pos_nonneg; lia).
  assert (Hpb : 0 < 2 ^ b) by (apply Z.pow_pos_nonneg; lia).
  assert (Hps : 0 < 2 ^ starting_at) by (apply Z.pow_pos_nonneg; lia).
  split; [reflexivity |]. split.
  - apply Z.mod_pos_bound. apply Z.pow_pos_nonneg; lia.
  - rewrite (Z.pow_add_r 2 a b), (Z.pow_add_r 2 starting_at a) by lia.
    rewrite Z.rem_mul_r by lia.
    rewrite <- Z.div_div by lia. reflexivity.
Qed.

Lemma getBits_fields_witness :
  getBits (4 + 1) 0x2408 11 = (0x2408 / 2 ^ 11) mod 2 ^ (4 + 1)
  /\ 0 <= getBits (4 + 1) 0x2408 11 < 2 ^ (4 + 1)
  /\ getBits (4 + 1) 0x2408 11
     = getBits 4 0x2408 11 + 2 ^ 4 * getBits 1 0x2408 (11 + 4).
Proof. apply (getBits_fields 4 1 0x2408 11); lia. Defined.

Lemma int32_t_congr (x : Z) : exists k : Z, int32_t x = x + k * 2 ^ 32.
Proof.
  exists (- ((x + 2 ^ 31) / 2 ^ 32)). unfold int32_t.
  rewrite Z.mod_eq by lia. lia.
Qed.

Lemma int32_t_small (x : Z) : - 2 ^ 31 <= x < 2 ^ 31 -> int32_t x = x.
Proof.
  intros Hx. unfold int32_t. rewrite Z.mod_small by lia. lia.
Qed.

Lemma getBits2_value (N word1 word2 starting_at : Z) :
  0 <= N <= 30 -> 0 <= starting_at -> N + starting_at <= 32 ->
  getBits2 N word1 word2 starting_at
  = ((word1 * 2 ^ 16 + word2) / 2 ^ starting_at) mod 2 ^ N.
Proof.
  intros HN Hs HNs. unfold getBits2.
  assert (HpN : 0 < 2 ^ N) by (apply Z.pow_pos_nonneg; lia).
  assert (HN31 : 2 ^ N < 2 ^ 31) by (apply Z.pow_lt_mono_r; lia).
  rewrite Z.shiftl_1_l.
  rewrite (int32_t_small (2 ^ N)) by lia.
  rewrite (int32_t_small (2 ^ N - 1)) by lia.
  replace (2 ^ N - 1) with (Z.ones N) by (rewrite Z.ones_equiv; lia).
  rewrite Z.land_ones by lia.
  rewrite Z.shiftr_div_pow2 by lia.
  rewrite Z.shiftl_mul_pow2 by lia.
  destruct (int32_t_congr (word1 * 2 ^ 16)) as [k1 ->].
  destruct (int32_t_congr (word1 * 2 ^ 16 + k1 * 2 ^ 32 + word2)) as [k2 ->].
  set (v := word1 * 2 ^ 16 + word2).
  replace (word1 * 2 ^ 16 + k1 * 2 ^ 32 + word2 + k2 * 2 ^ 32)
    with (v + (k1 + k2) * 2 ^ 32) by (unfold v; lia).
  replace (2 ^ 32) with (2 ^ (32 - starting_at - N) * 2 ^ N * 2 ^ starting_at)
    by (rewrite <- !Z.pow_add_r by lia; f_equal; lia).
  rewrite !Z.mul_assoc, Z.div_add by (apply Z.pow_nonzero; lia).
  rewrite Z.mod_add by lia.
  unfold uint32_t. apply Z.mod_small.
  pose proof (Z.mod_pos_bound (v / 2 ^ starting_at) (2 ^ N) HpN).
  assert (2 ^ 31 < 2 ^ 32) by (apply Z.pow_lt_mono_r; lia). lia.
Qed.

(** X7.  The two-word [getBits<N>(word1, word2, starting_at)] reads its
    field out of the 32-bit concatenation of the two words, although the
    concatenation is computed as a signed [int]: for [N <= 30] and a
    field inside the 32 bits the sign never reaches the result.  A field
    inside the low word is the one-word [getBits] of [word2], a field
    inside the high word that of [word1]. *)
Theorem getBits2_concatenation (N word1 word2 starting_at : Z) :
  0 <= word1 < 2 ^ 16 -> 0 <= word2 < 2 ^ 16 ->
  0 <= N <= 30 -> 0 <= starting_at -> N + starting_at <= 32 ->
  getBits2 N word1 word2 starting_at
  = ((word1 * 2 ^ 16 + word2) / 2 ^ starting_at) mod 2 ^ N
  /\ (N + starting_at <= 16 ->
      getBits2 N word1 word2 starting_at = getBits N word2 starting_at)
  /\ (16 <= starting_at ->
      getBits2 N word1 word2 starting_at
      = getBits N word1 (starting_at - 16)).
Proof.
  intros Hw1 Hw2 HN Hs HNs.
  rewrite getBits2_value by lia.
  assert (HpN : 0 < 2 ^ N) by (apply Z.pow_pos_nonneg; lia).
  assert (Hps : 0 < 2 ^ starting_at) by (apply Z.pow_pos_nonneg; lia).
  split; [reflexivity |]. split.
  - intros Hlow. rewrite getBits_value by lia.
    replace (2 ^ 16) with (2 ^ (16 - starting_at - N) * 2 ^ N * 2 ^ starting_at)
      by (rewrite <- !Z.pow_add_r by lia; f_equal; lia).
    rewrite !Z.mul_assoc, (Z.add_comm _ word2), Z.div_add by lia.
    rewrite Z.mod_add by lia. reflexivity.
  - intros Hhigh. rewrite getBits_value by lia.
    replace starting_at with (16 + (starting_at - 16)) at 1 by lia.
    rewrite Z.pow_add_r by lia.
    rewrite <- Z.div_div by (try apply Z.pow_pos_nonneg; lia).
    rewrite Z.div_add_l by lia.
    rewrite (Z.div_small word2) by lia. rewrite Z.add_0_r. reflexivity.
Qed.

Lemma getBits2_concatenation_witness :
  getBits2 17 0xFFFF 0x8001 1 = ((0xFFFF * 2 ^ 16 + 0x8001) / 2 ^ 1) mod 2 ^ 17
  /\ (17 + 1 <= 16 -> getBits2 17 0xFFFF 0x8001 1 = getBits 17 0x8001 1)
  /\ (16 <= 1 -> getBits2 17 0xFFFF 0x8001 1 = getBits 17 0xFFFF (1 - 16)).
Proof. apply (getBits2_concatenation 17 0xFFFF 0x8001 1); lia. Defined.

(* ===================================================================== *)
(** * The Programme Item Number *)
(* ===================================================================== *)

(** X8.  [decodePIN] accepts a 16-bit word exactly when it packs a day
    1..31, an hour 0..24 and a minute 0..59 as
    [day * 2048 + hour * 64 + minute], and then reports the word and
    these three fields; hour 24 is accepted. *)
Theorem decodePIN_accepts (pin : Z) (item : ProgItem) :
  0 <= pin < 2 ^ 16 ->
  decodePIN pin = Some item
  <-> exists day hour minute : Z,
        1 <= day <= 31 /\ 0 <= hour <= 24 /\ 0 <= minute <= 59
        /\ pin = day * 2048 + hour * 64 + minute
        /\ item = {| prog_item_number := pin; prog_item_day := day;
                     prog_item_hour := hour; prog_item_minute := minute |}.
Proof.
  intros Hpin. unfold decodePIN.
  rewrite !getBits_value by lia.
  change (2 ^ 11) with 2048. change (2 ^ 6) with 64. change (2 ^ 5) with 32.
  change (2 ^ 0) with 1. rewrite Z.div_1_r.
  assert (Hday : (pin / 2048) mod 32 = pin / 2048)
    by (apply Z.mod_small; split;
        [apply Z.div_pos | apply Z.div_lt_upper_bound]; lia).
  rewrite Hday.
  split.
  - intros Hsome.
    destruct ((1 <=? pin / 2048) && ((pin / 64) mod 32 <=? 24)
              && (pin mod 64 <=? 59)) eqn:Hok; [| discriminate].
    apply andb_prop in Hok as [Hok Hmin].
    apply andb_prop in Hok as [Hd Hh].
    apply Z.leb_le in Hd, Hh, Hmin.
    exists (pin / 2048), ((pin / 64) mod 32), (pin mod 64).
    injection Hsome as <-.
    pose proof (Z.mod_pos_bound (pin / 64) 32).
    pose proof (Z.mod_pos_bound pin 64).
    assert (pin / 2048 < 32) by (apply Z.div_lt_upper_bound; lia).
    repeat split; try lia.
    change 2048 with (64 * 32). rewrite <- Z.div_div by lia.
    pose proof (Z.div_mod (pin / 64) 32). pose proof (Z.div_mod pin 64). lia.
  - intros (day & hour & minute & Hd & Hh & Hm & -> & ->).
    assert (E1 : (day * 2048 + hour * 64 + minute) / 2048 = day)
      by (symmetry; apply (Z.div_unique _ _ _ (hour * 64 + minute)); lia).
    assert (E2 : (day * 2048 + hour * 64 + minute) / 64 = day * 32 + hour)
      by (symmetry; apply (Z.div_unique _ _ _ minute); lia).
    assert (E3 : (day * 2048 + hour * 64 + minute) mod 64 = minute)
      by (symmetry; apply (Z.mod_unique _ _ (day * 32 + hour)); lia).
    assert (E4 : (day * 32 + hour) mod 32 = hour)
      by (symmetry; apply (Z.mod_unique _ _ day); lia).
    rewrite E1, E2, E3, E4.
    destruct (Z.leb_spec 1 day); [| lia].
    destruct (Z.leb_spec hour 24); [| lia].
    destruct (Z.leb_spec minute 59); [| lia].
    reflexivity.
Qed.

Lemma decodePIN_accepts_witness :
  decodePIN 0x4E00
  = Some {| prog_item_number := 0x4E00; prog_item_day := 9;
            prog_item_hour := 24; prog_item_minute := 0 |}.
Proof.
  apply (decodePIN_accepts 0x4E00); [lia |].
  exists 9, 24, 0. repeat split; lia.
Defined.

(* ===================================================================== *)
(** * Group types *)
(* ===================================================================== *)

Lemma GroupType_of_code_bits (d : Z) :
  0 <= d < 2 ^ 16 ->
  GroupType_of_code (getBits 5 d 11)
  = {| number := d / 4096;
       version := if Z.testbit d 11 then VersionB else VersionA |}.
Proof.
  intros Hd. unfold GroupType_of_code.
  rewrite getBits_value by lia.
  change (2 ^ 11) with 2048. change (2 ^ 5) with 32.
  assert (Hq : 0 <= d / 2048 < 32)
    by (split; [apply Z.div_pos | apply Z.div_lt_upper_bound]; lia).
  rewrite (Z.mod_small (d / 2048)) by lia.
  f_equal.
  - rewrite Z.shiftr_div_pow2 by lia. change 0xF with (Z.ones 4).
    rewrite Z.land_ones by lia. change (2 ^ 1) with 2.
    rewrite Z.div_div by lia. change (2048 * 2) with 4096.
    apply Z.mod_small.
    split; [apply Z.div_pos | apply Z.div_lt_upper_bound]; lia.
  - change 0x1 with (Z.ones 1). rewrite Z.land_ones by lia.
    change (2 ^ 1) with 2.
    assert (Hb : (d / 2048) mod 2 = Z.b2z (Z.testbit d 11))
      by (rewrite Z.testbit_spec' by lia; reflexivity).
    rewrite Hb. destruct (Z.testbit d 11); reflexivity.
Qed.

Lemma setBlock_block2_eq (b : Block) (g : Group) :
  let t := GroupType_of_code (getBits 5 (data b) 11) in
  type_ (setBlock BLOCK2 b g) = t
  /\ (offset b <> Cprime ->
      has_type_ (setBlock BLOCK2 b g)
      = bool_decide (version t = VersionA)
        || (has_c_prime_ g || no_offsets_ g)).
Proof.
  cbv zeta. unfold setBlock. cbv zeta.
  set (t := GroupType_of_code (getBits 5 (data b) 11)).
  destruct (bool_decide (version t = VersionA));
    destruct (bool_decide (offset b = Cprime)) eqn:Hoff;
    cbn [andb orb];
    try match goal with
        | |- context [if has ?x BLOCK2 then _ else _] => destruct (has x BLOCK2)
        end;
    (split; [reflexivity |]); intros Hne;
    first [ apply bool_decide_eq_true in Hoff; contradiction
          | reflexivity ].
Qed.

(** X9.  Installing block 2 decodes the group type from its data word:
    the number is bits 15..12 (so 0..15), the version is B exactly when
    bit 11 is set.  Unless the block itself is labelled C', [has_type]
    is then true for version A and, for version B, true only if
    [has_c_prime_] or [no_offsets_] was set before. *)
Theorem setBlock_block2_type (b : Block) (g : Group) :
  0 <= data b < 2 ^ 16 ->
  number (type_ (setBlock BLOCK2 b g)) = data b / 4096
  /\ 0 <= number (type_ (setBlock BLOCK2 b g)) <= 15
  /\ version (type_ (setBlock BLOCK2 b g))
     = (if Z.testbit (data b) 11 then VersionB else VersionA)
  /\ (offset b <> Cprime ->
      has_type_ (setBlock BLOCK2 b g)
      = negb (Z.testbit (data b) 11) || has_c_prime_ g || no_offsets_ g).
Proof.
  intros Hd.
  assert (Hq : 0 <= data b / 4096 <= 15).
  { split; [apply Z.div_pos; lia |].
    assert (data b / 4096 < 16) by (apply Z.div_lt_upper_bound; lia). lia. }
  destruct (setBlock_block2_eq b g) as [Ht Hh]. cbv zeta in Ht, Hh.
  rewrite (GroupType_of_code_bits (data b) Hd) in Ht, Hh.
  rewrite Ht. cbn [number version].
  repeat split; try lia.
  intros Hne. rewrite (Hh Hne). cbn [version].
  destruct (Z.testbit (data b) 11), (has_c_prime_ g), (no_offsets_ g);
    reflexivity.
Qed.

Lemma setBlock_block2_type_witness :
  number (type_ (setBlock BLOCK2 (received_block 0x2408 B) Group_new))
  = 0x2408 / 4096
  /\ 0 <= number (type_ (setBlock BLOCK2 (received_block 0x2408 B) Group_new))
     <= 15
  /\ version (type_ (setBlock BLOCK2 (received_block 0x2408 B) Group_new))
     = (if Z.testbit 0x2408 11 then VersionB else VersionA)
  /\ (B <> Cprime ->
      has_type_ (setBlock BLOCK2 (received_block 0x2408 B) Group_new)
      = negb (Z.testbit 0x2408 11) || false || false).
Proof.
  apply (setBlock_block2_type (received_block 0x2408 B) Group_new).
  cbn. lia.
Defined.

Lemma setBlock_frame (n : eBlockNumber) (b : Block) (g : Group) :
  has_c_prime_ (setBlock n b g) = has_c_prime_ g
  /\ no_offsets_ (setBlock n b g) = no_offsets_ g
  /\ blocks_ (setBlock n b g) = <[block_index n := b]> (blocks_ g).
Proof.
  unfold setBlock. cbv zeta.
  destruct n; cbv beta iota;
    repeat match goal with
    | |- context [if ?c then _ else _] => destruct c
    end; repeat split.
Qed.

Lemma setBlock_keeps_type (n : eBlockNumber) (b : Block) (g : Group) :
  has_c_prime_ g = false -> n <> BLOCK2 ->
  type_ (setBlock n b g) = type_ g.
Proof.
  intros Hc Hn. unfold setBlock. cbv zeta.
  destruct n; [| congruence | |]; cbv beta iota;
    cbn [set_blocks has_c_prime_]; rewrite ?Hc; cbn [andb];
    match goal with
    | |- context [if ?c then _ else _] => destruct c
    end; reflexivity.
Qed.

(** X10.  Neither [setBlock] nor [disableOffsets] sets [has_c_prime_],
    so in a group in which it is unset the branch of [setBlock] that
    would read a type 15B out of block 4 never fires: whatever blocks
    are installed and however often offsets are disabled, the type stays
    as it was until another block 2 is installed. *)
Theorem assemble_type_only_from_block2 (ops : list GroupOp) (g : Group) :
  has_c_prime_ g = false ->
  Forall (fun op => sets_block2 op = false) ops ->
  has_c_prime_ (assemble ops g) = false
  /\ type_ (assemble ops g) = type_ g.
Proof.
  unfold assemble. revert g.
  induction ops as [| op ops IH]; intros g Hc Hall; cbn [fold_left].
  - split; [exact Hc | reflexivity].
  - apply Forall_cons_1 in Hall as [Hop Hall].
    assert (Hstep : has_c_prime_ (applyOp g op) = false
                    /\ type_ (applyOp g op) = type_ g).
    { destruct op as [n b |]; cbn [applyOp].
      - destruct (setBlock_frame n b g) as (-> & _ & _).
        split; [exact Hc |].
        apply setBlock_keeps_type; [exact Hc |].
        intros ->. discriminate Hop.
      - split; [exact Hc | reflexivity]. }
    destruct Hstep as [Hc' Ht'].
    destruct (IH (applyOp g op) Hc' Hall) as [-> ->].
    split; [reflexivity | exact Ht'].
Qed.

Lemma assemble_type_only_from_block2_witness :
  has_c_prime_
    (assemble [OpSetBlock BLOCK1 (received_block 0xE242 A);
               OpDisableOffsets;
               OpSetBlock BLOCK4 (received_block 0xF800 D)] Group_new) = false
  /\ type_
       (assemble [OpSetBlock BLOCK1 (received_block 0xE242 A);
                  OpDisableOffsets;
                  OpSetBlock BLOCK4 (received_block 0xF800 D)] Group_new)
     = type_ Group_new.
Proof.
  apply (assemble_type_only_from_block2
           [OpSetBlock BLOCK1 (received_block 0xE242 A);
            OpDisableOffsets;
            OpSetBlock BLOCK4 (received_block 0xF800 D)] Group_new).
  - reflexivity.
  - repeat constructor.
Defined.

(** X11.  [operator<] on [GroupType] is a strict total order and
    [operator==] is equality of the two fields: no type is below itself,
    the order is transitive, and of [t1 < t2], [t1 == t2], [t2 < t1]
    exactly one holds. *)
Theorem GroupType_lt_strict_total (t1 t2 t3 : GroupType) :
  (GroupType_eq t1 t2 = true <-> t1 = t2)
  /\ GroupType_lt t1 t1 = false
  /\ (GroupType_lt t1 t2 = true -> GroupType_lt t2 t3 = true ->
      GroupType_lt t1 t3 = true)
  /\ (GroupType_lt t1 t2 = true /\ GroupType_eq t1 t2 = false
        /\ GroupType_lt t2 t1 = false
      \/ GroupType_lt t1 t2 = false /\ GroupType_eq t1 t2 = true
        /\ GroupType_lt t2 t1 = false
      \/ GroupType_lt t1 t2 = false /\ GroupType_eq t1 t2 = false
        /\ GroupType_lt t2 t1 = true).
Proof.
  destruct t1 as [n1 v1], t2 as [n2 v2], t3 as [n3 v3].
  unfold GroupType_eq, GroupType_lt. cbn [number version].
  repeat split.
  - intros H. apply andb_prop in H as [Hn Hv].
    apply Z.eqb_eq in Hn. apply Z.eqb_eq in Hv.
    destruct v1, v2; cbn in Hv; try discriminate; congruence.
  - intros [= -> ->]. rewrite !Z.eqb_refl. reflexivity.
  - rewrite Z.ltb_irrefl, Z.eqb_refl, Z.ltb_irrefl. reflexivity.
  - intros H12 H23.
    apply orb_prop in H12. apply orb_prop in H23.
    apply orb_true_intro.
    destruct H12 as [H12 | H12]; destruct H23 as [H23 | H23];
      rewrite ?andb_true_iff, ?Z.ltb_lt, ?Z.eqb_eq in *.
    + left. lia.
    + left. lia.
    + left. lia.
    + right. split; lia.
  - destruct (Z.ltb_spec n1 n2), (Z.ltb_spec n2 n1),
             (Z.eqb_spec n1 n2), (Z.eqb_spec n2 n1); try lia;
      destruct v1, v2; cbn; tauto.
Qed.

(* ===================================================================== *)
(** * Errors of a group *)
(* ===================================================================== *)

(** X12.  [getNumErrors] counts the blocks of the group that are missing
    or were received with errors: it lies between 0 and 4, it is 4 for
    an empty group, and it is 0 exactly when all four blocks were
    received without errors. *)
Theorem getNumErrors_counts (g : Group) :
  length (blocks_ g) = 4%nat ->
  0 <= getNumErrors g <= 4
  /\ (isEmpty g = true -> getNumErrors g = 4)
  /\ (getNumErrors g = 0
      <-> forall n : eBlockNumber,
            has g n = true /\ had_errors (block_at g n) = false).
Proof.
  intros Hlen. unfold getNumErrors, isEmpty, has, block_at.
  destruct (blocks_ g) as [| b1 [| b2 [| b3 [| b4 [| ? ?]]]]];
    try discriminate Hlen.
  cbn [fold_left].
  change ([b1; b2; b3; b4] !!! block_index BLOCK1) with b1.
  change ([b1; b2; b3; b4] !!! block_index BLOCK2) with b2.
  change ([b1; b2; b3; b4] !!! block_index BLOCK3) with b3.
  change ([b1; b2; b3; b4] !!! block_index BLOCK4) with b4.
  assert (Hall : (forall n : eBlockNumber,
                    is_received ([b1; b2; b3; b4] !!! block_index n) = true
                    /\ had_errors ([b1; b2; b3; b4] !!! block_index n) = false)
                 <-> (is_received b1 = true /\ had_errors b1 = false)
                     /\ (is_received b2 = true /\ had_errors b2 = false)
                     /\ (is_received b3 = true /\ had_errors b3 = false)
                     /\ (is_received b4 = true /\ had_errors b4 = false)).
  { split.
    - intros H. exact (conj (H BLOCK1) (conj (H BLOCK2)
                         (conj (H BLOCK3) (H BLOCK4)))).
    - intros (H1 & H2 & H3 & H4) []; assumption. }
  rewrite Hall. clear Hall.
  destruct (is_received b1), (had_errors b1), (is_received b2),
           (had_errors b2), (is_received b3), (had_errors b3),
           (is_received b4), (had_errors b4);
    cbn [orb negb]; (split; [lia |]);
    (split; [cbn; first [discriminate | reflexivity] |]);
    (split; [intros E; first [discriminate E | tauto]
            | intros (? & ? & ? & ?); intuition (first [discriminate | reflexivity])]).
Qed.

Lemma getNumErrors_counts_witness :
  0 <= getNumErrors group_E242 <= 4
  /\ (isEmpty group_E242 = true -> getNumErrors group_E242 = 4)
  /\ (getNumErrors group_E242 = 0
      <-> forall n : eBlockNumber,
            has group_E242 n = true
            /\ had_errors (block_at group_E242 n) = false).
Proof. apply (getNumErrors_counts group_E242). reflexivity. Defined.

(* ===================================================================== *)
(** * The stream after printHex *)
(* ===================================================================== *)

Lemma ostream_put_state (text : string) (s : ostream) :
  fill_char (ostream_put text s) = fill_char s
  /\ uppercase (ostream_put text s) = uppercase s
  /\ base (ostream_put text s) = base s
  /\ width (ostream_put text s) = 0%nat.
Proof. repeat split. Qed.

Lemma printHex_block_state (g : Group) (s : ostream) (n : eBlockNumber) :
  fill_char (printHex_block g s n) = fill_char s
  /\ uppercase (printHex_block g s n) = uppercase s
  /\ base (printHex_block g s n)
     = (if has g n then hex else base s)
  /\ width (printHex_block g s n) = 0%nat.
Proof.
  unfold printHex_block, has, ostream_put_unsigned. cbv zeta.
  destruct (is_received (block_at g n));
    destruct (bool_decide (n <> BLOCK4)); repeat split.
Qed.

(** X13.  [printHex] leaves its settings behind on the caller's stream:
    afterwards the fill character is '0', [uppercase] is set and no
    field width is pending, and the stream is in hexadecimal mode as
    soon as one block of the group was received; only for an empty group
    is the base left as it was. *)
Theorem printHex_stream_state (g : Group) (s : ostream) :
  fill_char (printHex g s) = "0"%char
  /\ uppercase (printHex g s) = true
  /\ width (printHex g s) = 0%nat
  /\ base (printHex g s) = (if isEmpty g then base s else hex).
Proof.
  unfold printHex. cbv zeta. cbn [fold_left].
  set (s0 := ostream_setf_uppercase (ostream_fill "0"%char s)).
  destruct (printHex_block_state g s0 BLOCK1) as (F1 & U1 & B1 & _).
  set (s1 := printHex_block g s0 BLOCK1) in *.
  destruct (printHex_block_state g s1 BLOCK2) as (F2 & U2 & B2 & _).
  set (s2 := printHex_block g s1 BLOCK2) in *.
  destruct (printHex_block_state g s2 BLOCK3) as (F3 & U3 & B3 & _).
  set (s3 := printHex_block g s2 BLOCK3) in *.
  destruct (printHex_block_state g s3 BLOCK4) as (F4 & U4 & B4 & W4).
  rewrite F4, F3, F2, F1, U4, U3, U2, U1, W4, B4, B3, B2, B1.
  unfold isEmpty.
  destruct (has g BLOCK1), (has g BLOCK2), (has g BLOCK3), (has g BLOCK4);
    repeat split.
Qed.

(* ===================================================================== *)
(** * Blocks filed by an in-sync stream *)
(* ===================================================================== *)

Lemma shift_in_bits_groups (bits : list bool) : forall bs,
  current_group_ (shift_in_bits bits bs) = current_group_ bs
  /\ ready_group_ (shift_in_bits bits bs) = ready_group_ bs
  /\ has_group_ready_ (shift_in_bits bits bs) = has_group_ready_ bs
  /\ num_bits_since_sync_lost_ (shift_in_bits bits bs)
     = num_bits_since_sync_lost_ bs
  /\ bitcount_ (shift_in_bits bits bs)
     = bitcount_ bs + Z.of_nat (length bits).
Proof.
  unfold shift_in_bits.
  induction bits as [| b bits IH]; intros bs; cbn [fold_left length].
  - repeat split. lia.
  - destruct (IH (shift_in b bs)) as (-> & -> & -> & -> & ->).
    cbn [shift_in current_group_ ready_group_ has_group_ready_
         num_bits_since_sync_lost_ bitcount_].
    repeat split. lia.
Qed.

Lemma restart_countdown_groups (bs : BlockStream) :
  current_group_ (restart_countdown bs) = current_group_ bs
  /\ ready_group_ (restart_countdown bs) = ready_group_ bs
  /\ has_group_ready_ (restart_countdown bs) = has_group_ready_ bs
  /\ num_bits_since_sync_lost_ (restart_countdown bs)
     = num_bits_since_sync_lost_ bs
  /\ bitcount_ (restart_countdown bs) = bitcount_ bs.
Proof. repeat split. Qed.

Lemma pushBlock_in_sync_eq (p : Process) (bs : BlockStream) (w : Z) :
  at_block_boundary bs ->
  pushBlock w (p, bs)
  = (p, restart_countdown
          (processBlockInSync (Z.land w kBlockBitmask)
             (getOffsetForSyndrome
                (uint16_t (calculateSyndrome (Z.land w kBlockBitmask))))
             (shift_in_bits (bits_of_block w) bs))).
Proof.
  intros [Hsync Hcount].
  destruct (shift_in_bits_fields (bits_of_block w) bs) as (Hy & _ & _ & _).
  rewrite Hsync in Hy.
  unfold pushBlock.
  rewrite pushBits_countdown; [| discriminate | rewrite Hcount; reflexivity].
  rewrite (findBlockInInputRegister_in_sync _ _ Hy).
  rewrite register_after_block. reflexivity.
Qed.

(** The group fields after one block, for any raw word and label. *)
Lemma processBlockInSync_groups (block_raw : Z) (block_offset : Offset)
    (bs : BlockStream) :
  let e := if bool_decide (expected_offset_ bs = C)
              && bool_decide (block_offset = Cprime)
           then Cprime else expected_offset_ bs in
  let correction :=
    correctBurstErrors
      {| raw := block_raw;
         data := uint16_t (Z.shiftr block_raw kCheckwordLength);
         is_received := false; had_errors := true;
         offset := block_offset |} e in
  let filed :=
    if negb (bool_decide (block_offset = e)) then
      if succeeded correction then
        Some {| raw := block_raw;
                data := uint16_t (Z.shiftr (corrected_bits correction)
                                           kCheckwordLength);
                is_received := true; had_errors := true; offset := e |}
      else None
    else
      Some {| raw := block_raw;
              data := uint16_t (Z.shiftr block_raw kCheckwordLength);
              is_received := true; had_errors := false;
              offset := block_offset |} in
  let g :=
    match filed with
    | Some blk => setBlock (getBlockNumberForOffset e) blk (current_group_ bs)
    | None => current_group_ bs
    end in
  let bs' := processBlockInSync block_raw block_offset bs in
  bitcount_ bs' = bitcount_ bs
  /\ num_bits_since_sync_lost_ bs' = num_bits_since_sync_lost_ bs
  /\ current_group_ bs'
     = (if bool_decide (getNextOffsetFor e = A) then Group_new else g)
  /\ ready_group_ bs'
     = (if bool_decide (getNextOffsetFor e = A) then g else ready_group_ bs)
  /\ has_group_ready_ bs'
     = (if bool_decide (getNextOffsetFor e = A) then true
        else has_group_ready_ bs).
Proof.
  cbv zeta. unfold processBlockInSync. cbv zeta.
  destruct (switchToCprime_fields block_offset bs) as (_ & _ & He1 & _).
  cbv zeta in He1.
  assert (Hg1 : current_group_ (switchToCprime block_offset bs) = current_group_ bs
                /\ ready_group_ (switchToCprime block_offset bs) = ready_group_ bs
                /\ has_group_ready_ (switchToCprime block_offset bs)
                   = has_group_ready_ bs
                /\ bitcount_ (switchToCprime block_offset bs) = bitcount_ bs
                /\ num_bits_since_sync_lost_ (switchToCprime block_offset bs)
                   = num_bits_since_sync_lost_ bs).
  { unfold switchToCprime.
    destruct (bool_decide (expected_offset_ bs = C)
              && bool_decide (block_offset = Cprime)); repeat split. }
  set (bs1 := switchToCprime block_offset bs) in *.
  rewrite He1.
  set (e := if bool_decide (expected_offset_ bs = C)
               && bool_decide (block_offset = Cprime)
            then Cprime else expected_offset_ bs) in *.
  set (s' := RunningSum_push (block_error_sum50_ bs1) _).
  set (bs2 := set_block_error_sum50 bs1 s').
  assert (He2 : expected_offset_ bs2 = e) by exact He1.
  assert (Hg2 : current_group_ bs2 = current_group_ bs
                /\ ready_group_ bs2 = ready_group_ bs
                /\ has_group_ready_ bs2 = has_group_ready_ bs
                /\ bitcount_ bs2 = bitcount_ bs
                /\ num_bits_since_sync_lost_ bs2 = num_bits_since_sync_lost_ bs)
    by exact Hg1.
  clearbody bs2. clear Hg1 He1. clearbody bs1. clear s'.
  destruct Hg2 as (Hc2 & Hr2 & Hh2 & Hb2 & Hn2).
  unfold correctBlock. cbn [had_errors].
  rewrite He2.
  destruct (bool_decide (block_offset = e)) eqn:Hoff; cbn [negb].
  - (* error-free *)
    apply bool_decide_eq_true in Hoff.
    unfold storeBlock. cbn [offset raw data had_errors].
    rewrite He2, (bool_decide_true (block_offset = e)) by exact Hoff.
    unfold advanceOffset. cbv zeta.
    cbn [set_current_group set_expected_offset expected_offset_].
    rewrite He2.
    destruct (bool_decide (getNextOffsetFor e = A));
      cbn [handleNewlyReceivedGroup set_current_group set_expected_offset
           bitcount_ num_bits_since_sync_lost_
           current_group_ ready_group_ has_group_ready_];
      rewrite ?Hc2, ?Hr2, ?Hh2, ?Hb2, ?Hn2; repeat split.
  - (* errored *)
    set (correction := correctBurstErrors _ e).
    clearbody correction.
    destruct (succeeded correction).
    + unfold storeBlock. cbn [offset raw data had_errors is_received].
      rewrite He2, (bool_decide_true (e = e)) by reflexivity.
      unfold advanceOffset. cbv zeta.
      cbn [set_current_group set_expected_offset expected_offset_].
      rewrite He2.
      destruct (bool_decide (getNextOffsetFor e = A));
        cbn [handleNewlyReceivedGroup set_current_group set_expected_offset
             bitcount_ num_bits_since_sync_lost_
             current_group_ ready_group_ has_group_ready_];
        rewrite ?Hc2, ?Hr2, ?Hh2, ?Hb2, ?Hn2; repeat split.
    + destruct (handleUncorrectableError_fields bs2) as (_ & _ & He3 & _).
      assert (Hg3 : current_group_ (handleUncorrectableError bs2)
                    = current_group_ bs2
                    /\ ready_group_ (handleUncorrectableError bs2)
                       = ready_group_ bs2
                    /\ has_group_ready_ (handleUncorrectableError bs2)
                       = has_group_ready_ bs2
                    /\ bitcount_ (handleUncorrectableError bs2) = bitcount_ bs2
                    /\ num_bits_since_sync_lost_ (handleUncorrectableError bs2)
                       = num_bits_since_sync_lost_ bs2).
      { unfold handleUncorrectableError.
        destruct (is_in_sync_ bs2 && (45 <? getSum (block_error_sum50_ bs2)));
          repeat split. }
      set (bs3 := handleUncorrectableError bs2) in *. clearbody bs3.
      destruct Hg3 as (Hc3 & Hr3 & Hh3 & Hb3 & Hn3).
      rewrite He2 in He3.
      unfold storeBlock. cbn [offset].
      rewrite He3, Hoff.
      unfold advanceOffset. cbv zeta.
      cbn [set_expected_offset expected_offset_].
      rewrite He3.
      destruct (bool_decide (getNextOffsetFor e = A));
        cbn [handleNewlyReceivedGroup set_current_group set_expected_offset
             bitcount_ num_bits_since_sync_lost_
             current_group_ ready_group_ has_group_ready_];
        rewrite ?Hc3, ?Hr3, ?Hh3, ?Hb3, ?Hn3, ?Hc2, ?Hr2, ?Hh2, ?Hb2, ?Hn2;
        repeat split.
Qed.

Lemma pushBlock_in_sync_groups (p : Process) (bs : BlockStream) (w : Z) :
  at_block_boundary bs ->
  let e := slot_offset (expected_offset_ bs) w in
  let g := group_after_slot (expected_offset_ bs) w (current_group_ bs) in
  let r := snd (pushBlock w (p, bs)) in
  bitcount_ r = bitcount_ bs + kBlockLength
  /\ num_bits_since_sync_lost_ r = num_bits_since_sync_lost_ bs
  /\ current_group_ r
     = (if bool_decide (getNextOffsetFor e = A) then Group_new else g)
  /\ ready_group_ r
     = (if bool_decide (getNextOffsetFor e = A) then g else ready_group_ bs)
  /\ has_group_ready_ r
     = (if bool_decide (getNextOffsetFor e = A) then true
        else has_group_ready_ bs).
Proof.
  intros Hb.
  unfold group_after_slot, filed_block, errored, slot_offset, observed_offset.
  cbv zeta.
  rewrite (pushBlock_in_sync_eq p bs w Hb).
  match goal with
  | |- context [snd (p, ?x)] => change (snd (p, x)) with x
  end.
  destruct (shift_in_bits_fields (bits_of_block w) bs) as (_ & He & _ & _).
  destruct (shift_in_bits_groups (bits_of_block w) bs)
    as (Hc & Hr & Hh & Hn & Hbit).
  rewrite bits_of_block_length in Hbit.
  pose proof (processBlockInSync_groups (Z.land w kBlockBitmask)
                (getOffsetForSyndrome
                   (uint16_t (calculateSyndrome (Z.land w kBlockBitmask))))
                (shift_in_bits (bits_of_block w) bs)) as Hp.
  cbv zeta in Hp. rewrite He, Hc, Hr, Hh, Hn, Hbit in Hp.
  destruct Hp as (H1 & H2 & H3 & H4 & H5).
  match goal with
  | |- context [restart_countdown ?x] =>
      destruct (restart_countdown_groups x) as (-> & -> & -> & -> & ->)
  end.
  rewrite H1, H2, H3, H4, H5. repeat split.
Qed.

(** X14.  One block slot of an in-sync stream whose bit count stays
    inside the range of [int] over the slot.  The 26 calls of [pushBit]
    that start at a block boundary leave the sync-pulse buffer alone,
    advance the bit count by 26 and file at most one block: an
    error-free block as received, an errored one with the corrected
    information word, none if the correction fails.  The block goes to
    the slot of the awaited offset; when that slot is the last of the
    group, the group is handed over as the ready group, with or without
    that block, and a new group is started. *)
Theorem pushBlock_files_block (p : Process) (bs : BlockStream) (w : Z) :
  at_block_boundary bs ->
  - 2 ^ 31 <= bitcount_ bs ->
  bitcount_ bs + kBlockLength < 2 ^ 31 ->
  let e := slot_offset (expected_offset_ bs) w in
  let g := group_after_slot (expected_offset_ bs) w (current_group_ bs) in
  let r := pushBlock w (p, bs) in
  fst r = p
  /\ bitcount_ (snd r) = bitcount_ bs + kBlockLength
  /\ - 2 ^ 31 <= bitcount_ (snd r) < 2 ^ 31
  /\ (getNextOffsetFor e = A ->
      current_group_ (snd r) = Group_new
      /\ ready_group_ (snd r) = g
      /\ has_group_ready_ (snd r) = true)
  /\ (getNextOffsetFor e <> A ->
      current_group_ (snd r) = g
      /\ ready_group_ (snd r) = ready_group_ bs
      /\ has_group_ready_ (snd r) = has_group_ready_ bs).
Proof.
  intros Hb Hlo Hhi. cbv zeta.
  destruct (pushBlock_in_sync_groups p bs w Hb) as (H1 & _ & H3 & H4 & H5).
  cbv zeta in H1, H3, H4, H5.
  split; [rewrite (pushBlock_in_sync_eq p bs w Hb); reflexivity |].
  split; [exact H1 |].
  split; [rewrite H1; unfold kBlockLength in *; lia |].
  split; intros Hnext.
  - rewrite (bool_decide_true _ Hnext) in H3, H4, H5. repeat split; assumption.
  - rewrite (bool_decide_false _ Hnext) in H3, H4, H5. repeat split; assumption.
Qed.

Lemma pushBlock_files_block_witness :
  at_block_boundary (stream_awaiting C)
  /\ fst (pushBlock 0x168 (Process_start, stream_awaiting C)) = Process_start.
Proof.
  assert (Hb : at_block_boundary (stream_awaiting C))
    by (split; reflexivity).
  split; [exact Hb |].
  assert (Hlo : - 2 ^ 31 <= bitcount_ (stream_awaiting C))
    by (change (bitcount_ (stream_awaiting C)) with 0; lia).
  assert (Hhi : bitcount_ (stream_awaiting C) + kBlockLength < 2 ^ 31)
    by (change (bitcount_ (stream_awaiting C) + kBlockLength) with 26; lia).
  exact (proj1 (pushBlock_files_block Process_start (stream_awaiting C)
                  0x168 Hb Hlo Hhi)).
Defined.

(* ===================================================================== *)
(** * Error-free and repaired blocks in the stream *)
(* ===================================================================== *)

Lemma observed_offset_valid (c w : Z) (O : Offset) :
  is_codeword c ->
  (O, w) ∈ offset_words ->
  observed_offset (Z.lxor c w) = O
  /\ Z.land (Z.lxor c w) kBlockBitmask = Z.lxor c w
  /\ uint16_t (Z.shiftr (Z.lxor c w) kCheckwordLength)
     = Z.shiftr c kCheckwordLength.
Proof.
  intros Hc HO.
  pose proof offset_words_recognised as Hall.
  rewrite Forall_forall in Hall.
  destruct (Hall (O, w) (proj1 (list_elem_of_In _ _) HO)) as [Hrec Hw].
  cbn [fst snd] in Hrec, Hw.
  assert (Hr : 0 <= Z.lxor c w < 2 ^ 26)
    by (apply lxor_range; [lia | apply Hc | lia]).
  assert (Hland : Z.land (Z.lxor c w) kBlockBitmask = Z.lxor c w)
    by (rewrite land_block_mask; apply Z.mod_small, Hr).
  split; [| split; [exact Hland |]].
  - unfold observed_offset. rewrite Hland.
    rewrite (syndrome_of_valid_block c w Hc). exact Hrec.
  - rewrite Z.shiftr_lxor, (offset_word_below_data O w HO), Z.lxor_0_r.
    unfold uint16_t. apply Z.mod_small.
    rewrite Z.shiftr_div_pow2 by (unfold kCheckwordLength; lia).
    destruct Hc as [Hc _]. unfold kCheckwordLength.
    split; [apply Z.div_pos; lia | apply Z.div_lt_upper_bound; lia].
Qed.

Lemma filed_block_valid (c w : Z) (O e : Offset) :
  is_codeword c ->
  (O, w) ∈ offset_words ->
  e = O \/ (e = C /\ O = Cprime) ->
  slot_offset e (Z.lxor c w) = O
  /\ errored e (Z.lxor c w) = false
  /\ filed_block e (Z.lxor c w)
     = Some {| raw := Z.lxor c w; data := Z.shiftr c kCheckwordLength;
               is_received := true; had_errors := false; offset := O |}.
Proof.
  intros Hc HO He.
  destruct (observed_offset_valid c w O Hc HO) as (Hobs & Hland & Hdata).
  assert (Hslot : slot_offset e (Z.lxor c w) = O).
  { unfold slot_offset. rewrite Hobs.
    destruct He as [-> | [-> ->]]; [| reflexivity].
    destruct O; reflexivity. }
  assert (Herr : errored e (Z.lxor c w) = false).
  { unfold errored. rewrite Hslot, Hobs.
    rewrite (bool_decide_true (O = O)) by reflexivity. reflexivity. }
  split; [exact Hslot |]. split; [exact Herr |].
  unfold filed_block. cbv zeta. rewrite Herr, Hland, Hdata, Hobs. reflexivity.
Qed.

Lemma group_after_slot_filed (e : Offset) (w : Z) (g : Group) (blk : Block) :
  filed_block e w = Some blk ->
  group_after_slot e w g
  = setBlock (getBlockNumberForOffset (slot_offset e w)) blk g.
Proof. intros H. unfold group_after_slot. rewrite H. reflexivity. Qed.

Lemma group_after_slot_none (e : Offset) (w : Z) (g : Group) :
  filed_block e w = None -> group_after_slot e w g = g.
Proof. intros H. unfold group_after_slot. rewrite H. reflexivity. Qed.

Lemma pushBlock_valid (p : Process) (bs : BlockStream) (c w : Z) (O : Offset) :
  at_block_boundary bs ->
  is_codeword c ->
  (O, w) ∈ offset_words ->
  expected_offset_ bs = O \/ (expected_offset_ bs = C /\ O = Cprime) ->
  let blk := {| raw := Z.lxor c w; data := Z.shiftr c kCheckwordLength;
                is_received := true; had_errors := false; offset := O |} in
  let g := setBlock (getBlockNumberForOffset O) blk (current_group_ bs) in
  let r := pushBlock (Z.lxor c w) (p, bs) in
  fst r = p
  /\ at_block_boundary (snd r)
  /\ expected_offset_ (snd r) = getNextOffsetFor O
  /\ block_error_sum50_ (snd r) = RunningSum_push (block_error_sum50_ bs) 0
  /\ current_group_ (snd r)
     = (if bool_decide (getNextOffsetFor O = A) then Group_new else g)
  /\ ready_group_ (snd r)
     = (if bool_decide (getNextOffsetFor O = A) then g else ready_group_ bs)
  /\ has_group_ready_ (snd r)
     = (if bool_decide (getNextOffsetFor O = A) then true
        else has_group_ready_ bs).
Proof.
  intros Hb Hc HO He. cbv zeta.
  destruct (filed_block_valid c w O (expected_offset_ bs) Hc HO He)
    as (Hslot & Herr & Hfiled).
  destruct (pushBlock_in_sync p bs (Z.lxor c w) Hb) as (Hp & Hy & Hs & Hx & Hn).
  cbv zeta in Hy, Hs, Hx, Hn.
  assert (Hunc : uncorrectable (expected_offset_ bs) (Z.lxor c w) = false)
    by (unfold uncorrectable; rewrite Herr; reflexivity).
  rewrite Hunc in Hy, Hs, Hn. rewrite Herr in Hs. rewrite Hslot in Hx.
  destruct (pushBlock_in_sync_groups p bs (Z.lxor c w) Hb)
    as (_ & _ & H3 & H4 & H5).
  cbv zeta in H3, H4, H5.
  rewrite (group_after_slot_filed _ _ _ _ Hfiled) in H3, H4.
  rewrite Hslot in H3, H4, H5.
  split; [exact Hp |]. split; [split; [exact Hy | exact Hn] |].
  repeat split; assumption.
Qed.

Lemma setBlock_plain (n : eBlockNumber) (b : Block) (g : Group) :
  n <> BLOCK2 -> has_c_prime_ g = false -> offset b <> Cprime ->
  setBlock n b g = set_blocks g (<[block_index n := b]> (blocks_ g)).
Proof.
  intros Hn Hc Hoff. unfold setBlock. cbv zeta.
  rewrite (bool_decide_false _ Hoff). cbn [andb].
  destruct n; [reflexivity | congruence | reflexivity |].
  cbn [set_blocks has_c_prime_]. rewrite Hc. reflexivity.
Qed.

Lemma setBlock_block2_plain (b : Block) (g : Group) :
  offset b <> Cprime -> has_c_prime_ g = false -> no_offsets_ g = false ->
  setBlock BLOCK2 b g
  = set_type (set_blocks g (<[1%nat := b]> (blocks_ g)))
      (GroupType_of_code (getBits 5 (data b) 11))
      (bool_decide
         (version (GroupType_of_code (getBits 5 (data b) 11)) = VersionA)).
Proof.
  intros Hoff Hc Hno. unfold setBlock. cbv zeta.
  rewrite (bool_decide_false _ Hoff). cbn [andb].
  cbn [set_blocks has_c_prime_ no_offsets_ block_index]. rewrite Hc, Hno.
  destruct (bool_decide
              (version (GroupType_of_code (getBits 5 (data b) 11)) = VersionA));
    reflexivity.
Qed.

Lemma setBlock_block3_Cprime (b : Block) (g : Group) :
  offset b = Cprime ->
  is_received (<[2%nat := b]> (blocks_ g) !!! 1%nat) = true ->
  setBlock BLOCK3 b g
  = set_type (set_blocks g (<[2%nat := b]> (blocks_ g))) (type_ g)
      (bool_decide (version (type_ g) = VersionB)).
Proof.
  intros Hoff Hrec. unfold setBlock. cbv zeta.
  rewrite (bool_decide_true _ Hoff). cbn [andb].
  unfold has, block_at. cbn [set_blocks blocks_ block_index].
  rewrite Hrec. reflexivity.
Qed.

(** The group that four received blocks A, B, C or C', D make. *)
Lemma group_of_four_blocks (b1 b2 b3 b4 : Block) :
  is_received b2 = true ->
  offset b1 = A -> offset b2 = B -> offset b4 = D ->
  let g := setBlock BLOCK4 b4
             (setBlock BLOCK3 b3 (setBlock BLOCK2 b2
                (setBlock BLOCK1 b1 Group_new))) in
  blocks_ g = [b1; b2; b3; b4]
  /\ type_ g = GroupType_of_code (getBits 5 (data b2) 11)
  /\ has_type_ g
     = bool_decide
         (version (GroupType_of_code (getBits 5 (data b2) 11))
          = (if bool_decide (offset b3 = Cprime) then VersionB else VersionA)).
Proof.
  intros Hr2 H1 H2 H4. cbv zeta.
  rewrite (setBlock_plain BLOCK1 b1 Group_new)
    by (try reflexivity; rewrite ?H1; discriminate).
  rewrite setBlock_block2_plain
    by (try reflexivity; rewrite ?H2; discriminate).
  set (t := GroupType_of_code (getBits 5 (data b2) 11)).
  cbn [Group_new set_blocks set_type blocks_ block_index type_ has_type_
       has_c_prime_ no_offsets_].
  change (<[1%nat := b2]> (<[0%nat := b1]> (replicate 4 Block_default)))
    with [b1; b2; Block_default; Block_default].
  destruct (bool_decide (offset b3 = Cprime)) eqn:H3.
  - apply bool_decide_eq_true in H3.
    rewrite setBlock_block3_Cprime by (try exact H3; exact Hr2).
    rewrite setBlock_plain
      by (try reflexivity; rewrite ?H4; discriminate).
    cbn [set_blocks set_type blocks_ block_index type_ has_type_].
    repeat split.
  - apply bool_decide_eq_false in H3.
    rewrite (setBlock_plain BLOCK3)
      by (try reflexivity; try exact H3; discriminate).
    rewrite setBlock_plain
      by (try reflexivity; rewrite ?H4; discriminate).
    cbn [set_blocks set_type blocks_ block_index type_ has_type_].
    repeat split.
Qed.

(** X15.  Four error-free blocks make a group.  An in-sync stream at a
    block boundary that awaits block A with an empty group under
    assembly is given the blocks A, B, C or C', D of four codewords.
    Then a group is ready that holds the four information words, all
    received and without errors; the PI is the word of block 1; the type
    is decoded from bits 15..11 of block 2; and [hasType] holds exactly
    when the version fits the third block (A with C, B with C').  The
    stream is again at a block boundary awaiting A, with a new group. *)
Theorem four_valid_blocks_make_group
    (p : Process) (bs : BlockStream) (c1 c2 c3 c4 w3 : Z) (O3 : Offset) :
  at_block_boundary bs ->
  expected_offset_ bs = A ->
  current_group_ bs = Group_new ->
  is_codeword c1 -> is_codeword c2 -> is_codeword c3 -> is_codeword c4 ->
  (O3, w3) ∈ offset_words ->
  O3 = C \/ O3 = Cprime ->
  let r := snd (pushBlocks [Z.lxor c1 0x0FC; Z.lxor c2 0x198;
                            Z.lxor c3 w3; Z.lxor c4 0x1B4] (p, bs)) in
  let g := ready_group_ r in
  (has_group_ready_ r = true /\ current_group_ r = Group_new
   /\ at_block_boundary r /\ expected_offset_ r = A)
  /\ (getBlock g BLOCK1 = Z.shiftr c1 kCheckwordLength
      /\ getBlock g BLOCK2 = Z.shiftr c2 kCheckwordLength
      /\ getBlock g BLOCK3 = Z.shiftr c3 kCheckwordLength
      /\ getBlock g BLOCK4 = Z.shiftr c4 kCheckwordLength)
  /\ ((forall n : eBlockNumber, has g n = true) /\ getNumErrors g = 0
      /\ offset (block_at g BLOCK3) = O3)
  /\ (hasPI g = true /\ getPI g = Z.shiftr c1 kCheckwordLength)
  /\ getType g
     = GroupType_of_code (getBits 5 (Z.shiftr c2 kCheckwordLength) 11)
  /\ hasType g
     = bool_decide
         (version (getType g)
          = (if bool_decide (O3 = Cprime) then VersionB else VersionA)).
Proof.
  intros Hb HeA Hnew Hc1 Hc2 Hc3 Hc4 HO3 H3. cbv zeta.
  assert (HA : (A, 0x0FC) ∈ offset_words) by (unfold offset_words; solve_elem_of).
  assert (HB : (B, 0x198) ∈ offset_words) by (unfold offset_words; solve_elem_of).
  assert (HD : (D, 0x1B4) ∈ offset_words) by (unfold offset_words; solve_elem_of).
  rewrite !pushBlocks_cons.
  change (pushBlocks [] ?st) with st.
  (* block 1 *)
  destruct (pushBlock_valid p bs c1 0x0FC A Hb Hc1 HA (or_introl HeA))
    as (Hp1 & Hb1 & He1 & _ & Hg1 & Hr1 & Hh1).
  cbv zeta in Hg1, Hr1, Hh1. rewrite Hnew in Hg1.
  destruct (pushBlock (Z.lxor c1 0x0FC) (p, bs)) as [p1 bs1].
  change (fst (p1, bs1)) with p1 in Hp1.
  change (snd (p1, bs1)) with bs1 in Hb1, He1, Hg1, Hr1, Hh1.
  subst p1.
  change (bool_decide (getNextOffsetFor A = A)) with false in Hg1.
  change (getNextOffsetFor A) with B in He1.
  (* block 2 *)
  destruct (pushBlock_valid p bs1 c2 0x198 B Hb1 Hc2 HB (or_introl He1))
    as (Hp2 & Hb2 & He2 & _ & Hg2 & Hr2 & Hh2).
  cbv zeta in Hg2, Hr2, Hh2. rewrite Hg1 in Hg2.
  destruct (pushBlock (Z.lxor c2 0x198) (p, bs1)) as [p2 bs2].
  change (fst (p2, bs2)) with p2 in Hp2.
  change (snd (p2, bs2)) with bs2 in Hb2, He2, Hg2, Hr2, Hh2.
  subst p2.
  change (bool_decide (getNextOffsetFor B = A)) with false in Hg2.
  change (getNextOffsetFor B) with C in He2.
  (* block 3 *)
  assert (He3' : expected_offset_ bs2 = O3
                 \/ (expected_offset_ bs2 = C /\ O3 = Cprime))
    by (destruct H3 as [-> | ->]; [left | right]; auto).
  destruct (pushBlock_valid p bs2 c3 w3 O3 Hb2 Hc3 HO3 He3')
    as (Hp3 & Hb3 & He3 & _ & Hg3 & Hr3 & Hh3).
  cbv zeta in Hg3, Hr3, Hh3. rewrite Hg2 in Hg3.
  destruct (pushBlock (Z.lxor c3 w3) (p, bs2)) as [p3 bs3].
  change (fst (p3, bs3)) with p3 in Hp3.
  change (snd (p3, bs3)) with bs3 in Hb3, He3, Hg3, Hr3, Hh3.
  subst p3.
  assert (Hnext3 : getNextOffsetFor O3 = D)
    by (destruct H3 as [-> | ->]; reflexivity).
  assert (Hnum3 : getBlockNumberForOffset O3 = BLOCK3)
    by (destruct H3 as [-> | ->]; reflexivity).
  rewrite Hnext3 in He3, Hg3. rewrite Hnum3 in Hg3.
  change (bool_decide (D = A)) with false in Hg3.
  (* block 4 *)
  destruct (pushBlock_valid p bs3 c4 0x1B4 D Hb3 Hc4 HD (or_introl He3))
    as (Hp4 & Hb4 & He4 & _ & Hg4 & Hr4 & Hh4).
  cbv zeta in Hg4, Hr4, Hh4. rewrite Hg3 in Hr4.
  destruct (pushBlock (Z.lxor c4 0x1B4) (p, bs3)) as [p4 bs4].
  change (snd (p4, bs4)) with bs4 in Hb4, He4, Hg4, Hr4, Hh4 |- *.
  change (bool_decide (getNextOffsetFor D = A)) with true in Hg4, Hr4, Hh4.
  change (getNextOffsetFor D) with A in He4.
  change (getBlockNumberForOffset A) with BLOCK1 in Hr4.
  change (getBlockNumberForOffset B) with BLOCK2 in Hr4.
  change (getBlockNumberForOffset D) with BLOCK4 in Hr4.
  (* the group *)
  set (b1 := {| raw := Z.lxor c1 0x0FC; data := Z.shiftr c1 kCheckwordLength;
                is_received := true; had_errors := false; offset := A |}) in *.
  set (b2 := {| raw := Z.lxor c2 0x198; data := Z.shiftr c2 kCheckwordLength;
                is_received := true; had_errors := false; offset := B |}) in *.
  set (b3 := {| raw := Z.lxor c3 w3; data := Z.shiftr c3 kCheckwordLength;
                is_received := true; had_errors := false; offset := O3 |}) in *.
  set (b4 := {| raw := Z.lxor c4 0x1B4; data := Z.shiftr c4 kCheckwordLength;
                is_received := true; had_errors := false; offset := D |}) in *.
  destruct (group_of_four_blocks b1 b2 b3 b4 eq_refl eq_refl eq_refl eq_refl)
    as (Hblocks & Htype & Hhas).
  cbv zeta in Hblocks, Htype, Hhas. rewrite <- Hr4 in Hblocks, Htype, Hhas.
  clear Hr4 Hg3 Hg2 Hg1.
  unfold getBlock, has, hasPI, getPI, getType, hasType, getNumErrors, block_at.
  rewrite Hblocks, Htype, Hhas.
  split; [repeat split; try assumption; apply Hb4 |].
  split; [repeat split |].
  split; [split; [intros []; reflexivity | split; reflexivity] |].
  split; [split; reflexivity |].
  split; reflexivity.
Qed.

Lemma four_valid_blocks_make_group_witness :
  has_group_ready_
    (snd (pushBlocks [Z.lxor 0x3890BC2 0x0FC; Z.lxor 0 0x198;
                      Z.lxor 0 0x350; Z.lxor 0 0x1B4]
            (Process_start, stream_awaiting A))) = true.
Proof.
  assert (H0 : is_codeword 0) by (split; [lia | reflexivity]).
  assert (H1 : is_codeword 0x3890BC2) by (split; [lia | reflexivity]).
  assert (HO : (Cprime, 0x350) ∈ offset_words)
    by (unfold offset_words; solve_elem_of).
  exact (proj1 (proj1 (four_valid_blocks_make_group Process_start
                         (stream_awaiting A) 0x3890BC2 0 0 0 0x350 Cprime
                         (conj eq_refl eq_refl) eq_refl eq_refl
                         H1 H0 H0 H0 HO (or_intror eq_refl)))).
Defined.

(** A burst on a valid block never yields the syndrome of its own
    offset, nor, on a block C, that of C'. *)
Lemma burst_never_recognised :
  Forall (fun E =>
    Forall (fun ow : Offset * Z =>
      getOffsetForSyndrome (uint16_t (calculateSyndrome (Z.lxor E (snd ow))))
      <> fst ow
      /\ (fst ow = C ->
          getOffsetForSyndrome
            (uint16_t (calculateSyndrome (Z.lxor E (snd ow)))) <> Cprime))
      offset_words) burst_errors.
Proof. apply (bool_decide_unpack _). vm_compute. exact I. Qed.

Lemma burst_error_range (E : Z) : is_burst_error E -> 0 <= E < 2 ^ 26.
Proof.
  intros HE. apply is_burst_error_listed, list_elem_of_In in HE.
  revert E HE. apply Forall_forall.
  apply (bool_decide_unpack _). vm_compute. exact I.
Qed.

Lemma filed_block_burst (c w E : Z) (O : Offset) :
  is_codeword c ->
  (O, w) ∈ offset_words ->
  is_burst_error E ->
  slot_offset O (Z.lxor (Z.lxor c w) E) = O
  /\ errored O (Z.lxor (Z.lxor c w) E) = true
  /\ uncorrectable O (Z.lxor (Z.lxor c w) E) = false
  /\ filed_block O (Z.lxor (Z.lxor c w) E)
     = Some {| raw := Z.lxor (Z.lxor c w) E;
               data := Z.shiftr c kCheckwordLength;
               is_received := true; had_errors := true; offset := O |}.
Proof.
  intros Hc HO HE.
  destruct (observed_offset_valid c w O Hc HO) as (_ & Hlandv & Hdata).
  pose proof (burst_error_range E HE) as HEr.
  assert (Hr : 0 <= Z.lxor (Z.lxor c w) E < 2 ^ 26).
  { apply lxor_range; [lia | | exact HEr].
    rewrite <- Hlandv, land_block_mask. apply Z.mod_pos_bound. lia. }
  assert (Hland : Z.land (Z.lxor (Z.lxor c w) E) kBlockBitmask
                  = Z.lxor (Z.lxor c w) E)
    by (rewrite land_block_mask; apply Z.mod_small, Hr).
  assert (Hsyn : calculateSyndrome (Z.lxor (Z.lxor c w) E)
                 = calculateSyndrome (Z.lxor E w)).
  { destruct Hc as [_ Hc0].
    rewrite !calculateSyndrome_lxor, Hc0, Z.lxor_0_l. apply Z.lxor_comm. }
  pose proof burst_never_recognised as Hnever.
  rewrite Forall_forall in Hnever.
  specialize (Hnever E (proj1 (list_elem_of_In _ _) (is_burst_error_listed E HE))).
  rewrite Forall_forall in Hnever.
  destruct (Hnever (O, w) (proj1 (list_elem_of_In _ _) HO)) as [Hne HneC].
  cbn [fst snd] in Hne, HneC.
  pose proof error_lookup_table_complete as Hall.
  rewrite Forall_forall in Hall.
  specialize (Hall E (proj1 (list_elem_of_In _ _) (is_burst_error_listed E HE))).
  rewrite Forall_forall in Hall.
  specialize (Hall (O, w) (proj1 (list_elem_of_In _ _) HO)).
  cbn [fst snd] in Hall.
  rewrite <- Hsyn in Hne, HneC, Hall.
  set (w' := Z.lxor (Z.lxor c w) E) in *.
  assert (Hobs : observed_offset w'
                 = getOffsetForSyndrome (uint16_t (calculateSyndrome w')))
    by (unfold observed_offset; rewrite Hland; reflexivity).
  assert (Hslot : slot_offset O w' = O).
  { unfold slot_offset. rewrite Hobs.
    destruct (bool_decide (O = C)) eqn:HOC; [| reflexivity].
    apply bool_decide_eq_true in HOC.
    rewrite (bool_decide_false _ (HneC HOC)). reflexivity. }
  assert (Herr : errored O w' = true).
  { unfold errored. rewrite Hslot, Hobs.
    rewrite (bool_decide_false _ Hne). reflexivity. }
  assert (Hcorr : forall blk : Block,
            raw blk = w' ->
            correctBurstErrors blk O
            = {| succeeded := true; corrected_bits := Z.lxor c w |}).
  { intros blk Hraw. unfold correctBurstErrors. rewrite Hraw, Hall.
    f_equal. unfold w'.
    rewrite Z.lxor_assoc, Z.lxor_nilpotent, Z.lxor_0_r. reflexivity. }
  split; [exact Hslot |]. split; [exact Herr |]. split.
  - unfold uncorrectable. rewrite Herr, Hslot, Hland.
    rewrite Hcorr by reflexivity. reflexivity.
  - unfold filed_block. cbv zeta. rewrite Herr, Hslot, Hland.
    rewrite Hcorr by reflexivity. cbn [succeeded corrected_bits].
    rewrite Hdata. reflexivity.
Qed.

(** X16.  A block with a burst error is repaired inside the stream.  An
    in-sync stream at a block boundary awaits offset [O] and receives a
    valid block of that offset in which one bit, or two adjacent bits,
    are flipped.  The block is counted as errored in the 50-block
    window, the stream stays in sync, and the block is filed in its slot
    with the information word of the original codeword, marked
    [had_errors]. *)
Theorem pushBlock_repairs_burst
    (p : Process) (bs : BlockStream) (c w E : Z) (O : Offset) :
  at_block_boundary bs ->
  expected_offset_ bs = O ->
  is_codeword c ->
  (O, w) ∈ offset_words ->
  is_burst_error E ->
  let blk := {| raw := Z.lxor (Z.lxor c w) E;
                data := Z.shiftr c kCheckwordLength;
                is_received := true; had_errors := true; offset := O |} in
  let g := setBlock (getBlockNumberForOffset O) blk (current_group_ bs) in
  let r := snd (pushBlock (Z.lxor (Z.lxor c w) E) (p, bs)) in
  at_block_boundary r
  /\ expected_offset_ r = getNextOffsetFor O
  /\ block_error_sum50_ r = RunningSum_push (block_error_sum50_ bs) 1
  /\ (if bool_decide (O = D) then ready_group_ r else current_group_ r) = g.
Proof.
  intros Hb He Hc HO HE. cbv zeta. subst O.
  destruct (filed_block_burst c w E (expected_offset_ bs) Hc HO HE)
    as (Hslot & Herr & Hunc & Hfiled).
  destruct (pushBlock_in_sync p bs (Z.lxor (Z.lxor c w) E) Hb)
    as (_ & Hy & Hs & Hx & Hn).
  cbv zeta in Hy, Hs, Hx, Hn.
  rewrite Hunc in Hy, Hs, Hn. rewrite Herr in Hs. rewrite Hslot in Hx.
  destruct (pushBlock_in_sync_groups p bs (Z.lxor (Z.lxor c w) E) Hb)
    as (_ & _ & H3 & H4 & _).
  cbv zeta in H3, H4.
  rewrite (group_after_slot_filed _ _ _ _ Hfiled) in H3, H4.
  rewrite Hslot in H3, H4.
  split; [split; [exact Hy | exact Hn] |].
  split; [exact Hx |]. split; [exact Hs |].
  assert (HO' : In (expected_offset_ bs) [A; B; C; Cprime; D]).
  { apply list_elem_of_In in HO. cbn in HO |- *.
    repeat (destruct HO as [HO | HO];
            [injection HO as <- _; tauto |]). destruct HO. }
  cbn in HO'.
  destruct HO' as [HO' | [HO' | [HO' | [HO' | [HO' | []]]]]];
    rewrite <- HO' in H3, H4 |- *.
  - exact H3.
  - exact H3.
  - exact H3.
  - exact H3.
  - exact H4.
Qed.

Lemma pushBlock_repairs_burst_witness :
  expected_offset_
    (snd (pushBlock (Z.lxor (Z.lxor 0x3890BC2 0x198) 0x6000)
            (Process_start, stream_awaiting B)))
  = getNextOffsetFor B.
Proof.
  assert (Hc : is_codeword 0x3890BC2) by (split; [lia | reflexivity]).
  assert (HO : (B, 0x198) ∈ offset_words)
    by (unfold offset_words; solve_elem_of).
  assert (HE : is_burst_error 0x6000)
    by (exists 13%nat; right; split; [lia | reflexivity]).
  exact (proj1 (proj2 (pushBlock_repairs_burst Process_start
                         (stream_awaiting B) 0x3890BC2 0x198 0x6000 B
                         (conj eq_refl eq_refl) eq_refl Hc HO HE))).
Defined.

(* ===================================================================== *)
(** * The countdown and the bit count *)
(* ===================================================================== *)

Lemma acquireSync_out_of_sync (blk : Block) (p : Process) (bs : BlockStream)
    (off : Offset) :
  offset blk = off ->
  is_in_sync_ bs = false ->
  fst (acquireSync blk (p, bs)) = pulse_taken p off (bitcount_ bs)
  /\ is_in_sync_ (snd (acquireSync blk (p, bs)))
     = sync_found p off (bitcount_ bs)
  /\ expected_offset_ (snd (acquireSync blk (p, bs)))
     = (if sync_found p off (bitcount_ bs) then off else expected_offset_ bs)
  /\ current_group_ (snd (acquireSync blk (p, bs)))
     = (if sync_found p off (bitcount_ bs) then Group_new
        else current_group_ bs)
  /\ num_bits_since_sync_lost_ (snd (acquireSync blk (p, bs)))
     = (if sync_found p off (bitcount_ bs) then 0
        else size_t (num_bits_since_sync_lost_ bs + 1))
  /\ (bitcount_ (snd (acquireSync blk (p, bs))) = bitcount_ bs
      /\ input_register_ (snd (acquireSync blk (p, bs))) = input_register_ bs
      /\ block_error_sum50_ (snd (acquireSync blk (p, bs)))
         = block_error_sum50_ bs
      /\ ready_group_ (snd (acquireSync blk (p, bs))) = ready_group_ bs
      /\ has_group_ready_ (snd (acquireSync blk (p, bs)))
         = has_group_ready_ bs).
Proof.
  intros Hoff Hsync. unfold acquireSync, sync_found, pulse_taken.
  rewrite Hsync, Hoff.
  destruct (bool_decide (off = invalid)); cbn [negb andb].
  - repeat split.
  - cbn [sync_buffer].
    destruct (isSequenceFound
                (SyncPulseBuffer_push (sync_buffer p) off (bitcount_ bs)));
      repeat split.
Qed.

Lemma acquireSync_bitcount (blk : Block) (st : Process * BlockStream) :
  bitcount_ (snd (acquireSync blk st)) = bitcount_ (snd st).
Proof.
  destruct st as [p bs]. cbn [snd].
  destruct (is_in_sync_ bs) eqn:Hsync.
  - unfold acquireSync. rewrite Hsync. reflexivity.
  - apply (acquireSync_out_of_sync blk p bs (offset blk) eq_refl Hsync).
Qed.

Lemma findBlockInInputRegister_bitcount (st : Process * BlockStream) :
  bitcount_ (snd (findBlockInInputRegister st)) = bitcount_ (snd st).
Proof.
  unfold findBlockInInputRegister. cbv zeta.
  set (raw := Z.land (input_register_ (snd st)) kBlockBitmask).
  set (off := getOffsetForSyndrome (uint16_t (calculateSyndrome raw))).
  clearbody off. clearbody raw.
  pose proof (acquireSync_bitcount
                {| raw := raw; data := 0; is_received := false;
                   had_errors := false; offset := off |} st) as Hb.
  destruct (acquireSync _ st) as [p bs]. cbn [snd] in Hb.
  destruct (is_in_sync_ bs); cbn [snd]; [| exact Hb].
  destruct (processBlockInSync_groups raw off bs) as (-> & _). exact Hb.
Qed.

Lemma pushBit_countdown_ok (bit : bool) (st : Process * BlockStream) :
  countdown_ok (snd st) ->
  countdown_ok (snd (pushBit bit st))
  /\ bitcount_ (snd (pushBit bit st)) = bitcount_ (snd st) + 1.
Proof.
  destruct st as [p bs]. cbn [snd]. intros [Hrange Hout].
  unfold pushBit. cbv zeta. cbn [shift_in num_bits_until_next_block_].
  destruct (Z.eqb_spec (num_bits_until_next_block_ bs - 1) 0) as [Hz | Hnz].
  - pose proof (findBlockInInputRegister_bitcount (p, shift_in bit bs)) as Hbit.
    destruct (findBlockInInputRegister (p, shift_in bit bs)) as [p' bs'].
    cbn [snd shift_in bitcount_] in Hbit |- *.
    split; [| exact Hbit].
    unfold countdown_ok. cbn [restart_countdown num_bits_until_next_block_
                               is_in_sync_].
    unfold kBlockLength. destruct (is_in_sync_ bs'); split; try lia; congruence.
  - cbn [snd shift_in bitcount_]. split; [| reflexivity].
    unfold countdown_ok. cbn [shift_in num_bits_until_next_block_ is_in_sync_].
    split; [lia |]. intros Hsync. specialize (Hout Hsync). lia.
Qed.

Lemma acquireSync_process (blk : Block) (st : Process * BlockStream) :
  fst (acquireSync blk st) = fst st
  \/ fst (acquireSync blk st)
     = {| sync_buffer :=
            SyncPulseBuffer_push (sync_buffer (fst st)) (offset blk)
                                 (bitcount_ (snd st)) |}.
Proof.
  destruct st as [p bs]. cbn [fst snd]. unfold acquireSync.
  destruct (is_in_sync_ bs); [left; reflexivity |].
  cbv zeta. destruct (bool_decide (offset blk = invalid)); [left; reflexivity |].
  cbn [sync_buffer].
  destruct (isSequenceFound _); right; reflexivity.
Qed.

Lemma findBlockInInputRegister_process (st : Process * BlockStream) :
  exists off : Offset,
    fst (findBlockInInputRegister st) = fst st
    \/ fst (findBlockInInputRegister st)
       = {| sync_buffer :=
              SyncPulseBuffer_push (sync_buffer (fst st)) off
                                   (bitcount_ (snd st)) |}.
Proof.
  unfold findBlockInInputRegister. cbv zeta.
  generalize (getOffsetForSyndrome
                (uint16_t (calculateSyndrome
                   (Z.land (input_register_ (snd st)) kBlockBitmask)))) as off.
  generalize (Z.land (input_register_ (snd st)) kBlockBitmask) as raw.
  intros raw off. exists off.
  pose proof (acquireSync_process
                {| raw := raw; data := 0; is_received := false;
                   had_errors := false; offset := off |} st) as Hp.
  cbn [offset] in Hp.
  destruct (acquireSync _ st) as [p bs]. cbn [fst] in Hp.
  destruct (is_in_sync_ bs); cbn [fst]; exact Hp.
Qed.

Lemma pushBit_process (bit : bool) (st : Process * BlockStream) :
  exists off : Offset,
    fst (pushBit bit st) = fst st
    \/ fst (pushBit bit st)
       = {| sync_buffer :=
              SyncPulseBuffer_push (sync_buffer (fst st)) off
                                   (bitcount_ (snd st) + 1) |}.
Proof.
  destruct st as [p bs]. unfold pushBit. cbv zeta.
  destruct (num_bits_until_next_block_ (shift_in bit bs) =? 0).
  - destruct (findBlockInInputRegister_process (p, shift_in bit bs))
      as [off Hp].
    exists off.
    destruct (findBlockInInputRegister (p, shift_in bit bs)) as [p' bs'].
    cbn [fst snd shift_in bitcount_] in Hp |- *. exact Hp.
  - exists invalid. left. reflexivity.
Qed.

Lemma pushBit_bitcount (bit : bool) (st : Process * BlockStream) :
  bitcount_ (snd (pushBit bit st)) = bitcount_ (snd st) + 1.
Proof.
  destruct st as [p bs]. unfold pushBit. cbv zeta.
  destruct (num_bits_until_next_block_ (shift_in bit bs) =? 0).
  - pose proof (findBlockInInputRegister_bitcount (p, shift_in bit bs)) as Hbit.
    destruct (findBlockInInputRegister (p, shift_in bit bs)) as [p' bs'].
    cbn [snd shift_in bitcount_] in Hbit |- *. exact Hbit.
  - reflexivity.
Qed.

Lemma SyncPulseBuffer_push_fit (pulses : SyncPulseBuffer) (off : Offset)
    (bitcount : Z) :
  length pulses = 4%nat ->
  pulses_fit pulses ->
  - 2 ^ 30 <= bitcount < 2 ^ 30 ->
  length (SyncPulseBuffer_push pulses off bitcount) = 4%nat
  /\ pulses_fit (SyncPulseBuffer_push pulses off bitcount).
Proof.
  intros Hlen Hfit Hb.
  destruct pulses as [| p0 [| p1 [| p2 [| p3 [| ? ?]]]]];
    try discriminate Hlen.
  change (SyncPulseBuffer_push [p0; p1; p2; p3] off bitcount)
    with [p1; p2; p3; {| pulse_offset := off; pulse_bitcount := bitcount |}].
  split; [reflexivity |].
  unfold pulses_fit in *.
  apply Forall_cons_1 in Hfit as [_ Hfit].
  apply Forall_cons_1 in Hfit as [H1 Hfit].
  apply Forall_cons_1 in Hfit as [H2 Hfit].
  apply Forall_cons_1 in Hfit as [H3 _].
  repeat apply Forall_cons_2; cbn [pulse_bitcount]; try lia.
  apply Forall_nil_2.
Qed.

Lemma pushBit_counts_fit (bit : bool) (st : Process * BlockStream) (n : Z) :
  0 <= n ->
  counts_fit st (n + 1) ->
  counts_fit (pushBit bit st) n.
Proof.
  intros Hn (Hlen & Hfit & Hlo & Hhi).
  pose proof (pushBit_bitcount bit st) as Hbit.
  destruct (pushBit_process bit st) as [off [Hp | Hp]];
    unfold counts_fit; rewrite Hp, Hbit.
  - repeat split; try assumption; lia.
  - cbn [sync_buffer].
    destruct (SyncPulseBuffer_push_fit (sync_buffer (fst st)) off
                (bitcount_ (snd st) + 1) Hlen Hfit ltac:(lia)) as [Hlen' Hfit'].
    repeat split; try assumption; lia.
Qed.

(** X17.  The countdown to the next block search.  The bounds hold for
    a new stream and are kept by every bit pushed:
    [num_bits_until_next_block_] stays between 1 and 26 and is 1
    whenever the stream is out of sync, so an out-of-sync stream
    examines its register after every bit and an in-sync stream once
    per 26 bits.  The bit count grows by one per bit, as long as it and
    the bit counts of the sync pulses stay in the range in which the
    [int] arithmetic of the source is exact; the bits pushed keep them
    there. *)
Theorem pushBits_countdown_invariant
    (bits : list bool) (st : Process * BlockStream) :
  countdown_ok (snd st) ->
  counts_fit st (Z.of_nat (length bits)) ->
  countdown_ok (snd (pushBits bits st))
  /\ bitcount_ (snd (pushBits bits st))
     = bitcount_ (snd st) + Z.of_nat (length bits)
  /\ counts_fit (pushBits bits st) 0.
Proof.
  unfold pushBits. revert st.
  induction bits as [| bit bits IH]; intros st Hok Hfit;
    cbn [fold_left length] in *.
  - split; [exact Hok |]. split; [lia | exact Hfit].
  - destruct (pushBit_countdown_ok bit st Hok) as [Hok' Hbit].
    assert (Hfit' : counts_fit (pushBit bit st) (Z.of_nat (length bits))).
    { apply pushBit_counts_fit; [lia |].
      replace (Z.of_nat (length bits) + 1)
        with (Z.of_nat (S (length bits))) by lia.
      exact Hfit. }
    destruct (IH (pushBit bit st) Hok' Hfit') as (IH1 & IH2 & IH3).
    split; [exact IH1 |]. split; [rewrite IH2, Hbit; lia | exact IH3].
Qed.

Lemma pushBits_countdown_invariant_witness :
  countdown_ok (snd (pushBits [true; false; true]
                       (Process_start, BlockStream_new))).
Proof.
  apply (pushBits_countdown_invariant [true; false; true]
           (Process_start, BlockStream_new)).
  - split; [cbn; unfold kBlockLength; lia | reflexivity].
  - split; [reflexivity |]. split.
    + unfold pulses_fit. repeat constructor; cbn; lia.
    + cbn. lia.
Defined.

(* ===================================================================== *)
(** * Searching for sync *)
(* ===================================================================== *)

Lemma pushBit_search (bit : bool) (p : Process) (bs : BlockStream) :
  num_bits_until_next_block_ bs = 1 ->
  pushBit bit (p, bs)
  = (fst (findBlockInInputRegister (p, shift_in bit bs)),
     restart_countdown (snd (findBlockInInputRegister (p, shift_in bit bs)))).
Proof.
  intros Hn. unfold pushBit. cbv zeta.
  cbn [shift_in num_bits_until_next_block_]. rewrite Hn.
  change (1 - 1 =? 0) with true. cbv iota.
  destruct (findBlockInInputRegister _) as [p' bs']. reflexivity.
Qed.

Lemma findBlockInInputRegister_unfold (st : Process * BlockStream)
    (block_raw : Z) (block_offset : Offset) :
  block_raw = Z.land (input_register_ (snd st)) kBlockBitmask ->
  block_offset = getOffsetForSyndrome (uint16_t (calculateSyndrome block_raw)) ->
  findBlockInInputRegister st
  = (let '(p, bs) :=
       acquireSync {| raw := block_raw; data := 0; is_received := false;
                      had_errors := false; offset := block_offset |} st in
     if is_in_sync_ bs then (p, processBlockInSync block_raw block_offset bs)
     else (p, bs)).
Proof.
  intros Hraw Hoff. unfold findBlockInInputRegister. cbv zeta.
  rewrite <- Hraw, <- Hoff. reflexivity.
Qed.

Lemma observed_offset_unfold (w : Z) :
  observed_offset w
  = getOffsetForSyndrome
      (uint16_t (calculateSyndrome (Z.land w kBlockBitmask))).
Proof. reflexivity. Qed.

Lemma shift_in_fields (bit : bool) (bs : BlockStream) :
  input_register_ (shift_in bit bs)
  = uint32_t (Z.shiftl (input_register_ bs) 1 + bool_to_Z bit)
  /\ is_in_sync_ (shift_in bit bs) = is_in_sync_ bs
  /\ bitcount_ (shift_in bit bs) = bitcount_ bs + 1
  /\ num_bits_since_sync_lost_ (shift_in bit bs) = num_bits_since_sync_lost_ bs
  /\ expected_offset_ (shift_in bit bs) = expected_offset_ bs
  /\ block_error_sum50_ (shift_in bit bs) = block_error_sum50_ bs
  /\ current_group_ (shift_in bit bs) = current_group_ bs
  /\ ready_group_ (shift_in bit bs) = ready_group_ bs
  /\ has_group_ready_ (shift_in bit bs) = has_group_ready_ bs.
Proof. repeat split. Qed.

(** X18.  A bit pushed into an out-of-sync stream that does not bring
    sync changes only the register and the counters: the bit count and
    [num_bits_since_sync_lost_] grow by one, the next bit is examined
    again, and the groups, the awaited offset and the error window are
    as before.  The sync-pulse buffer takes a pulse exactly when the low
    26 register bits have the syndrome of an offset word.  The bit
    count and the buffered pulses are taken in the range in which the
    [int] arithmetic of the source is exact. *)
Theorem pushBit_keeps_searching (bit : bool) (p : Process) (bs : BlockStream) :
  counts_fit (p, bs) 1 ->
  is_in_sync_ bs = false ->
  num_bits_until_next_block_ bs = 1 ->
  is_in_sync_ (snd (pushBit bit (p, bs))) = false ->
  let reg := uint32_t (Z.shiftl (input_register_ bs) 1 + bool_to_Z bit) in
  let r := pushBit bit (p, bs) in
  fst r = pulse_taken p (observed_offset reg) (bitcount_ bs + 1)
  /\ input_register_ (snd r) = reg
  /\ bitcount_ (snd r) = bitcount_ bs + 1
  /\ num_bits_since_sync_lost_ (snd r)
     = size_t (num_bits_since_sync_lost_ bs + 1)
  /\ num_bits_until_next_block_ (snd r) = 1
  /\ expected_offset_ (snd r) = expected_offset_ bs
  /\ block_error_sum50_ (snd r) = block_error_sum50_ bs
  /\ current_group_ (snd r) = current_group_ bs
  /\ ready_group_ (snd r) = ready_group_ bs
  /\ has_group_ready_ (snd r) = has_group_ready_ bs.
Proof.
  intros _ Hsync Hn. cbv zeta. rewrite observed_offset_unfold.
  rewrite (pushBit_search bit p bs Hn). cbn [fst snd].
  destruct (shift_in_fields bit bs)
    as (Hreg & Hy0 & Hb0 & Hl0 & He0 & Hs0 & Hc0 & Hr0 & Hh0).
  rewrite Hsync in Hy0.
  rewrite (findBlockInInputRegister_unfold (p, shift_in bit bs)
             (Z.land (uint32_t (Z.shiftl (input_register_ bs) 1
                                + bool_to_Z bit)) kBlockBitmask)
             (getOffsetForSyndrome
                (uint16_t (calculateSyndrome
                   (Z.land (uint32_t (Z.shiftl (input_register_ bs) 1
                                      + bool_to_Z bit)) kBlockBitmask)))))
    by (cbn [snd]; rewrite ?Hreg; reflexivity).
  revert Hreg Hy0 Hb0 Hl0 He0 Hs0 Hc0 Hr0 Hh0.
  generalize (shift_in bit bs) as bs0.
  generalize (getOffsetForSyndrome
                (uint16_t (calculateSyndrome
                   (Z.land (uint32_t (Z.shiftl (input_register_ bs) 1
                                      + bool_to_Z bit)) kBlockBitmask))))
    as off.
  generalize (Z.land (uint32_t (Z.shiftl (input_register_ bs) 1
                                + bool_to_Z bit)) kBlockBitmask) as raw.
  generalize (uint32_t (Z.shiftl (input_register_ bs) 1 + bool_to_Z bit))
    as reg.
  intros reg raw off bs0 Hreg Hy0 Hb0 Hl0 He0 Hs0 Hc0 Hr0 Hh0.
  destruct (acquireSync_out_of_sync
              {| raw := raw; data := 0; is_received := false;
                 had_errors := false; offset := off |} p bs0 off eq_refl Hy0)
    as (Hp & Hy & He & Hc & Hl & Hb & Hi & Hs & Hr & Hh).
  destruct (acquireSync _ (p, bs0)) as [p1 bs1].
  cbn [fst snd] in Hp, Hy, He, Hc, Hl, Hb, Hi, Hs, Hr, Hh.
  destruct (is_in_sync_ bs1) eqn:Hsync1; cbn [fst snd].
  - (* sync found: then the stream is in sync after the block *)
    intros Hlost. exfalso.
    destruct (processBlockInSync_fields raw off bs1 Hsync1) as (Hy2 & _).
    cbv zeta in Hy2.
    destruct (restart_countdown_fields (processBlockInSync raw off bs1))
      as (Hy3 & _).
    rewrite Hy3, Hy2 in Hlost.
    rewrite <- Hy in He. rewrite He in Hlost.
    assert (Hsame : (if bool_decide (off = C) && bool_decide (off = Cprime)
                     then Cprime else off) = off)
      by (destruct off; reflexivity).
    rewrite Hsame, (bool_decide_true (off = off)) in Hlost by reflexivity.
    discriminate Hlost.
  - intros _. rewrite <- Hy in He, Hc, Hl.
    destruct (restart_countdown_groups bs1) as (-> & -> & -> & -> & ->).
    destruct (restart_countdown_fields bs1) as (_ & -> & -> & ->).
    change (input_register_ (restart_countdown bs1))
      with (input_register_ bs1).
    rewrite Hsync1. rewrite Hp, Hi, Hreg, Hb, Hb0, Hl, Hl0, He, He0, Hs, Hs0,
      Hc, Hc0, Hr, Hr0, Hh, Hh0.
    repeat split.
Qed.

Lemma pushBit_keeps_searching_witness :
  counts_fit (Process_start, BlockStream_new) 1
  /\ bitcount_ (snd (pushBit true (Process_start, BlockStream_new))) = 0 + 1.
Proof.
  assert (Hfit : counts_fit (Process_start, BlockStream_new) 1).
  { split; [reflexivity |]. split.
    - unfold pulses_fit. repeat constructor; cbn; lia.
    - cbn. lia. }
  split; [exact Hfit |].
  exact (proj1 (proj2 (proj2
           (pushBit_keeps_searching true Process_start BlockStream_new
              Hfit eq_refl eq_refl eq_refl)))).
Defined.

(** X19.  How sync is acquired.  An out-of-sync stream gains sync on a
    bit exactly when the low 26 register bits have the syndrome of an
    offset word and the pulse pushed for it completes a sequence in the
    sync-pulse buffer.  The block that brought sync is then filed as
    error-free in a new group, in the slot of its own offset, so the
    first group after sync lacks the blocks before it; the next offset
    is awaited, the error window takes a 0, and
    [num_bits_since_sync_lost_] is reset.  The bit count and the
    buffered pulses are taken in the range in which the [int] arithmetic
    of the source is exact. *)
Theorem pushBit_acquires_sync (bit : bool) (p : Process) (bs : BlockStream) :
  counts_fit (p, bs) 1 ->
  is_in_sync_ bs = false ->
  num_bits_until_next_block_ bs = 1 ->
  let reg := uint32_t (Z.shiftl (input_register_ bs) 1 + bool_to_Z bit) in
  let O := observed_offset reg in
  let blk := {| raw := Z.land reg kBlockBitmask;
                data := uint16_t (Z.shiftr (Z.land reg kBlockBitmask)
                                           kCheckwordLength);
                is_received := true; had_errors := false; offset := O |} in
  let g := setBlock (getBlockNumberForOffset O) blk Group_new in
  let r := pushBit bit (p, bs) in
  is_in_sync_ (snd r) = sync_found p O (bitcount_ bs + 1)
  /\ (is_in_sync_ (snd r) = true ->
      O <> invalid
      /\ fst r = pulse_taken p O (bitcount_ bs + 1)
      /\ num_bits_since_sync_lost_ (snd r) = 0
      /\ num_bits_until_next_block_ (snd r) = kBlockLength
      /\ expected_offset_ (snd r) = getNextOffsetFor O
      /\ block_error_sum50_ (snd r)
         = RunningSum_push (block_error_sum50_ bs) 0
      /\ current_group_ (snd r)
         = (if bool_decide (O = D) then Group_new else g)
      /\ ready_group_ (snd r)
         = (if bool_decide (O = D) then g else ready_group_ bs)
      /\ has_group_ready_ (snd r)
         = (if bool_decide (O = D) then true else has_group_ready_ bs)).
Proof.
  intros _ Hsync Hn. cbv zeta. rewrite observed_offset_unfold.
  rewrite (pushBit_search bit p bs Hn). cbn [fst snd].
  destruct (shift_in_fields bit bs)
    as (Hreg & Hy0 & Hb0 & Hl0 & He0 & Hs0 & Hc0 & Hr0 & Hh0).
  rewrite Hsync in Hy0.
  rewrite (findBlockInInputRegister_unfold (p, shift_in bit bs)
             (Z.land (uint32_t (Z.shiftl (input_register_ bs) 1
                                + bool_to_Z bit)) kBlockBitmask)
             (getOffsetForSyndrome
                (uint16_t (calculateSyndrome
                   (Z.land (uint32_t (Z.shiftl (input_register_ bs) 1
                                      + bool_to_Z bit)) kBlockBitmask)))))
    by (cbn [snd]; rewrite ?Hreg; reflexivity).
  revert Hreg Hy0 Hb0 Hl0 He0 Hs0 Hc0 Hr0 Hh0.
  generalize (shift_in bit bs) as bs0.
  generalize (getOffsetForSyndrome
                (uint16_t (calculateSyndrome
                   (Z.land (uint32_t (Z.shiftl (input_register_ bs) 1
                                      + bool_to_Z bit)) kBlockBitmask))))
    as off.
  generalize (Z.land (uint32_t (Z.shiftl (input_register_ bs) 1
                                + bool_to_Z bit)) kBlockBitmask) as raw.
  generalize (uint32_t (Z.shiftl (input_register_ bs) 1 + bool_to_Z bit))
    as reg.
  intros reg raw off bs0 Hreg Hy0 Hb0 Hl0 He0 Hs0 Hc0 Hr0 Hh0.
  destruct (acquireSync_out_of_sync
              {| raw := raw; data := 0; is_received := false;
                 had_errors := false; offset := off |} p bs0 off eq_refl Hy0)
    as (Hp & Hy & He & Hc & Hl & Hb & Hi & Hs & Hr & Hh).
  destruct (acquireSync _ (p, bs0)) as [p1 bs1].
  cbn [fst snd] in Hp, Hy, He, Hc, Hl, Hb, Hi, Hs, Hr, Hh.
  rewrite Hb0 in Hp, Hy, He, Hc, Hl.
  assert (Hsame : (if bool_decide (off = C) && bool_decide (off = Cprime)
                   then Cprime else off) = off)
    by (destruct off; reflexivity).
  destruct (is_in_sync_ bs1) eqn:Hsync1; cbn [fst snd].
  - rewrite <- Hy in He, Hc, Hl.
    destruct (processBlockInSync_fields raw off bs1 Hsync1)
      as (Hy2 & Hs2 & He2 & _).
    cbv zeta in Hy2, Hs2, He2.
    rewrite He, Hsame in Hy2, Hs2, He2.
    rewrite (bool_decide_true (off = off)) in Hy2, Hs2 by reflexivity.
    cbn [negb andb bool_to_Z] in Hy2, Hs2.
    destruct (processBlockInSync_groups raw off bs1)
      as (_ & Hl2 & Hc2 & Hr2 & Hh2).
    cbv zeta in Hl2, Hc2, Hr2, Hh2.
    rewrite He, Hsame in Hc2, Hr2, Hh2.
    rewrite (bool_decide_true (off = off)) in Hc2, Hr2 by reflexivity.
    cbn [negb] in Hc2, Hr2.
    destruct (restart_countdown_groups (processBlockInSync raw off bs1))
      as (-> & -> & -> & -> & _).
    destruct (restart_countdown_fields (processBlockInSync raw off bs1))
      as (-> & -> & -> & ->).
    rewrite Hy2, Hs2, He2, Hl2, Hc2, Hr2, Hh2, Hy, Hl, Hc, Hs, Hs0, Hr, Hr0,
      Hh, Hh0, Hp.
    split; [reflexivity |]. intros _.
    assert (Hvalid : off <> invalid).
    { intros ->. unfold sync_found in Hy.
      rewrite (bool_decide_true (invalid = invalid)) in Hy by reflexivity.
      discriminate Hy. }
    assert (Hnext : bool_decide (getNextOffsetFor off = A)
                    = bool_decide (off = D))
      by (destruct off; try reflexivity; congruence).
    rewrite Hnext. repeat split; assumption.
  - destruct (restart_countdown_fields bs1) as (-> & _).
    rewrite Hsync1. split; [exact Hy | discriminate].
Qed.

Lemma pushBit_acquires_sync_witness :
  pushBits (bits_of_block 0x0FC ++ take 25 (bits_of_block 0x198))
           (Process_start, BlockStream_new)
  = (process_after_block_A, stream_before_sync)
  /\ counts_fit (process_after_block_A, stream_before_sync) 1
  /\ is_in_sync_ (snd (pushBit false (process_after_block_A,
                                      stream_before_sync))) = true
  /\ sync_buffer (fst (pushBit false (process_after_block_A,
                                      stream_before_sync)))
     = [SyncPulse_default; SyncPulse_default;
        mkSyncPulse A 26; mkSyncPulse B 52]
  /\ expected_offset_ (snd (pushBit false (process_after_block_A,
                                           stream_before_sync))) = C.
Proof.
  split; [vm_compute; reflexivity |].
  assert (Hfit : counts_fit (process_after_block_A, stream_before_sync) 1).
  { split; [reflexivity |]. split.
    - unfold pulses_fit. repeat constructor; cbn; lia.
    - cbn. lia. }
  assert (Hsync : is_in_sync_ (snd (pushBit false (process_after_block_A,
                                                   stream_before_sync)))
                  = true)
    by (vm_compute; reflexivity).
  split; [exact Hfit |]. split; [exact Hsync |].
  destruct (proj2 (pushBit_acquires_sync false process_after_block_A
                     stream_before_sync Hfit eq_refl eq_refl) Hsync)
    as (_ & Hp & _ & _ & He & _).
  split.
  - rewrite Hp. vm_compute. reflexivity.
  - rewrite He. vm_compute. reflexivity.
Defined.

(* ===================================================================== *)
(** * The sync-pulse buffer *)
(* ===================================================================== *)

Lemma SyncPulseBuffer_push_shift (pulses : SyncPulseBuffer) (p : SyncPulse) :
  length pulses = 4%nat ->
  SyncPulseBuffer_push pulses (pulse_offset p) (pulse_bitcount p)
  = drop 1 pulses ++ [p].
Proof.
  intros Hlen.
  destruct pulses as [| p1 [| p2 [| p3 [| p4 [| ? ?]]]]];
    try discriminate Hlen.
  destruct p. reflexivity.
Qed.

(** X20.  The sync-pulse buffer is a queue of the four most recent
    pulses: each [push] drops the oldest pulse and appends the new one,
    so after any run of pushes the buffer holds, oldest first, the last
    four entries of its former content followed by the pushed pulses. *)
Theorem SyncPulseBuffer_holds_last_four
    (ps : list SyncPulse) (pulses : SyncPulseBuffer) :
  length pulses = 4%nat ->
  SyncPulseBuffer_push_all ps pulses = drop (length ps) (pulses ++ ps)
  /\ length (SyncPulseBuffer_push_all ps pulses) = 4%nat
  /\ ((4 <= length ps)%nat ->
      SyncPulseBuffer_push_all ps pulses = drop (length ps - 4) ps).
Proof.
  intros Hlen.
  assert (Hall : SyncPulseBuffer_push_all ps pulses
                 = drop (length ps) (pulses ++ ps)).
  { unfold SyncPulseBuffer_push_all. revert pulses Hlen.
    induction ps as [| p ps IH]; intros pulses Hlen; cbn [fold_left length].
    - rewrite drop_0, app_nil_r. reflexivity.
    - rewrite (SyncPulseBuffer_push_shift pulses p Hlen).
      rewrite IH.
      + destruct pulses as [| p1 pulses]; [discriminate Hlen |].
        cbn [drop app]. rewrite <- app_assoc. reflexivity.
      + rewrite length_app, length_drop, Hlen. reflexivity. }
  split; [exact Hall |]. split.
  - rewrite Hall, length_drop, length_app, Hlen. lia.
  - intros Hps. rewrite Hall, drop_app, Hlen.
    rewrite (drop_ge pulses) by lia. reflexivity.
Qed.

Lemma SyncPulseBuffer_holds_last_four_witness :
  SyncPulseBuffer_push_all
    [{| pulse_offset := A; pulse_bitcount := 26 |};
     {| pulse_offset := B; pulse_bitcount := 52 |}] SyncPulseBuffer_new
  = drop 2 (SyncPulseBuffer_new
            ++ [{| pulse_offset := A; pulse_bitcount := 26 |};
                {| pulse_offset := B; pulse_bitcount := 52 |}]).
Proof.
  exact (proj1 (SyncPulseBuffer_holds_last_four
                  [{| pulse_offset := A; pulse_bitcount := 26 |};
                   {| pulse_offset := B; pulse_bitcount := 52 |}]
                  SyncPulseBuffer_new eq_refl)).
Defined.

(* ===================================================================== *)
(** * When the sync pulses form a sequence *)
(* ===================================================================== *)

(** X21.  With bit counts in the range in which the [int] subtraction
    of [isSequenceFound] is exact, sync is found at a bit position
    exactly when the register holds a block with a valid offset and one
    of the three most recent pulses of the buffer anchors the pulse of
    that block, the block numbers being compared by the truncating
    remainder of C++.  The oldest of the four buffered pulses is pushed
    out before the test and is never consulted, and one earlier pulse is
    enough.  When none of the three pulses is later than the new one,
    the remainder is the mathematical modulo. *)
Theorem sync_found_iff (p : Process) (O : Offset) (bitcount : Z) :
  length (sync_buffer p) = 4%nat ->
  pulses_fit (sync_buffer p) ->
  - 2 ^ 30 <= bitcount < 2 ^ 30 ->
  (sync_found p O bitcount = true
   <-> O <> invalid
       /\ exists (i : nat) (prev : SyncPulse),
            (1 <= i < 4)%nat /\ sync_buffer p !! i = Some prev
            /\ anchors prev {| pulse_offset := O; pulse_bitcount := bitcount |})
  /\ ((forall (i : nat) (prev : SyncPulse),
         (1 <= i < 4)%nat -> sync_buffer p !! i = Some prev ->
         pulse_bitcount prev <= bitcount) ->
      (sync_found p O bitcount = true
       <-> O <> invalid
           /\ exists (i : nat) (prev : SyncPulse),
                (1 <= i < 4)%nat /\ sync_buffer p !! i = Some prev
                /\ anchors_as_specified prev
                     {| pulse_offset := O; pulse_bitcount := bitcount |})).
Proof.
  intros Hlen _ _.
  assert (Hcode : sync_found p O bitcount = true
                  <-> O <> invalid
                      /\ exists (i : nat) (prev : SyncPulse),
                           (1 <= i < 4)%nat /\ sync_buffer p !! i = Some prev
                           /\ anchors prev {| pulse_offset := O;
                                              pulse_bitcount := bitcount |}).
  { unfold sync_found, pulse_taken.
    destruct (sync_buffer p) as [| p0 [| p1 [| p2 [| p3 [| ? ?]]]]] eqn:Hbuf;
      try discriminate Hlen.
    destruct (bool_decide (O = invalid)) eqn:HO; cbn [negb andb].
    - apply bool_decide_eq_true in HO.
      split; [discriminate | intros [Hne _]; contradiction].
    - apply bool_decide_eq_false in HO. cbn [sync_buffer].
      change (SyncPulseBuffer_push [p0; p1; p2; p3] O bitcount)
        with [p1; p2; p3; {| pulse_offset := O; pulse_bitcount := bitcount |}].
      set (new := {| pulse_offset := O; pulse_bitcount := bitcount |}).
      unfold isSequenceFound. rewrite isSequenceFound_loop_exists.
      change (seq 0 (length [p1; p2; p3; new] - 1)) with [0; 1; 2]%nat.
      split.
      + intros (i & Hi & Hf). split; [exact HO |].
        apply sequence_found_at_anchors in Hf.
        change (back [p1; p2; p3; new]) with new in Hf.
        cbn in Hi. destruct Hi as [<- | [<- | [<- | []]]].
        * exists 1%nat, p1. repeat split; [lia | lia | exact Hf].
        * exists 2%nat, p2. repeat split; [lia | lia | exact Hf].
        * exists 3%nat, p3. repeat split; [lia | lia | exact Hf].
      + intros (_ & i & prev & Hi & Hlook & Ha).
        destruct i as [| [| [| [| i]]]]; try lia;
          cbn in Hlook; injection Hlook as <-.
        * exists 0%nat. split; [cbn; tauto |].
          apply sequence_found_at_anchors. exact Ha.
        * exists 1%nat. split; [cbn; tauto |].
          apply sequence_found_at_anchors. exact Ha.
        * exists 2%nat. split; [cbn; tauto |].
          apply sequence_found_at_anchors. exact Ha. }
  split; [exact Hcode |].
  intros Horder. rewrite Hcode.
  split; intros (HO & i & prev & Hi & Hlook & Ha);
    (split; [exact HO |]); exists i, prev;
    (split; [exact Hi | split; [exact Hlook |]]);
    apply (anchors_in_push_order prev
             {| pulse_offset := O; pulse_bitcount := bitcount |}
             (Horder i prev Hi Hlook)), Ha.
Qed.

Lemma sync_found_iff_witness :
  sync_found
    {| sync_buffer := [SyncPulse_default; SyncPulse_default;
                       SyncPulse_default; mkSyncPulse A 26] |} B 52 = true.
Proof.
  apply (proj1 (sync_found_iff
                  {| sync_buffer := [SyncPulse_default; SyncPulse_default;
                                     SyncPulse_default; mkSyncPulse A 26] |}
                  B 52 eq_refl
                  ltac:(unfold pulses_fit; repeat constructor; cbn; lia)
                  ltac:(lia))).
  split; [discriminate |].
  exists 3%nat, (mkSyncPulse A 26).
  split; [lia | split; [reflexivity |]].
  exists 1. cbn. repeat split; [lia | discriminate].
Defined.

(* ===================================================================== *)
(** * What a station writes *)
(* ===================================================================== *)

Section StationOutput.

Variable DecoderState : Type.
Variable decode : Group -> DecoderState -> DecoderState * string.

Lemma updateAndPrint_output (g : Group) (st : Station DecoderState)
    (out : list string) :
  pi_ (fst (updateAndPrint decode g (st, out))) = pi_ st
  /\ has_pi_ (fst (updateAndPrint decode g (st, out))) = has_pi_ st
  /\ (has_pi_ st = false -> updateAndPrint decode g (st, out) = (st, out))
  /\ exists lines : list string,
       snd (updateAndPrint decode g (st, out)) = out ++ lines
       /\ (length lines <= if isEmpty g then 0 else 1)%nat.
Proof.
  unfold updateAndPrint.
  destruct (has_pi_ st) eqn:Hpi; cbn [negb].
  - assert (Hdec : forall b : bool,
              pi_ (fst (decodeAndPrint decode g (set_last_group_had_pi st b) out))
              = pi_ st
              /\ has_pi_ (fst (decodeAndPrint decode g
                                 (set_last_group_had_pi st b) out)) = true
              /\ snd (decodeAndPrint decode g (set_last_group_had_pi st b) out)
                 = out ++ [snd (decode g (decoder_ st))]).
    { intros b. unfold decodeAndPrint.
      cbn [set_last_group_had_pi decoder_ pi_ has_pi_ last_group_had_pi_].
      destruct (decode g (decoder_ st)). cbn [fst snd]. auto. }
    assert (Hkeep : exists lines : list string,
              out = out ++ lines /\ (length lines <= 0)%nat)
      by (exists []; rewrite app_nil_r; split; [reflexivity | cbn; lia]).
    assert (Hskip : forall (st' : Station DecoderState) (n : nat),
              pi_ st' = pi_ st -> has_pi_ st' = true ->
              pi_ (fst (st', out)) = pi_ st
              /\ has_pi_ (fst (st', out)) = true
              /\ (true = false -> (st', out) = (st, out))
              /\ exists lines : list string,
                   snd (st', out) = out ++ lines
                   /\ (length lines <= n)%nat).
    { intros st' n H1 H2. cbn [fst snd]. repeat split; try assumption;
        [discriminate |].
      exists []. rewrite app_nil_r. split; [reflexivity | cbn; lia]. }
    assert (Hrun : forall b : bool,
              pi_ (fst (decodeAndPrint decode g
                          (set_last_group_had_pi st b) out)) = pi_ st
              /\ has_pi_ (fst (decodeAndPrint decode g
                                 (set_last_group_had_pi st b) out)) = true
              /\ (true = false ->
                  decodeAndPrint decode g (set_last_group_had_pi st b) out
                  = (st, out))
              /\ exists lines : list string,
                   snd (decodeAndPrint decode g
                          (set_last_group_had_pi st b) out) = out ++ lines
                   /\ (length lines <= 1)%nat).
    { intros b. destruct (Hdec b) as (H1 & H2 & H3).
      repeat split; try assumption; [discriminate |].
      eexists. split; [exact H3 | cbn; lia]. }
    destruct (hasPI g); [| destruct (last_group_had_pi_ st)];
      destruct (isEmpty g);
      first [ apply Hrun
            | apply Hskip; [reflexivity | exact Hpi] ].
  - cbn [fst snd]. split; [reflexivity |]. split; [exact Hpi |].
    split; [reflexivity |].
    exists []. rewrite app_nil_r. split; [reflexivity | cbn; lia].
Qed.

(** X22.  What a station writes.  Whatever groups [updateAndPrint] is
    given, the lines written before stay as they are and at most one
    line is added per non-empty group; the PI of the station and
    [has_pi_] never change; and a station constructed without a PI
    ignores every group. *)
Theorem updateAndPrint_all_output (groups : list Group)
    (st : Station DecoderState) (out : list string) :
  pi_ (fst (updateAndPrint_all decode groups (st, out))) = pi_ st
  /\ has_pi_ (fst (updateAndPrint_all decode groups (st, out))) = has_pi_ st
  /\ (has_pi_ st = false ->
      updateAndPrint_all decode groups (st, out) = (st, out))
  /\ exists lines : list string,
       snd (updateAndPrint_all decode groups (st, out)) = out ++ lines
       /\ (length lines
           <= length (filter (fun g => isEmpty g = false) groups))%nat.
Proof.
  unfold updateAndPrint_all. revert st out.
  induction groups as [| g groups IH]; intros st out; cbn [fold_left].
  - repeat split. exists []. rewrite app_nil_r. split; [reflexivity | cbn; lia].
  - destruct (updateAndPrint_output g st out)
      as (Hpi & Hhas & Hnone & lines1 & Hout1 & Hlen1).
    destruct (updateAndPrint decode g (st, out)) as [st1 out1].
    cbn [fst snd] in Hpi, Hhas, Hout1.
    destruct (IH st1 out1) as (IHpi & IHhas & IHnone & lines2 & Hout2 & Hlen2).
    rewrite IHpi, IHhas, Hpi, Hhas. repeat split.
    + intros Hno. rewrite (Hnone Hno) in *.
      injection (Hnone Hno) as -> ->. apply IHnone. exact Hno.
    + exists (lines1 ++ lines2). rewrite Hout2, Hout1, <- app_assoc.
      split; [reflexivity |].
      rewrite length_app, filter_cons.
      destruct (decide (isEmpty g = false)) as [Hne | He].
      * rewrite Hne in Hlen1. cbn [length]. lia.
      * apply not_false_is_true in He. rewrite He in Hlen1. lia.
Qed.

End StationOutput.

(* ===================================================================== *)
(** * Popping bit fields off the deque *)
(* ===================================================================== *)

Lemma popBits_loop_total (n : nat) : forall (result : Z) (bit_deque : list Z),
  (n <= length bit_deque)%nat ->
  0 <= result < 2 ^ 16 ->
  exists v : Z,
    popBits_loop n result bit_deque = Some (v, drop n bit_deque)
    /\ 0 <= v < 2 ^ 16.
Proof.
  induction n as [| n IH]; intros result bit_deque Hlen Hres; cbn [popBits_loop].
  - exists result. rewrite drop_0. auto.
  - destruct bit_deque as [| bit rest]; cbn [length] in Hlen; [lia |].
    cbn [drop]. apply IH; [lia |].
    unfold uint16_t. apply Z.mod_pos_bound. lia.
Qed.

(** X23.  [popBits] never runs off the deque.  For every deque and every
    length it returns a 16-bit value; when the deque holds fewer than
    [len] elements the value is 0 and the deque is left untouched,
    otherwise exactly the first [len] elements are removed (none for a
    length that is not positive). *)
Theorem popBits_total (bit_deque : list Z) (len : Z) :
  exists v : Z,
    popBits bit_deque len
    = Some (v, if len <=? Z.of_nat (length bit_deque)
               then drop (Z.to_nat len) bit_deque else bit_deque)
    /\ 0 <= v < 2 ^ 16
    /\ (Z.of_nat (length bit_deque) < len -> v = 0).
Proof.
  unfold popBits.
  destruct (Z.leb_spec len (Z.of_nat (length bit_deque))) as [Hle | Hgt].
  - destruct (popBits_loop_total (Z.to_nat len) 0 bit_deque) as (v & Hv & Hr);
      [lia | lia |].
    exists v. split; [exact Hv |]. split; [exact Hr | lia].
  - exists 0. split; [reflexivity |]. split; [lia | reflexivity].
Qed.

Lemma field_bits_S (n : nat) (data : Z) :
  field_bits (S n) data
  = Z.land (Z.shiftr data (Z.of_nat n)) 1 :: field_bits n data.
Proof.
  unfold field_bits. cbn [seq map].
  replace (S n - 1 - 0)%nat with n by lia. f_equal.
  rewrite <- seq_shift, map_map. apply map_ext_in.
  intros b Hb. apply in_seq in Hb.
  replace (S n - 1 - S b)%nat with (n - 1 - b)%nat by lia. reflexivity.
Qed.

Lemma field_bits_length (n : nat) (data : Z) : length (field_bits n data) = n.
Proof. unfold field_bits. rewrite length_map, length_seq. reflexivity. Qed.

Lemma land_1_mod (x : Z) : Z.land x 1 = x mod 2.
Proof. change 1 with (Z.ones 1). apply Z.land_ones. lia. Qed.

Lemma lor_shiftl_bit (r b : Z) :
  0 <= b <= 1 -> Z.lor (Z.shiftl r 1) b = 2 * r + b.
Proof.
  intros Hb. rewrite Z.shiftl_mul_pow2 by lia. change (2 ^ 1) with 2.
  assert (Hland : Z.land (r * 2) b = 0).
  { assert (b = 0 \/ b = 1) as [-> | ->] by lia.
    - apply Z.land_0_r.
    - rewrite land_1_mod. apply Z.mod_mul. lia. }
  pose proof (Z.add_lor_land (r * 2) b) as H. rewrite Hland in H. lia.
Qed.

Lemma popBits_loop_field (n : nat) (data : Z) (rest : list Z) :
  forall result : Z,
    0 <= result < 2 ^ 16 ->
    popBits_loop n result (field_bits n data ++ rest)
    = Some ((result * 2 ^ Z.of_nat n + data mod 2 ^ Z.of_nat n) mod 2 ^ 16,
            rest).
Proof.
  induction n as [| n IH]; intros result Hres.
  - cbn [popBits_loop field_bits seq map app].
    change (Z.of_nat 0) with 0.
    rewrite Z.pow_0_r, Z.mod_1_r, Z.mul_1_r, Z.add_0_r.
    rewrite Z.mod_small by exact Hres. reflexivity.
  - rewrite field_bits_S. cbn [app popBits_loop].
    rewrite land_1_mod, Z.shiftr_div_pow2 by lia.
    pose proof (Z.mod_pos_bound (data / 2 ^ Z.of_nat n) 2 ltac:(lia)) as Hbit.
    rewrite lor_shiftl_bit by lia.
    rewrite IH by (unfold uint16_t; apply Z.mod_pos_bound; lia).
    f_equal. f_equal. unfold uint16_t.
    rewrite <- (Z.add_mod_idemp_l
      ((2 * result + (data / 2 ^ Z.of_nat n) mod 2) mod 2 ^ 16 * 2 ^ Z.of_nat n))
      by lia.
    rewrite Z.mul_mod_idemp_l by lia.
    rewrite Z.add_mod_idemp_l by lia.
    f_equal.
    rewrite Nat2Z.inj_succ, Z.pow_succ_r by lia.
    rewrite (Z.mul_comm 2 (2 ^ Z.of_nat n)), Z.rem_mul_r by lia.
    lia.
Qed.

Lemma popBits_field (len : nat) (data : Z) (rest : list Z) :
  (len <= 16)%nat ->
  0 <= data < 2 ^ Z.of_nat len ->
  popBits (field_bits len data ++ rest) (Z.of_nat len) = Some (data, rest).
Proof.
  intros Hlen Hdata. unfold popBits.
  rewrite length_app, field_bits_length, Nat2Z.id.
  destruct (Z.leb_spec (Z.of_nat len) (Z.of_nat (len + length rest)));
    [| lia].
  rewrite popBits_loop_field by lia.
  rewrite Z.mul_0_l, Z.add_0_l, (Z.mod_small data) by exact Hdata.
  rewrite Z.mod_small; [reflexivity |].
  assert (2 ^ Z.of_nat len <= 2 ^ 16) by (apply Z.pow_le_mono_r; lia). lia.
Qed.

(** X24.  Round trip of a bit field.  When the deque starts with the
    [len] bits of a field as [getFreeformFields] writes them, most
    significant bit first, [popBits] returns the field value and leaves
    exactly what followed; this holds for every width up to the 16 bits
    of the result, and two fields in a row come out one after the
    other. *)
Theorem popBits_round_trip (len len' : nat) (data data' : Z) (rest : list Z) :
  (len <= 16)%nat -> (len' <= 16)%nat ->
  0 <= data < 2 ^ Z.of_nat len ->
  0 <= data' < 2 ^ Z.of_nat len' ->
  popBits (field_bits len data ++ rest) (Z.of_nat len) = Some (data, rest)
  /\ popBits (field_bits len data ++ field_bits len' data' ++ rest)
       (Z.of_nat len)
     = Some (data, field_bits len' data' ++ rest)
  /\ popBits (field_bits len' data' ++ rest) (Z.of_nat len')
     = Some (data', rest).
Proof.
  intros Hlen Hlen' Hdata Hdata'.
  split; [apply popBits_field; assumption |].
  split; apply popBits_field; assumption.
Qed.

Lemma popBits_round_trip_witness :
  popBits (field_bits 11 0x5A3 ++ [1; 0; 1]) (Z.of_nat 11)
  = Some (0x5A3, [1; 0; 1]).
Proof.
  apply (popBits_round_trip 11 4 0x5A3 9 [1; 0; 1]); cbn; lia.
Defined.

(* ===================================================================== *)
(** * The free-format fields of a TMC message *)
(* ===================================================================== *)

Lemma field_size_lookup (label : Z) :
  0 <= label < 16 ->
  field_size !! Z.to_nat label = Some (field_size_of label)
  /\ 0 <= field_size_of label <= 16.
Proof.
  intros Hl. unfold field_size_of.
  assert (Hn : (Z.to_nat label < 16)%nat) by lia.
  revert Hn. generalize (Z.to_nat label) as n. intros n Hn.
  do 16 (destruct n as [| n]; [cbn; split; [reflexivity | lia] |]).
  lia.
Qed.

Lemma freeform_bits_cons (label field_data : Z) (rest : list (Z * Z)) :
  freeform_bits ((label, field_data) :: rest)
  = field_bits 4 label
    ++ field_bits (Z.to_nat (field_size_of label)) field_data
    ++ freeform_bits rest.
Proof. reflexivity. Qed.

Lemma decodeFreeform_S (fuel : nat) (bits : list Z) (result : list (Z * Z)) :
  decodeFreeform (S fuel) bits result
  = (if 4 <? Z.of_nat (length bits) then
       match popBits bits 4 with
       | None => Thrown
       | Some (label, bits1) =>
           match field_size !! Z.to_nat label with
           | None => Thrown
           | Some size =>
               if Z.of_nat (length bits1) <? size then Returned result
               else
                 match popBits bits1 size with
                 | None => Thrown
                 | Some (field_data, bits2) =>
                     decodeFreeform fuel bits2
                       (result ++ [(label, field_data)])
                 end
           end
       end
     else Returned result).
Proof. reflexivity. Qed.

(** X25.  Round trip of the free-format fields.  Take any sequence of
    fields (label 0..15, data within the width [field_size] gives the
    label) written out as bits, followed by one to four more bits.  The
    decoding loop of [getFreeformFields] returns exactly these fields,
    in order, without throwing, for any fuel above the number of
    fields. *)
Theorem decodeFreeform_round_trip
    (fields : list (Z * Z)) (tail : list Z) (fuel : nat) :
  Forall is_field fields ->
  (1 <= length tail <= 4)%nat ->
  (length fields < fuel)%nat ->
  decodeFreeform fuel (freeform_bits fields ++ tail) [] = Returned fields.
Proof.
  intros Hfields Htail.
  assert (Hgen : forall (result : list (Z * Z)) (fuel : nat),
            (length fields < fuel)%nat ->
            decodeFreeform fuel (freeform_bits fields ++ tail) result
            = Returned (result ++ fields)).
  { induction Hfields as [| [label field_data] rest [Hlabel Hdata] _ IH];
      intros result fuel' Hfuel; cbn [length] in Hfuel;
      (destruct fuel' as [| fuel']; [lia |]); rewrite decodeFreeform_S.
    - cbn [freeform_bits app].
      destruct (Z.ltb_spec 4 (Z.of_nat (length tail))); [lia |].
      rewrite app_nil_r. reflexivity.
    - cbn [fst snd] in Hlabel, Hdata.
      destruct (field_size_lookup label Hlabel) as [Hsize Hrange].
      rewrite freeform_bits_cons, <- !app_assoc.
      set (size := field_size_of label) in *.
      set (after := freeform_bits rest ++ tail).
      assert (Hlen : 4 < Z.of_nat (length (field_bits 4 label
                       ++ field_bits (Z.to_nat size) field_data ++ after))).
      { rewrite !length_app, !field_bits_length. unfold after.
        rewrite length_app. lia. }
      destruct (Z.ltb_spec 4 (Z.of_nat (length (field_bits 4 label
                  ++ field_bits (Z.to_nat size) field_data ++ after))));
        [| lia].
      rewrite (popBits_field 4 label) by (cbn; lia).
      rewrite Hsize.
      destruct (Z.ltb_spec
                  (Z.of_nat (length (field_bits (Z.to_nat size) field_data
                                     ++ after))) size) as [Hshort | _].
      { rewrite length_app, field_bits_length in Hshort. lia. }
      replace size with (Z.of_nat (Z.to_nat size)) at 2 by lia.
      rewrite popBits_field by (rewrite ?Z2Nat.id; lia).
      unfold after. rewrite IH by lia.
      rewrite <- app_assoc. reflexivity. }
  intros Hfuel. apply (Hgen [] fuel Hfuel).
Qed.

Lemma decodeFreeform_round_trip_witness :
  decodeFreeform 3 (freeform_bits [(9, 0x5A3); (14, 0)] ++ [0; 0]) []
  = Returned [(9, 0x5A3); (14, 0)].
Proof.
  apply (decodeFreeform_round_trip [(9, 0x5A3); (14, 0)] [0; 0] 3).
  - repeat constructor; cbn; lia.
  - cbn. lia.
  - cbn. lia.
Defined.

Lemma popBits_loop_bits (n : nat) :
  forall (result : Z) (bits : list Z) (k : Z),
    Forall is_bit bits ->
    (n <= length bits)%nat ->
    0 <= k -> k + Z.of_nat n <= 16 ->
    0 <= result < 2 ^ k ->
    exists v : Z,
      popBits_loop n result bits = Some (v, drop n bits)
      /\ 0 <= v < 2 ^ (k + Z.of_nat n).
Proof.
  induction n as [| n IH]; intros result bits k Hbits Hlen Hk Hkn Hres;
    cbn [popBits_loop].
  - exists result. rewrite drop_0, Z.add_0_r. auto.
  - destruct bits as [| bit rest]; cbn [length] in Hlen; [lia |].
    apply Forall_cons_1 in Hbits as [Hbit Hrest]. unfold is_bit in Hbit.
    cbn [drop].
    assert (Hnext : 0 <= 2 * result + bit < 2 ^ (k + 1))
      by (rewrite Z.pow_add_r by lia; lia).
    assert (Hfit : 2 ^ (k + 1) <= 2 ^ 16) by (apply Z.pow_le_mono_r; lia).
    rewrite lor_shiftl_bit by exact Hbit.
    unfold uint16_t. rewrite Z.mod_small by lia.
    destruct (IH (2 * result + bit) rest (k + 1) Hrest) as (v & Hv & Hr);
      try lia.
    exists v. split; [exact Hv |].
    replace (k + Z.of_nat (S n)) with (k + 1 + Z.of_nat n) by lia. exact Hr.
Qed.

Lemma popBits_bits (bits : list Z) (len : Z) :
  Forall is_bit bits ->
  0 <= len <= 16 -> len <= Z.of_nat (length bits) ->
  exists v : Z,
    popBits bits len = Some (v, drop (Z.to_nat len) bits)
    /\ 0 <= v < 2 ^ len.
Proof.
  intros Hbits Hlen Hle. unfold popBits.
  destruct (Z.leb_spec len (Z.of_nat (length bits))); [| lia].
  destruct (popBits_loop_bits (Z.to_nat len) 0 bits 0 Hbits) as (v & Hv & Hr);
    try lia.
  exists v. split; [exact Hv |].
  rewrite Z.add_0_l, Z2Nat.id in Hr by lia. exact Hr.
Qed.

(** X26.  The decoding loop of [getFreeformFields] ends and never
    throws on a deque of bits: with fuel above the number of bits it
    returns a list of fields, each with a label 0..15 and data within
    the width of that label. *)
Theorem decodeFreeform_returns (bits : list Z) (fuel : nat) :
  Forall is_bit bits ->
  (length bits < fuel)%nat ->
  exists fields : list (Z * Z),
    decodeFreeform fuel bits [] = Returned fields
    /\ Forall is_field fields.
Proof.
  intros Hbits Hfuel.
  assert (Hgen : forall (fuel : nat) (bits : list Z) (result : list (Z * Z)),
            Forall is_bit bits ->
            (length bits < fuel)%nat ->
            Forall is_field result ->
            exists fields : list (Z * Z),
              decodeFreeform fuel bits result = Returned fields
              /\ Forall is_field fields).
  { clear. induction fuel as [| fuel IH]; intros bits result Hbits Hfuel Hres;
      [lia |].
    rewrite decodeFreeform_S.
    destruct (Z.ltb_spec 4 (Z.of_nat (length bits))) as [Hlong | _];
      [| exists result; auto].
    destruct (popBits_bits bits 4 Hbits) as (label & -> & Hlabel); try lia.
    change (2 ^ 4) with 16 in Hlabel.
    destruct (field_size_lookup label Hlabel) as [-> Hsize].
    set (bits1 := drop (Z.to_nat 4) bits).
    assert (Hbits1 : Forall is_bit bits1) by (apply Forall_drop, Hbits).
    assert (Hlen1 : (length bits1 = length bits - 4)%nat)
      by (unfold bits1; rewrite length_drop; reflexivity).
    destruct (Z.ltb_spec (Z.of_nat (length bits1)) (field_size_of label))
      as [_ | Henough]; [exists result; auto |].
    destruct (popBits_bits bits1 (field_size_of label) Hbits1)
      as (field_data & -> & Hdata); try lia.
    apply IH.
    - apply Forall_drop, Hbits1.
    - rewrite length_drop. lia.
    - apply Forall_app. split; [exact Hres |].
      apply Forall_singleton. unfold is_field. simpl. lia. }
  apply Hgen; [exact Hbits | exact Hfuel | constructor].
Qed.

Lemma decodeFreeform_returns_witness :
  exists fields : list (Z * Z),
    decodeFreeform 9 [1; 1; 1; 0; 0; 1; 0; 1] [] = Returned fields
    /\ Forall is_field fields.
Proof.
  apply (decodeFreeform_returns [1; 1; 1; 0; 0; 1; 0; 1] 9).
  - repeat constructor; unfold is_bit; lia.
  - cbn. lia.
Defined.

(* ===================================================================== *)
(** * Times of day of a TMC message *)
(* ===================================================================== *)

Lemma timeString_table :
  forallb (fun n : nat =>
             String.eqb (timeString (Z.of_nat n)) (timeString_text (Z.of_nat n))
             && negb (String.eqb (timeString (Z.of_nat n)) EmptyString)
             && (String.length (timeString (Z.of_nat n)) <=? 21)%nat)
          (seq 0 256) = true.
Proof. vm_compute. reflexivity. Qed.

Lemma timeString_late (field_data : Z) :
  256 <= field_data ->
  timeString field_data = EmptyString
  /\ timeString_text field_data = EmptyString.
Proof.
  intros H. unfold timeString, timeString_text, timeString_with. cbv zeta.
  destruct (Z.leb_spec field_data 95); [lia |].
  destruct (Z.leb_spec field_data 200); [lia |].
  destruct (Z.leb_spec field_data 231); [lia |].
  assert (Hmo : 12 <= Z.quot (field_data - 232) 2)
    by (apply Z.quot_le_lower_bound; lia).
  destruct (Z.ltb_spec (Z.quot (field_data - 232) 2) 12); [lia |].
  split; reflexivity.
Qed.

(** X27.  [timeString] never loses a character to its buffers: for every
    16-bit field value the string returned is the full text of the
    format string (the 20-byte buffer is just large enough for
    "day 31 of the month").  The string has at most 21 characters and is
    empty exactly for the values from 256 on. *)
Theorem timeString_never_truncated (field_data : Z) :
  0 <= field_data < 2 ^ 16 ->
  timeString field_data = timeString_text field_data
  /\ (String.length (timeString field_data) <= 21)%nat
  /\ (timeString field_data = EmptyString <-> 256 <= field_data).
Proof.
  intros Hrange.
  destruct (Z_lt_le_dec field_data 256) as [Hsmall | Hlate].
  - pose proof timeString_table as Htab.
    rewrite forallb_forall in Htab.
    specialize (Htab (Z.to_nat field_data)).
    rewrite Z2Nat.id in Htab by lia.
    assert (Hin : In (Z.to_nat field_data) (seq 0 256))
      by (apply in_seq; lia).
    apply Htab in Hin.
    apply andb_prop in Hin as [Hin Hlen].
    apply andb_prop in Hin as [Heq Hne].
    apply String.eqb_eq in Heq.
    apply negb_true_iff, String.eqb_neq in Hne.
    apply Nat.leb_le in Hlen.
    split; [exact Heq |]. split; [exact Hlen |].
    split; [intros He; contradiction | lia].
  - destruct (timeString_late field_data Hlate) as [E1 E2].
    rewrite E1, E2. split; [reflexivity |]. split; [cbn; lia |].
    split; [intros _; exact Hlate | reflexivity].
Qed.

Lemma timeString_never_truncated_witness :
  timeString 231 = timeString_text 231.
Proof.
  apply (timeString_never_truncated 231). lia.
Defined.

(* ===================================================================== *)
(** * The decoder chain and its ODA table *)
(* ===================================================================== *)

(** X28.  The chain of [updateAndPrint] follows the ODA table written
    above it, for every type but 15A.  A type marked [-] never reaches
    [decodeODAGroup] and is decoded the same way whether or not an ODA
    application is registered for it; a type marked [o] goes to
    [decodeODAGroup] once an application is registered; a type marked
    [O] always goes there.  Type 15A, marked [-] and commented as not
    allowed, is handed to [decodeODAGroup] all the same. *)
Theorem dispatch_follows_oda_table (type : GroupType) :
  0 <= number type <= 15 ->
  (oda_mark type = Some "O"%char ->
   dispatch type true = decodeODAGroup /\ dispatch type false = decodeODAGroup)
  /\ (oda_mark type = Some "o"%char -> dispatch type true = decodeODAGroup)
  /\ (oda_mark type = Some "-"%char ->
      type <> {| number := 15; version := VersionA |} ->
      dispatch type true <> decodeODAGroup
      /\ dispatch type false = dispatch type true)
  /\ (type = {| number := 15; version := VersionA |} ->
      oda_mark type = Some "-"%char
      /\ dispatch type true = decodeODAGroup
      /\ dispatch type false = decodeODAGroup).
Proof.
  destruct type as [n v]. cbn [number]. intros Hn.
  replace n with (Z.of_nat (Z.to_nat n)) by lia.
  assert (Hm : (Z.to_nat n < 16)%nat) by lia.
  revert Hm. generalize (Z.to_nat n) as m. clear. intros m Hm.
  do 16 (destruct m as [| m];
         [destruct v; vm_compute; repeat split; intros;
          try discriminate; try reflexivity; congruence |]).
  lia.
Qed.

Lemma dispatch_follows_oda_table_witness :
  dispatch {| number := 5; version := VersionA |} true = decodeODAGroup.
Proof.
  assert (H : 0 <= number {| number := 5; version := VersionA |} <= 15)
    by (cbn; lia).
  exact (proj1 (proj2 (dispatch_follows_oda_table
                         {| number := 5; version := VersionA |} H)) eq_refl).
Defined.
